(** * CarbCycler: cycle arithmetic, placement repair and the greedy gram solver

    A shallow embedding of [src/utils/calc.ts] and [src/utils/solver.ts]
    (with the declarations of [src/types.ts]) and the properties their
    specification states about them.

    Number model.  A TypeScript [number] that the code uses as a count or an
    index ([cycleDays], [nHigh], [nMed], [nLow], array lengths, loop
    counters) is a [Z].  Every other [number] (weights, shares, grams,
    densities, targets) is embedded twice.

    - The exact view ([Calc], [Solver], [App], [ExportXlsx]) takes it as a
      rational [Q], with [Qeq] ([==]) as equality.  It has no [NaN], no
      infinity and no rounding error, and it is used for what does not
      hinge on the last bits of a double: which entries are touched, signs,
      the order of the steps, the shape of the result, bounds with a
      tolerance.  It does not tell the second decimal of a rounded value
      ([round2] of a tie), the verdict of the validator at the very edge
      of its tolerance, or the few 1e-15 g that [assign] may hand to a
      second entry.
    - The binary64 view ([Binary64]) takes it as an IEEE 754 double, the
      primitive [float] of Rocq, with the operations in the order in which
      the code performs them.  What [calculateCycle], [validateProfile] and
      [computeTotals] return is stated there.

    Exceptions.  The only place where the embedded code can throw is the
    property access on [undefined] after [getVariant] returned
    [food.variants[0]] of an empty array; functions that can reach it return
    an [option], [None] standing for the [TypeError]. *)

From Stdlib Require Import QArith Qabs Qround Qminmax Lqa Lia ZArith.
From Stdlib Require Import Floats.
From Stdlib Require Uint63.
From stdpp Require Import base option list gmap strings relations.

Set Default Proof Using "Type".

(** A decimal literal of a double stands for the nearest double, as in the
    source. *)
Set Warnings "-inexact-float".

(** ** src/types.ts *)

Inductive BodyType := endo | ecto.
Inductive DayType := High | Medium | Low.
Inductive Basis := raw | cooked | fresh.
Inductive Category := protein | carb | fat | veg | fruit | dairy | other.

#[global] Instance BodyType_eq_dec : EqDecision BodyType.
Proof. solve_decision. Defined.
#[global] Instance DayType_eq_dec : EqDecision DayType.
Proof. solve_decision. Defined.
#[global] Instance Basis_eq_dec : EqDecision Basis.
Proof. solve_decision. Defined.
#[global] Instance Category_eq_dec : EqDecision Category.
Proof. solve_decision. Defined.

(** [Record<DayType, T>]: the key set is closed, so a three-field record. *)
Record DayRec (A : Type) := mkDayRec { atHigh : A; atMedium : A; atLow : A }.
Arguments mkDayRec {A} _ _ _.
Arguments atHigh {A} _.
Arguments atMedium {A} _.
Arguments atLow {A} _.

Definition getD {A} (r : DayRec A) (d : DayType) : A :=
  match d with High => atHigh r | Medium => atMedium r | Low => atLow r end.

Definition setD {A} (r : DayRec A) (d : DayType) (x : A) : DayRec A :=
  match d with
  | High => mkDayRec x (atMedium r) (atLow r)
  | Medium => mkDayRec (atHigh r) x (atLow r)
  | Low => mkDayRec (atHigh r) (atMedium r) x
  end.

Record FoodVariant := mkVariant {
  v_basis : Basis;
  v_kcal : option Q;            (* kcal?: number *)
  v_p : Q;
  v_c : Q;
  v_f : Q
}.

Record FoodItem := mkFood {
  id : string;
  name_en : string;
  name_zh : string;
  category : Category;
  emoji : string;
  variants : list FoodVariant
}.

Record PlannerProfile := mkProfile {
  sex : string;
  weightKg : Q;
  bodyType : BodyType;
  proteinPerKg : Q;
  ectoFatPerKg : Q;
  cycleDays : Z;
  nHigh : Z;
  nMed : Z;
  nLow : Z;
  carbShares : DayRec Q;
  fatShares : DayRec Q;
  dayPlacement : list DayType
}.

Record DayTarget := mkDayTarget {
  day : Z;
  dayType : DayType;
  proteinTarget : Q;
  carbTarget : Q;
  fatTarget : Q
}.

Record DayFoodEntry := mkEntry {
  foodId : string;
  basis : Basis;
  grams : Q
}.

Record DayTotals := mkTotals {
  t_kcal : Q;
  t_p : Q;
  t_c : Q;
  t_f : Q
}.

(** The target argument of the solver, [{ p: number; c: number; f: number }]. *)
Record MacroTarget := mkTarget { g_p : Q; g_c : Q; g_f : Q }.

(** ** JavaScript primitives used by the code *)

(** [a < b] and [a <= b] on numbers. *)
Definition Qltb (a b : Q) : bool := negb (Qle_bool b a).
Definition Qleb (a b : Q) : bool := Qle_bool a b.

(** [Math.round(x)]: the nearest integer, ties towards plus infinity. *)
Definition Math_round (x : Q) : Z := Qfloor (x + (1 # 2)).

(** [Array.prototype.slice(0, e)] for an integer [e]: a negative [e] counts
    from the end of the array. *)
Definition slice0 {A} (l : list A) (e : Z) : list A :=
  if (e <? 0)%Z
  then take (Z.to_nat (Z.max (Z.of_nat (length l) + e) 0)) l
  else take (Z.to_nat e) l.

(** ** src/utils/calc.ts *)

(** The exact view; the same functions on doubles are in [Binary64]. *)
Module Calc.

Definition DEFAULT_CARB_SHARES : DayRec Q := mkDayRec 0.5%Q 0.35%Q 0.15%Q.
Definition DEFAULT_FAT_SHARES : DayRec Q := mkDayRec 0.15%Q 0.35%Q 0.5%Q.

Definition round2 (n : Q) : Q := (inject_Z (Math_round (n * 100)) / 100)%Q.

(** The local [count] closure of [normalizePlacement] (and the [pCounts]
    literal of [validateProfile]): how often each day type occurs. *)
Definition count (arr : list DayType) : DayRec Z :=
  mkDayRec (Z.of_nat (length (filter (λ d, d = High) arr)))
           (Z.of_nat (length (filter (λ d, d = Medium) arr)))
           (Z.of_nat (length (filter (λ d, d = Low) arr))).

(** [out = [...dayPlacement].slice(0, cycleDays)] followed by
    [while (out.length < cycleDays) out.push('Low')]. *)
Definition fit_length (p : PlannerProfile) : list DayType :=
  let out := slice0 (dayPlacement p) (cycleDays p) in
  out ++ replicate (Z.to_nat (cycleDays p - Z.of_nat (length out))) Low.

Definition required (p : PlannerProfile) : DayRec Z :=
  mkDayRec (nHigh p) (nMed p) (nLow p).

Definition extras_of (current req : DayRec Z) : DayRec Z :=
  mkDayRec (Z.max 0 (atHigh current - atHigh req))
           (Z.max 0 (atMedium current - atMedium req))
           (Z.max 0 (atLow current - atLow req)).

Definition lacks_of (current req : DayRec Z) : DayRec Z :=
  mkDayRec (Z.max 0 (atHigh req - atHigh current))
           (Z.max 0 (atMedium req - atMedium current))
           (Z.max 0 (atLow req - atLow current)).

(** The mutable state of the repair loop. *)
Record Repair := mkRepair {
  r_out : list DayType;
  r_extras : DayRec Z;
  r_lacks : DayRec Z
}.

(** [(['High', 'Medium', 'Low']).find((k) => lacks[k] > 0)] *)
Definition find_target (lacks : DayRec Z) : option DayType :=
  List.find (λ k, (0 <? getD lacks k)%Z) [High; Medium; Low].

(** The body of the [for] loop at index [i]. *)
Definition repair_at (i : nat) (st : Repair) : Repair :=
  match r_out st !! i with
  | None => st
  | Some d =>
      if (getD (r_extras st) d <=? 0)%Z then st
      else match find_target (r_lacks st) with
           | None => st
           | Some target =>
               mkRepair (<[i := target]> (r_out st))
                        (setD (r_extras st) d (getD (r_extras st) d - 1)%Z)
                        (setD (r_lacks st) target (getD (r_lacks st) target - 1)%Z)
           end
  end.

(** [for (let i = n - 1; i >= 0; i -= 1)]: indices [n-1], ..., [0]. *)
Fixpoint repair_down (n : nat) (st : Repair) : Repair :=
  match n with
  | O => st
  | S i => repair_down i (repair_at i st)
  end.

Definition normalizePlacement (p : PlannerProfile) : list DayType :=
  let out := fit_length p in
  let current := count out in
  r_out (repair_down (length out)
           (mkRepair out (extras_of current (required p))
                         (lacks_of current (required p)))).

(** The same loop read as a traversal of the array from its last element to
    its first: iteration [i] reads and writes only [out[i]], so the element
    at the head is handled after the whole tail.  [repair_down_tail] below
    proves that this is what [repair_down] computes. *)
Definition repair_one (d : DayType) (ex la : DayRec Z)
    : DayType * DayRec Z * DayRec Z :=
  if (getD ex d <=? 0)%Z then (d, ex, la)
  else match find_target la with
       | None => (d, ex, la)
       | Some target =>
           (target, setD ex d (getD ex d - 1)%Z, setD la target (getD la target - 1)%Z)
       end.

Fixpoint repair_tail (l : list DayType) (ex la : DayRec Z)
    : list DayType * DayRec Z * DayRec Z :=
  match l with
  | [] => ([], ex, la)
  | d :: l' =>
      let '(out', ex', la') := repair_tail l' ex la in
      let '(d', ex'', la'') := repair_one d ex' la' in
      (d' :: out', ex'', la'')
  end.

(** [profile] with its [dayPlacement] replaced, as in
    [{ ...savedProfile, dayPlacement: ... }]. *)
Definition with_placement (p : PlannerProfile) (l : list DayType) : PlannerProfile :=
  mkProfile (sex p) (weightKg p) (bodyType p) (proteinPerKg p) (ectoFatPerKg p)
            (cycleDays p) (nHigh p) (nMed p) (nLow p) (carbShares p) (fatShares p) l.

Definition validateProfile (p : PlannerProfile) : list string :=
  let errors : list string := [] in
  let errors :=
    if bool_decide ((nHigh p + nMed p + nLow p)%Z ≠ cycleDays p)
    then errors ++ ["Day counts must sum to cycle days."%string] else errors in
  let carbShareSum :=
    (atHigh (carbShares p) + atMedium (carbShares p) + atLow (carbShares p))%Q in
  let fatShareSum :=
    (atHigh (fatShares p) + atMedium (fatShares p) + atLow (fatShares p))%Q in
  let errors :=
    if Qltb 1e-6%Q (Qabs (carbShareSum - 1))
    then errors ++ ["Carb shares must sum to 1.0."%string] else errors in
  let errors :=
    if Qltb 1e-6%Q (Qabs (fatShareSum - 1))
    then errors ++ ["Fat shares must sum to 1.0."%string] else errors in
  let pCounts := count (dayPlacement p) in
  let errors :=
    if bool_decide (atHigh pCounts ≠ nHigh p) || bool_decide (atMedium pCounts ≠ nMed p)
       || bool_decide (atLow pCounts ≠ nLow p)
    then errors ++ ["Day placement must keep fixed counts for High/Medium/Low."%string]
    else errors in
  errors.

Record Cycle := mkCycle {
  dayTargets : list DayTarget;
  pDay : Q;
  cTotal : Q;
  fTotal : Q
}.

Definition carbPerKg (p : PlannerProfile) : Q :=
  match bodyType p with endo => 2.0%Q | ecto => 3.0%Q end.
Definition fatPerKg (p : PlannerProfile) : Q :=
  match bodyType p with endo => 0.8%Q | ecto => ectoFatPerKg p end.

(** The unrounded locals [pDay], [cTotal], [fTotal] of [calculateCycle]. *)
Definition pDay_raw (p : PlannerProfile) : Q := (weightKg p * proteinPerKg p)%Q.
Definition cTotal_raw (p : PlannerProfile) : Q :=
  (weightKg p * carbPerKg p * inject_Z (cycleDays p))%Q.
Definition fTotal_raw (p : PlannerProfile) : Q :=
  (weightKg p * fatPerKg p * inject_Z (cycleDays p))%Q.

(** One field of [perTypeC] / [perTypeF]: [n > 0 ? (total * share) / n : 0]. *)
Definition per_type (total share : Q) (n : Z) : Q :=
  if (0 <? n)%Z then (total * share / inject_Z n)%Q else 0%Q.

Definition perTypeC (p : PlannerProfile) : DayRec Q :=
  mkDayRec (per_type (cTotal_raw p) (atHigh (carbShares p)) (nHigh p))
           (per_type (cTotal_raw p) (atMedium (carbShares p)) (nMed p))
           (per_type (cTotal_raw p) (atLow (carbShares p)) (nLow p)).

Definition perTypeF (p : PlannerProfile) : DayRec Q :=
  mkDayRec (per_type (fTotal_raw p) (atHigh (fatShares p)) (nHigh p))
           (per_type (fTotal_raw p) (atMedium (fatShares p)) (nMed p))
           (per_type (fTotal_raw p) (atLow (fatShares p)) (nLow p)).

Definition calculateCycle (p : PlannerProfile) : Cycle :=
  mkCycle
    (imap (λ idx dayType,
             mkDayTarget (Z.of_nat idx + 1) dayType
                         (round2 (pDay_raw p))
                         (round2 (getD (perTypeC p) dayType))
                         (round2 (getD (perTypeF p) dayType)))
          (dayPlacement p))
    (round2 (pDay_raw p)) (round2 (cTotal_raw p)) (round2 (fTotal_raw p)).

End Calc.

(** ** src/utils/solver.ts *)

Module Solver.
Import Calc.

Abbreviation FoodsMap := (gmap string FoodItem).

(** [food.variants.find((v) => v.basis === basis) ?? food.variants[0]];
    [None] is [undefined], the value of [variants[0]] on an empty array. *)
Definition getVariant (food : FoodItem) (b : Basis) : option FoodVariant :=
  match List.find (λ v, bool_decide (v_basis v = b)) (variants food) with
  | Some v => Some v
  | None => head (variants food)
  end.

(** The body of the [for ... of] loop of [computeTotals]; the four
    accumulators [kcal], [p], [c], [f] travel as a [DayTotals]. *)
Definition add_entry (foodsMap : FoodsMap) (acc : DayTotals) (e : DayFoodEntry)
    : option DayTotals :=
  match foodsMap !! foodId e with
  | None => Some acc
  | Some food =>
      match getVariant food (basis e) with
      | None => None
      | Some v =>
          let ratio := (Qmax 0 (grams e) / 100)%Q in
          Some (mkTotals (t_kcal acc + default 0%Q (v_kcal v) * ratio)%Q
                         (t_p acc + v_p v * ratio)%Q
                         (t_c acc + v_c v * ratio)%Q
                         (t_f acc + v_f v * ratio)%Q)
      end
  end.

Fixpoint sum_entries (foodsMap : FoodsMap) (entries : list DayFoodEntry)
    (acc : DayTotals) : option DayTotals :=
  match entries with
  | [] => Some acc
  | e :: rest => acc' ← add_entry foodsMap acc e; sum_entries foodsMap rest acc'
  end.

Definition round_totals (acc : DayTotals) : DayTotals :=
  mkTotals (round2 (t_kcal acc)) (round2 (t_p acc)) (round2 (t_c acc)) (round2 (t_f acc)).

Definition computeTotals (entries : list DayFoodEntry) (foodsMap : FoodsMap)
    : option DayTotals :=
  acc ← sum_entries foodsMap entries (mkTotals 0 0 0 0);
  Some (round_totals acc).

Definition score (target : MacroTarget) (totals : DayTotals) : Q :=
  (Qabs (g_p target - t_p totals) + Qabs (g_c target - t_c totals)
   + Qabs (g_f target - t_f totals))%Q.

(** [{ ...e, grams: g }] *)
Definition with_grams (e : DayFoodEntry) (g : Q) : DayFoodEntry :=
  mkEntry (foodId e) (basis e) g.

(** [e.grams || 0]: zero is the only falsy rational. *)
Definition or_zero (g : Q) : Q := if Qeq_bool g 0 then 0%Q else g.

(** The first [map] of [greedyGenerate]. *)
Definition clamp_entry (e : DayFoodEntry) : DayFoodEntry :=
  with_grams e (Qmax 0 (or_zero (grams e))).

(** [entries.filter((e) => foodsMap.get(e.foodId)?.category === cat)].  The
    filtered array holds the very objects of [entries], which [assign] then
    mutates; a group is therefore the list of their positions in [entries]. *)
Definition has_category (foodsMap : FoodsMap) (cat : Category)
    (e : DayFoodEntry) : bool :=
  bool_decide (category <$> foodsMap !! foodId e = Some cat).

Definition group_of (foodsMap : FoodsMap) (cat : Category)
    (entries : list DayFoodEntry) : list nat :=
  List.filter (λ i, from_option (has_category foodsMap cat) false (entries !! i))
              (seq 0 (length entries)).

Inductive Macro := macro_p | macro_c | macro_f.

(** [v[macro]] *)
Definition density (v : FoodVariant) (macro : Macro) : Q :=
  match macro with macro_p => v_p v | macro_c => v_c v | macro_f => v_f v end.

(** The [.map] of [assign]: each member with its density; [None] when the
    variant is [undefined]. *)
Definition with_density (foodsMap : FoodsMap) (macro : Macro)
    (entries : list DayFoodEntry) (i : nat) : option (nat * Q) :=
  e ← entries !! i;
  food ← foodsMap !! foodId e;
  v ← getVariant food (basis e);
  Some (i, density v macro).

(** [.sort((a, b) => b.density - a.density)]: descending, stable. *)
Fixpoint insert_desc (x : nat * Q) (l : list (nat * Q)) : list (nat * Q) :=
  match l with
  | [] => [x]
  | y :: l' => if Qleb (snd y) (snd x) then x :: l else y :: insert_desc x l'
  end.

Definition sort_desc (l : list (nat * Q)) : list (nat * Q) :=
  foldr insert_desc [] l.

(** The [for (const item of sorted)] loop of [assign].  In exact
    arithmetic the first item supplies all that is needed and the loop
    stops there; with doubles a remainder of the rounding can reach the
    items after it. *)
Fixpoint fill (sorted : list (nat * Q)) (remaining : Q)
    (entries : list DayFoodEntry) : list DayFoodEntry :=
  match sorted with
  | [] => entries
  | item :: rest =>
      if Qleb remaining 0 then entries
      else
        let g := Qmax 0 (remaining / snd item * 100)%Q in
        fill rest (remaining - snd item * (g / 100))%Q
             (alter (λ e, with_grams e (grams e + g)%Q) (fst item) entries)
  end.

Definition assign (foodsMap : FoodsMap) (group : list nat) (macro : Macro)
    (needed : Q) (entries : list DayFoodEntry) : option (list DayFoodEntry) :=
  if bool_decide (length group = 0%nat) || Qleb needed 0 then Some entries
  else
    ranked ← mapM (with_density foodsMap macro entries) group;
    let sorted := sort_desc (List.filter (λ x, Qltb 0 (snd x)) ranked) in
    Some (fill sorted needed entries).

Definition step : Q := 5%Q.

(** [bestScore], [bestIdx], [bestDelta] *)
Record Best := mkBest { bestScore : Q; bestIdx : Z; bestDelta : Q }.

(** One trial of the inner loops: [entries[idx].grams += delta], score,
    restore.  The restore makes the trial leave [entries] as it was. *)
Definition try_delta (foodsMap : FoodsMap) (target : MacroTarget)
    (entries : list DayFoodEntry) (idx : nat) (best : Best) (delta : Q)
    : option Best :=
  match entries !! idx with
  | None => Some best
  | Some e =>
      if Qltb (grams e + delta) 0 then Some best
      else
        totals ← computeTotals (<[idx := with_grams e (grams e + delta)%Q]> entries) foodsMap;
        let s := score target totals in
        if Qltb s (bestScore best - 1e-9)
        then Some (mkBest s (Z.of_nat idx) delta)
        else Some best
  end.

(** [for (const delta of [step, -step])] *)
Definition try_index (foodsMap : FoodsMap) (target : MacroTarget)
    (entries : list DayFoodEntry) (idx : nat) (best : Best) : option Best :=
  best ← try_delta foodsMap target entries idx best step;
  try_delta foodsMap target entries idx best (- step)%Q.

(** [for (let idx = 0; idx < entries.length; idx += 1)] over the indices
    still to visit. *)
Fixpoint scan_moves (foodsMap : FoodsMap) (target : MacroTarget)
    (entries : list DayFoodEntry) (idxs : list nat) (best : Best) : option Best :=
  match idxs with
  | [] => Some best
  | idx :: rest =>
      best ← try_index foodsMap target entries idx best;
      scan_moves foodsMap target entries rest best
  end.

(** How one iteration of the outer loop ends. *)
Inductive Iteration :=
  | Break
  | Moved (entries : list DayFoodEntry).

Definition iterate (foodsMap : FoodsMap) (target : MacroTarget)
    (entries : list DayFoodEntry) : option Iteration :=
  baseTotals ← computeTotals entries foodsMap;
  let baseScore := score target baseTotals in
  if Qltb baseScore 1 then Some Break
  else
    best ← scan_moves foodsMap target entries (seq 0 (length entries))
                      (mkBest baseScore (-1) 0);
    if (bestIdx best <? 0)%Z then Some Break
    else
      let i := Z.to_nat (bestIdx best) in
      match entries !! i with
      | None => Some Break
      | Some e =>
          Some (Moved (<[i := with_grams e (Qmax 0 (grams e + bestDelta best))%Q]> entries))
      end.

(** [for (let i = 0; i < 1500; i += 1)], with the iterations left. *)
Fixpoint search (foodsMap : FoodsMap) (target : MacroTarget) (left : nat)
    (entries : list DayFoodEntry) : option (list DayFoodEntry) :=
  match left with
  | O => Some entries
  | S n =>
      r ← iterate foodsMap target entries;
      match r with
      | Break => Some entries
      | Moved entries' => search foodsMap target n entries'
      end
  end.

(** The three seeding calls of [assign]. *)
Definition seed (foodsMap : FoodsMap) (target : MacroTarget)
    (entries : list DayFoodEntry) : option (list DayFoodEntry) :=
  let proteins := group_of foodsMap protein entries in
  let carbs := group_of foodsMap carb entries in
  let fats := group_of foodsMap fat entries in
  entries ← assign foodsMap proteins macro_p (g_p target * 0.7)%Q entries;
  entries ← assign foodsMap carbs macro_c (g_c target * 0.7)%Q entries;
  assign foodsMap fats macro_f (g_f target * 0.7)%Q entries.

Definition greedyGenerate (selected : list DayFoodEntry) (foodsMap : FoodsMap)
    (target : MacroTarget) : option (list DayFoodEntry) :=
  let entries := map clamp_entry selected in
  entries ← seed foodsMap target entries;
  entries ← search foodsMap target 1500 entries;
  Some (map (λ e, with_grams e (round2 (grams e))) entries).

End Solver.

(** ** src/App.tsx: the state updates and derived values *)

Module App.
Import Calc Solver.

(** [Record<number, DayFoodEntry[]>] *)
Abbreviation DayPlans := (gmap Z (list DayFoodEntry)).

Definition clamp (n min max : Z) : Z := Z.min max (Z.max min n).

(** The three [for] loops that push High, Medium and Low days. *)
Definition build_placement (nHigh nMed nLow : Z) : list DayType :=
  replicate (Z.to_nat nHigh) High ++ replicate (Z.to_nat nMed) Medium
  ++ replicate (Z.to_nat nLow) Low.

(** The updater that [setCycleDays] passes to [setProfile]. *)
Definition setCycleDays (nextDays : Z) (p : PlannerProfile) : PlannerProfile :=
  let cycleDays := clamp nextDays 1 30 in
  let nHigh := Z.min (nHigh p) cycleDays in
  let nMed := Z.min (nMed p) (cycleDays - nHigh) in
  let nLow := (cycleDays - nHigh - nMed)%Z in
  let nLow := if (nLow <? 0)%Z then 0%Z else nLow in
  mkProfile (sex p) (weightKg p) (bodyType p) (proteinPerKg p) (ectoFatPerKg p)
            cycleDays nHigh nMed nLow (carbShares p) (fatShares p)
            (build_placement nHigh nMed nLow).

(** [setCounts]; the [profile] of the closure is the state it updates. *)
Definition setCounts (nHigh nMed nLow : Z) (p : PlannerProfile) : PlannerProfile :=
  if bool_decide ((nHigh + nMed + nLow)%Z ≠ cycleDays p)
  then mkProfile (sex p) (weightKg p) (bodyType p) (proteinPerKg p) (ectoFatPerKg p)
                 (cycleDays p) nHigh nMed nLow (carbShares p) (fatShares p)
                 (dayPlacement p)
  else mkProfile (sex p) (weightKg p) (bodyType p) (proteinPerKg p) (ectoFatPerKg p)
                 (cycleDays p) nHigh nMed nLow (carbShares p) (fatShares p)
                 (build_placement nHigh nMed nLow).

(** [next[dayIndex] = dayType] on a copy of the placement.  An index past
    the end would leave holes in the array, which is no [DayType[]] any
    more: [None]. *)
Definition setPlacement (dayIndex : nat) (dayType : DayType) (p : PlannerProfile)
    : option PlannerProfile :=
  if decide (dayIndex < length (dayPlacement p))%nat
  then Some (with_placement p (<[dayIndex := dayType]> (dayPlacement p)))
  else if decide (dayIndex = length (dayPlacement p))
       then Some (with_placement p (dayPlacement p ++ [dayType]))
       else None.

(** [new Map(allFoods.map((f) => [f.id, f]))]: the entries are set in
    order, a later one replaces an earlier one with the same key. *)
Definition foodsMap_of (allFoods : list FoodItem) : gmap string FoodItem :=
  foldl (λ m f, <[id f := f]> m) ∅ allFoods.

(** [dayPlans[selectedDay] ?? []] *)
Definition entries_of (plans : DayPlans) (selectedDay : Z) : list DayFoodEntry :=
  default [] (plans !! selectedDay).

(** [entries.findIndex((e) => e.foodId === foodId)]; [None] is [-1]. *)
Definition findIndex (foodId0 : string) (entries : list DayFoodEntry) : option nat :=
  fst <$> list_find (λ e, foodId e = foodId0) entries.

(** [food?.variants[0]?.basis ?? 'raw'] *)
Definition first_basis (foodsMap : gmap string FoodItem) (foodId0 : string) : Basis :=
  match foodsMap !! foodId0 with
  | Some food => match variants food !! 0%nat with Some v => v_basis v | None => raw end
  | None => raw
  end.

(** The updater of [toggleFood]. *)
Definition toggleFood (foodsMap : gmap string FoodItem) (selectedDay : Z)
    (foodId0 : string) (plans : DayPlans) : DayPlans :=
  let entries := entries_of plans selectedDay in
  let entries :=
    match findIndex foodId0 entries with
    | Some idx => delete idx entries
    | None => entries ++ [mkEntry foodId0 (first_basis foodsMap foodId0) 0]
    end in
  <[selectedDay := entries]> plans.

(** [Partial<DayFoodEntry>]: the fields that are present. *)
Record EntryPatch := mkPatch {
  patch_foodId : option string;
  patch_basis : option Basis;
  patch_grams : option Q
}.

(** [{ ...e, ...patch }] *)
Definition apply_patch (e : DayFoodEntry) (patch : EntryPatch) : DayFoodEntry :=
  mkEntry (default (foodId e) (patch_foodId patch))
          (default (basis e) (patch_basis patch))
          (default (grams e) (patch_grams patch)).

(** The updater of [patchEntry]. *)
Definition patchEntry (selectedDay : Z) (foodId0 : string) (patch : EntryPatch)
    (plans : DayPlans) : DayPlans :=
  let entries := entries_of plans selectedDay in
  match findIndex foodId0 entries with
  | None => plans
  | Some idx =>
      match entries !! idx with
      | None => plans
      | Some e => <[selectedDay := <[idx := apply_patch e patch]> entries]> plans
      end
  end.

(** [cycle.dayTargets[selectedDay - 1]] *)
Definition currentDayTarget (profile : PlannerProfile) (selectedDay : Z)
    : option DayTarget :=
  if (selectedDay - 1 <? 0)%Z then None
  else dayTargets (calculateCycle profile) !! Z.to_nat (selectedDay - 1).

(** [handleAutoGenerate]: the plans after the click; [None] when the
    solver throws. *)
Definition handleAutoGenerate (foodsMap : gmap string FoodItem)
    (profile : PlannerProfile) (selectedDay : Z) (plans : DayPlans)
    : option DayPlans :=
  match currentDayTarget profile selectedDay with
  | None => Some plans
  | Some target =>
      generated ← greedyGenerate (entries_of plans selectedDay) foodsMap
                    (mkTarget (proteinTarget target) (carbTarget target)
                              (fatTarget target));
      Some (<[selectedDay := generated]> plans)
  end.

(** [Number(x.toFixed(2))] on the exact value of [x]: [toFixed] rounds
    the magnitude to the nearest hundredth, the larger one on a tie, and
    prints numbers from 1e21 on as they are. *)
Definition toFixed2 (x : Q) : Q :=
  if Qle_bool 1e21 (Qabs x) then x
  else if Qltb x 0
       then (- (inject_Z (Qfloor (- x * 100 + (1 # 2))) / 100))%Q
       else (inject_Z (Qfloor (x * 100 + (1 # 2))) / 100)%Q.

(** One element of [deviationsByDay]. *)
Record Deviation := mkDeviation {
  dev_day : Z;
  dev_dayType : DayType;
  dev_target : DayTarget;
  dev_totals : DayTotals;
  dp : Q;
  dc : Q;
  df : Q
}.

Definition deviation_of (foodsMap : gmap string FoodItem) (plans : DayPlans)
    (target : DayTarget) : option Deviation :=
  totals ← computeTotals (entries_of plans (day target)) foodsMap;
  Some (mkDeviation (day target) (dayType target) target totals
          (toFixed2 (t_p totals - proteinTarget target))
          (toFixed2 (t_c totals - carbTarget target))
          (toFixed2 (t_f totals - fatTarget target))).

Definition deviationsByDay (foodsMap : gmap string FoodItem)
    (profile : PlannerProfile) (plans : DayPlans) : option (list Deviation) :=
  mapM (deviation_of foodsMap plans) (dayTargets (calculateCycle profile)).

End App.

(** ** src/utils/export.ts: the rows of the workbook *)

Module ExportXlsx.
Import Calc Solver App.

(** A row of the [DailyPlan] sheet. *)
Record PlanRow := mkPlanRow {
  row_day : Z;
  food_id : string;
  food_name : string;
  row_basis : Basis;
  row_grams : Q;
  protein_g : Q;
  carb_g : Q;
  fat_g : Q;
  row_kcal : Q
}.

(** A row of the [Deviations] sheet. *)
Record DevRow := mkDevRow {
  dev_row_day : Z;
  day_type : DayType;
  protein_target_g : Q;
  protein_actual_g : Q;
  protein_diff_g : Q;
  carb_target_g : Q;
  carb_actual_g : Q;
  carb_diff_g : Q;
  fat_target_g : Q;
  fat_actual_g : Q;
  fat_diff_g : Q;
  kcal_actual : Q
}.

(** [food?.variants.find((v) => v.basis === e.basis) ?? food?.variants[0]] *)
Definition row_variant (foodsMap : gmap string FoodItem) (e : DayFoodEntry)
    : option FoodVariant :=
  food ← foodsMap !! foodId e; getVariant food (basis e).

(** The body of [entries.forEach] in [exportXlsx]. *)
Definition plan_row (foodsMap : gmap string FoodItem) (target : DayTarget)
    (e : DayFoodEntry) : PlanRow :=
  let food := foodsMap !! foodId e in
  let variant := row_variant foodsMap e in
  let ratio := (grams e / 100)%Q in
  mkPlanRow (day target) (foodId e)
            (from_option name_en (foodId e) food)
            (basis e) (grams e)
            (toFixed2 (from_option v_p 0%Q variant * ratio))
            (toFixed2 (from_option v_c 0%Q variant * ratio))
            (toFixed2 (from_option v_f 0%Q variant * ratio))
            (toFixed2 (default 0%Q (variant ≫= v_kcal) * ratio)).

Definition dev_row (target : DayTarget) (totals : DayTotals) : DevRow :=
  mkDevRow (day target) (dayType target)
           (proteinTarget target) (t_p totals)
           (toFixed2 (t_p totals - proteinTarget target))
           (carbTarget target) (t_c totals)
           (toFixed2 (t_c totals - carbTarget target))
           (fatTarget target) (t_f totals)
           (toFixed2 (t_f totals - fatTarget target))
           (t_kcal totals).

(** One round of [dayTargets.forEach]: the rows it appends to [planRows]
    and the row it appends to [devRows]. *)
Definition day_rows (foodsMap : gmap string FoodItem) (dayPlans : DayPlans)
    (target : DayTarget) : option (list PlanRow * DevRow) :=
  let entries := entries_of dayPlans (day target) in
  totals ← computeTotals entries foodsMap;
  Some (plan_row foodsMap target <$> entries, dev_row target totals).

(** [targetRows] copies the targets; [planRows] and [devRows] as
    [exportXlsx] has them before it builds the workbook; [None] when the
    aggregator throws. *)
Definition export_rows (dayTargets : list DayTarget) (dayPlans : DayPlans)
    (foodsMap : gmap string FoodItem)
    : option (list DayTarget * list PlanRow * list DevRow) :=
  rows ← mapM (day_rows foodsMap dayPlans) dayTargets;
  Some (dayTargets, concat (fst <$> rows), snd <$> rows).

End ExportXlsx.

(** ** Specification-level notions *)

Section SpecNotions.
Import Calc.

(** The checks of the counts and of the placement, as the specification
    words them. *)
Definition counts_sum_ok (p : PlannerProfile) : Prop :=
  (nHigh p + nMed p + nLow p)%Z = cycleDays p.
Definition placement_ok (p : PlannerProfile) : Prop :=
  count (dayPlacement p) = required p.

(** The descriptor a check contributes: one message when it fails. *)
Definition report (failed : bool) (msg : string) : list string :=
  if failed then [msg] else [].

(** The number of days of category [d] in a placement: [count(arr)[d]]. *)
Definition cnt (d : DayType) (l : list DayType) : Z := getD (count l) d.

(** The placement the repair loop starts from, and the state it starts in. *)
Definition excess (p : PlannerProfile) : DayRec Z :=
  extras_of (count (fit_length p)) (required p).
Definition deficit (p : PlannerProfile) : DayRec Z :=
  lacks_of (count (fit_length p)) (required p).

(** The number of days on which two placements differ. *)
Fixpoint differing (l l' : list DayType) : nat :=
  match l, l' with
  | a :: l, b :: l' => ((if decide (a = b) then 0 else 1) + differing l l')%nat
  | _, _ => 0%nat
  end.

(** The sum of a per-category record. *)
Definition total (r : DayRec Z) : Z := (atHigh r + atMedium r + atLow r)%Z.

(** No category has both an excess and a deficit. *)
Definition disjoint (ex la : DayRec Z) : Prop :=
  ∀ d, (getD ex d <= 0)%Z ∨ (getD la d <= 0)%Z.

End SpecNotions.

Section SolverNotions.
Import Calc Solver.

(** The data model's "one or more variants", for the whole catalog and for
    the foods that a list of entries refers to. *)
Definition catalog_wf (m : FoodsMap) : Prop :=
  ∀ k food, m !! k = Some food → variants food ≠ [].

Definition resolvable (m : FoodsMap) (es : list DayFoodEntry) : Prop :=
  ∀ e food, e ∈ es → m !! foodId e = Some food → variants food ≠ [].

(** The identity of an entry, and of a list of entries in order. *)
Definition key (e : DayFoodEntry) : string * Basis := (foodId e, basis e).
Definition keys (es : list DayFoodEntry) : list (string * Basis) := key <$> es.

(** Entries and totals that agree up to the representation of rationals. *)
Definition entry_equiv (e1 e2 : DayFoodEntry) : Prop :=
  foodId e1 = foodId e2 ∧ basis e1 = basis e2 ∧ (grams e1 == grams e2)%Q.

Definition totals_equiv (t1 t2 : DayTotals) : Prop :=
  (t_kcal t1 == t_kcal t2)%Q ∧ (t_p t1 == t_p t2)%Q
  ∧ (t_c t1 == t_c t2)%Q ∧ (t_f t1 == t_f t2)%Q.

(** The aggregate as the specification words it.  An entry whose food is
    not in the catalog contributes zero; otherwise its variant is the one
    whose basis matches, or else the food's first variant, and it
    contributes [density * max(0, quantity) / 100]. *)
Definition spec_variant (food : FoodItem) (b : Basis) : option FoodVariant :=
  match filter (λ v, v_basis v = b) (variants food) with
  | v :: _ => Some v
  | [] => variants food !! 0%nat
  end.

Definition spec_contribution (dens : FoodVariant → Q) (m : FoodsMap)
    (e : DayFoodEntry) : Q :=
  match m !! foodId e with
  | None => 0%Q
  | Some food =>
      match spec_variant food (basis e) with
      | Some v => (dens v * (Qmax 0 (grams e) / 100))%Q
      | None => 0%Q
      end
  end.

Definition spec_sum (dens : FoodVariant → Q) (m : FoodsMap)
    (es : list DayFoodEntry) : Q :=
  foldr (λ e acc, (spec_contribution dens m e + acc)%Q) 0%Q es.

Definition kcal_density (v : FoodVariant) : Q := default 0%Q (v_kcal v).

(** The input of the solver after its first and before its last [map]. *)
Definition clamped (selected : list DayFoodEntry) : list DayFoodEntry :=
  clamp_entry <$> selected.
Definition rounded (es : list DayFoodEntry) : list DayFoodEntry :=
  (λ e, with_grams e (round2 (grams e))) <$> es.

(** All quantities are non-negative. *)
Definition nonneg (es : list DayFoodEntry) : Prop :=
  Forall (λ e, (0 <= grams e)%Q) es.

(** A group refers to entries that exist and whose food is in the catalog. *)
Definition group_ok (m : FoodsMap) (es : list DayFoodEntry) (group : list nat) : Prop :=
  ∀ i, i ∈ group → ∃ e food, es !! i = Some e ∧ m !! foodId e = Some food.


(** One applied move of the local search. *)
Definition moves (m : FoodsMap) (target : MacroTarget)
    (es es' : list DayFoodEntry) : Prop :=
  iterate m target es = Some (Moved es').

(** The deviation of a list of entries from the target. *)
Definition deviation (m : FoodsMap) (target : MacroTarget)
    (es : list DayFoodEntry) : option Q :=
  score target <$> computeTotals es m.

(** What the inner loops know about the best move so far. *)
Definition best_ok (m : FoodsMap) (target : MacroTarget)
    (es : list DayFoodEntry) (base : Q) (b : Best) : Prop :=
  (bestIdx b = (-1)%Z ∧ bestScore b = base)
  ∨ ∃ idx e t,
      bestIdx b = Z.of_nat idx ∧ es !! idx = Some e
      ∧ (bestDelta b = step ∨ bestDelta b = (- step)%Q)
      ∧ (0 <= grams e + bestDelta b)%Q
      ∧ computeTotals (<[idx := with_grams e (grams e + bestDelta b)%Q]> es) m = Some t
      ∧ bestScore b = score target t
      ∧ (bestScore b < base - 1e-9)%Q.

End SolverNotions.

Section MoreNotions.
Import Calc Solver App.

(** The conditions under which [validateProfile] pushes its messages. *)
Definition counts_bad (p : PlannerProfile) : bool :=
  bool_decide ((nHigh p + nMed p + nLow p)%Z ≠ cycleDays p).
Definition carb_shares_bad (p : PlannerProfile) : bool :=
  Qltb 1e-6 (Qabs (atHigh (carbShares p) + atMedium (carbShares p)
                   + atLow (carbShares p) - 1)).
Definition fat_shares_bad (p : PlannerProfile) : bool :=
  Qltb 1e-6 (Qabs (atHigh (fatShares p) + atMedium (fatShares p)
                   + atLow (fatShares p) - 1)).
Definition placement_bad (p : PlannerProfile) : bool :=
  bool_decide (atHigh (count (dayPlacement p)) ≠ nHigh p)
  || bool_decide (atMedium (count (dayPlacement p)) ≠ nMed p)
  || bool_decide (atLow (count (dayPlacement p)) ≠ nLow p).

(** The messages about the shares, which no repair of the counts or of the
    placement removes. *)
Definition share_errors (p : PlannerProfile) : list string :=
  report (carb_shares_bad p) "Carb shares must sum to 1.0."
  ++ report (fat_shares_bad p) "Fat shares must sum to 1.0.".

(** The sum of a list of quantities. *)
Definition sumQ (l : list Q) : Q := foldr Qplus 0%Q l.

(** The part of the shares that belongs to categories with at least one
    day. *)
Definition live_share (shares : DayRec Q) (req : DayRec Z) : Q :=
  ((if (0 <? atHigh req)%Z then atHigh shares else 0)
   + (if (0 <? atMedium req)%Z then atMedium shares else 0)
   + (if (0 <? atLow req)%Z then atLow shares else 0))%Q.

(** All numbers a profile feeds into the allocation are non-negative. *)
Definition profile_nonneg (p : PlannerProfile) : Prop :=
  (0 <= weightKg p)%Q ∧ (0 <= proteinPerKg p)%Q ∧ (0 <= ectoFatPerKg p)%Q
  ∧ (0 <= cycleDays p)%Z
  ∧ (∀ d, (0 <= getD (carbShares p) d)%Q ∧ (0 <= getD (fatShares p) d)%Q).

(** No single move of [step] that keeps the quantity non-negative brings
    the deviation more than 1e-9 below [base]. *)
Definition no_better_move (m : FoodsMap) (target : MacroTarget)
    (es : list DayFoodEntry) (base : Q) : Prop :=
  ∀ idx e delta t,
    es !! idx = Some e → delta = step ∨ delta = (- step)%Q →
    (0 <= grams e + delta)%Q →
    computeTotals (<[idx := with_grams e (grams e + delta)%Q]> es) m = Some t →
    (base - 1e-9 <= score target t)%Q.

(** The same, for the entries at the positions [idxs] only. *)
Definition no_better_at (m : FoodsMap) (target : MacroTarget)
    (es : list DayFoodEntry) (base : Q) (idxs : list nat) : Prop :=
  ∀ idx e delta t,
    idx ∈ idxs → es !! idx = Some e → delta = step ∨ delta = (- step)%Q →
    (0 <= grams e + delta)%Q →
    computeTotals (<[idx := with_grams e (grams e + delta)%Q]> es) m = Some t →
    (base - 1e-9 <= score target t)%Q.

(** Entries that count the same: negative quantities count as zero. *)
Definition same_weight (e1 e2 : DayFoodEntry) : Prop :=
  foodId e1 = foodId e2 ∧ basis e1 = basis e2
  ∧ (Qmax 0 (grams e1) == Qmax 0 (grams e2))%Q.

(** [exportAllXlsx] of [App.tsx]: the rows for the current cycle. *)
Definition exportAllXlsx (profile : PlannerProfile) (dayPlans : DayPlans)
    (foodsMap : FoodsMap) :=
  ExportXlsx.export_rows (dayTargets (calculateCycle profile)) dayPlans foodsMap.

End MoreNotions.

(** * The binary64 view

    The same functions on IEEE 754 doubles.  [+], [-], [*], [/], [<] and
    [Math.abs] are the primitive operations of [float]; [Math.round] and
    [Math.max] are defined from the bits of their argument. *)

Module Binary64.

(** ** JavaScript numbers *)

(** [Number.isNaN(x)], that is [x !== x]. *)
Definition is_nan (x : float) : bool := negb (x =? x)%float.

(** The double that holds an integer count (below 2^63 in magnitude);
    exact below 2^53. *)
Definition of_Z (z : Z) : float :=
  if (z <? 0)%Z then (- of_uint63 (Uint63.of_Z (- z)))%float
  else of_uint63 (Uint63.of_Z z).

(** [Math.round(x)]: the integer nearest to [x], the larger one on a tie,
    computed without rounding error; zeros, infinities, [NaN] and integers
    are returned as they are, and a zero result keeps the sign of [x]. *)
Definition Math_round (x : float) : float :=
  match Prim2SF x with
  | S754_finite s m e =>
      if (0 <=? e)%Z then x
      else
        let mantissa := if s then Z.neg m else Z.pos m in
        let k := ((mantissa + 2 ^ (- e - 1)) / 2 ^ (- e))%Z in
        if s then (- of_uint63 (Uint63.of_Z (- k)))%float
        else of_uint63 (Uint63.of_Z k)
  | _ => x
  end.

(** [Math.max(0, x)] *)
Definition Math_max0 (x : float) : float :=
  if is_nan x then nan else if (0 <? x)%float then x else 0%float.

(** ** src/types.ts *)

Record FoodVariant := mkVariant {
  v_basis : Basis;
  v_kcal : option float;            (* kcal?: number *)
  v_p : float;
  v_c : float;
  v_f : float
}.

Record FoodItem := mkFood {
  id : string;
  name_en : string;
  name_zh : string;
  category : Category;
  emoji : string;
  variants : list FoodVariant
}.

Record PlannerProfile := mkProfile {
  sex : string;
  weightKg : float;
  bodyType : BodyType;
  proteinPerKg : float;
  ectoFatPerKg : float;
  cycleDays : Z;
  nHigh : Z;
  nMed : Z;
  nLow : Z;
  carbShares : DayRec float;
  fatShares : DayRec float;
  dayPlacement : list DayType
}.

Record DayTarget := mkDayTarget {
  day : Z;
  dayType : DayType;
  proteinTarget : float;
  carbTarget : float;
  fatTarget : float
}.

Record DayFoodEntry := mkEntry {
  foodId : string;
  basis : Basis;
  grams : float
}.

Record DayTotals := mkTotals {
  t_kcal : float;
  t_p : float;
  t_c : float;
  t_f : float
}.

(** ** src/utils/calc.ts *)

Definition round2 (n : float) : float := (Math_round (n * 100) / 100)%float.

Definition validateProfile (p : PlannerProfile) : list string :=
  let errors : list string := [] in
  let errors :=
    if bool_decide ((nHigh p + nMed p + nLow p)%Z ≠ cycleDays p)
    then errors ++ ["Day counts must sum to cycle days."%string] else errors in
  let carbShareSum :=
    (atHigh (carbShares p) + atMedium (carbShares p) + atLow (carbShares p))%float in
  let fatShareSum :=
    (atHigh (fatShares p) + atMedium (fatShares p) + atLow (fatShares p))%float in
  let errors :=
    if (1e-6 <? abs (carbShareSum - 1))%float
    then errors ++ ["Carb shares must sum to 1.0."%string] else errors in
  let errors :=
    if (1e-6 <? abs (fatShareSum - 1))%float
    then errors ++ ["Fat shares must sum to 1.0."%string] else errors in
  let pCounts := Calc.count (dayPlacement p) in
  let errors :=
    if bool_decide (atHigh pCounts ≠ nHigh p) || bool_decide (atMedium pCounts ≠ nMed p)
       || bool_decide (atLow pCounts ≠ nLow p)
    then errors ++ ["Day placement must keep fixed counts for High/Medium/Low."%string]
    else errors in
  errors.

Record Cycle := mkCycle {
  dayTargets : list DayTarget;
  pDay : float;
  cTotal : float;
  fTotal : float
}.

Definition carbPerKg (p : PlannerProfile) : float :=
  match bodyType p with endo => 2.0%float | ecto => 3.0%float end.
Definition fatPerKg (p : PlannerProfile) : float :=
  match bodyType p with endo => 0.8%float | ecto => ectoFatPerKg p end.

(** The unrounded locals [pDay], [cTotal], [fTotal] of [calculateCycle]. *)
Definition pDay_raw (p : PlannerProfile) : float := (weightKg p * proteinPerKg p)%float.
Definition cTotal_raw (p : PlannerProfile) : float :=
  (weightKg p * carbPerKg p * of_Z (cycleDays p))%float.
Definition fTotal_raw (p : PlannerProfile) : float :=
  (weightKg p * fatPerKg p * of_Z (cycleDays p))%float.

(** One field of [perTypeC] / [perTypeF]: [n > 0 ? (total * share) / n : 0]. *)
Definition per_type (total share : float) (n : Z) : float :=
  if (0 <? n)%Z then (total * share / of_Z n)%float else 0%float.

Definition perTypeC (p : PlannerProfile) : DayRec float :=
  mkDayRec (per_type (cTotal_raw p) (atHigh (carbShares p)) (nHigh p))
           (per_type (cTotal_raw p) (atMedium (carbShares p)) (nMed p))
           (per_type (cTotal_raw p) (atLow (carbShares p)) (nLow p)).

Definition perTypeF (p : PlannerProfile) : DayRec float :=
  mkDayRec (per_type (fTotal_raw p) (atHigh (fatShares p)) (nHigh p))
           (per_type (fTotal_raw p) (atMedium (fatShares p)) (nMed p))
           (per_type (fTotal_raw p) (atLow (fatShares p)) (nLow p)).

Definition calculateCycle (p : PlannerProfile) : Cycle :=
  mkCycle
    (imap (λ idx dayType,
             mkDayTarget (Z.of_nat idx + 1) dayType
                         (round2 (pDay_raw p))
                         (round2 (getD (perTypeC p) dayType))
                         (round2 (getD (perTypeF p) dayType)))
          (dayPlacement p))
    (round2 (pDay_raw p)) (round2 (cTotal_raw p)) (round2 (fTotal_raw p)).

(** ** src/utils/solver.ts *)

Abbreviation FoodsMap := (gmap string FoodItem).

(** [food.variants.find((v) => v.basis === basis) ?? food.variants[0]];
    [None] is [undefined], the value of [variants[0]] on an empty array. *)
Definition getVariant (food : FoodItem) (b : Basis) : option FoodVariant :=
  match List.find (λ v, bool_decide (v_basis v = b)) (variants food) with
  | Some v => Some v
  | None => head (variants food)
  end.

(** The body of the [for] loop of [computeTotals]; [None] is the
    [TypeError] of reading [v.kcal] from [undefined]. *)
Definition add_entry (foodsMap : FoodsMap) (acc : DayTotals) (e : DayFoodEntry)
    : option DayTotals :=
  match foodsMap !! foodId e with
  | None => Some acc
  | Some food =>
      match getVariant food (basis e) with
      | None => None
      | Some v =>
          let ratio := (Math_max0 (grams e) / 100)%float in
          Some (mkTotals (t_kcal acc + default 0%float (v_kcal v) * ratio)%float
                         (t_p acc + v_p v * ratio)%float
                         (t_c acc + v_c v * ratio)%float
                         (t_f acc + v_f v * ratio)%float)
      end
  end.

Fixpoint sum_entries (foodsMap : FoodsMap) (entries : list DayFoodEntry)
    (acc : DayTotals) : option DayTotals :=
  match entries with
  | [] => Some acc
  | e :: rest => acc' ← add_entry foodsMap acc e; sum_entries foodsMap rest acc'
  end.

Definition round_totals (acc : DayTotals) : DayTotals :=
  mkTotals (round2 (t_kcal acc)) (round2 (t_p acc)) (round2 (t_c acc)) (round2 (t_f acc)).

Definition computeTotals (entries : list DayFoodEntry) (foodsMap : FoodsMap)
    : option DayTotals :=
  acc ← sum_entries foodsMap entries (mkTotals 0 0 0 0);
  Some (round_totals acc).

(** ** Specification-level notions *)

(** The checks of the validator, as the specification words them; the
    share sum is the one the code forms, from left to right, and it is
    within the tolerance when the test [|sum - 1| > 1e-6] fails. *)
Definition counts_sum_ok (p : PlannerProfile) : Prop :=
  (nHigh p + nMed p + nLow p)%Z = cycleDays p.
Definition share_sum (s : DayRec float) : float :=
  (atHigh s + atMedium s + atLow s)%float.
Definition shares_ok (s : DayRec float) : Prop :=
  (1e-6 <? abs (share_sum s - 1))%float = false.
Definition required (p : PlannerProfile) : DayRec Z :=
  mkDayRec (nHigh p) (nMed p) (nLow p).
Definition placement_ok (p : PlannerProfile) : Prop :=
  Calc.count (dayPlacement p) = required p.

(** A number that is not below zero: the test [x < 0] fails. *)
Definition not_negative (x : float) : Prop := (x <? 0)%float = false.

(** The same on the decoded double: neither a negative number nor minus
    infinity. *)
Definition sf_notneg (f : spec_float) : bool :=
  match f with
  | S754_finite true _ _ | S754_infinity true => false
  | _ => true
  end.

(** Every food that an entry refers to has a variant. *)
Definition resolvable (m : FoodsMap) (es : list DayFoodEntry) : Prop :=
  ∀ e food, e ∈ es → m !! foodId e = Some food → variants food ≠ [].

(** The aggregate as the specification words it.  The variant of an entry
    is the one whose basis matches, or else the food's first variant; the
    entry contributes [density * (max(0, quantity) / 100)]; an entry whose
    food is not in the catalog contributes nothing; the contributions are
    added in the order of the entries, starting from zero. *)
Definition spec_variant (food : FoodItem) (b : Basis) : option FoodVariant :=
  match filter (λ v, v_basis v = b) (variants food) with
  | v :: _ => Some v
  | [] => variants food !! 0%nat
  end.

Definition contribution (dens : FoodVariant → float) (m : FoodsMap)
    (e : DayFoodEntry) : option float :=
  food ← m !! foodId e;
  v ← spec_variant food (basis e);
  Some (dens v * (Math_max0 (grams e) / 100))%float.

Definition sum_in_order (l : list float) : float :=
  foldl (λ acc x, (acc + x)%float) 0%float l.

Definition spec_sum (dens : FoodVariant → float) (m : FoodsMap)
    (es : list DayFoodEntry) : float :=
  sum_in_order (omap (contribution dens m) es).

Definition kcal_density (v : FoodVariant) : float := default 0%float (v_kcal v).

(** Rounding each contribution instead of the sum. *)
Definition per_entry_rounded (dens : FoodVariant → float) (m : FoodsMap)
    (es : list DayFoodEntry) : float :=
  sum_in_order (round2 <$> omap (contribution dens m) es).

Definition nonneg_densities (m : FoodsMap) : Prop :=
  ∀ k food v, m !! k = Some food → v ∈ variants food →
    not_negative (kcal_density v) ∧ not_negative (v_p v)
    ∧ not_negative (v_c v) ∧ not_negative (v_f v).

(** The exact value of a finite double. *)
Definition exact (x : float) : Q :=
  match Prim2SF x with
  | S754_finite s m e =>
      let v := if (0 <=? e)%Z then inject_Z (Z.pos m * 2 ^ e)
               else (Z.pos m # Pos.pow 2 (Z.to_pos (- e))) in
      if s then Qopp v else v
  | _ => 0%Q
  end.

(** ** Sample data *)

(** The profile of scenario A. *)
Definition profile_A : PlannerProfile :=
  mkProfile "f" 70 endo 1.2 1.0 5 2 2 1 (mkDayRec 0.5%float 0.35%float 0.15%float) (mkDayRec 0.15%float 0.35%float 0.5%float)
    [High; Medium; Low; Medium; High].

(** A valid profile whose High carbohydrate target, 131.325 in exact
    arithmetic, is a tie at the third decimal. *)
Definition profile_tie : PlannerProfile :=
  mkProfile "f" 51.5 endo 1.2 1.0 5 2 2 1 (mkDayRec 0.51%float 0.34%float 0.15%float) (mkDayRec 0.15%float 0.35%float 0.5%float)
    [High; Medium; Low; Medium; High].

(** Fat shares whose decimal sum, 0.999999, is 1e-6 away from 1. *)
Definition profile_edge : PlannerProfile :=
  mkProfile "f" 70 endo 1.2 1.0 5 2 2 1 (mkDayRec 0.5%float 0.35%float 0.15%float) (mkDayRec 0.4%float 0.3%float 0.299999%float)
    [High; Medium; Low; Medium; High].

Definition chicken : FoodItem :=
  mkFood "chicken" "Chicken breast" "ji xiong rou" protein "c"
         [mkVariant raw (Some 120%float) 20 0 0].
Definition rice : FoodItem :=
  mkFood "rice" "Rice" "mi fan" carb "r"
         [mkVariant raw None 7 77 0.6; mkVariant cooked None 2.6 28 0.3].
Definition broth : FoodItem :=
  mkFood "broth" "Broth" "tang" other "b" [mkVariant raw None 0.1 0 0].
Definition milk : FoodItem :=
  mkFood "milk" "Milk" "niu nai" dairy "m" [mkVariant raw None 0.2 0 0].
Definition yam : FoodItem :=
  mkFood "yam" "Yam" "shan yao" veg "y" [mkVariant raw None 0.7 0 0].
Definition curd : FoodItem :=
  mkFood "curd" "Curd" "dou fu nao" other "d" [mkVariant raw None 0.5 0 0].

Definition catalog : FoodsMap :=
  <["chicken"%string := chicken]> (<["rice"%string := rice]>
  (<["broth"%string := broth]> (<["milk"%string := milk]>
  (<["yam"%string := yam]> (<["curd"%string := curd]> ∅))))).

(** Two helpings of 0.02 g of chicken: 0.004 g of protein each. *)
Definition crumbs : list DayFoodEntry :=
  [mkEntry "chicken" raw 0.02; mkEntry "chicken" raw 0.02].

(** A plate with a negative quantity and a food the catalog lacks. *)
Definition plate : list DayFoodEntry :=
  [mkEntry "chicken" raw (-100); mkEntry "rice" cooked 0; mkEntry "tofu" raw 3].

(** 29 g of a food with 0.5 g of protein per 100 g: 0.145 g in exact
    arithmetic. *)
Definition spoonful : list DayFoodEntry := [mkEntry "curd" raw 29].

(** Three entries whose protein sums to 0.905 g in exact arithmetic. *)
Definition trio : list DayFoodEntry :=
  [mkEntry "broth" raw 5; mkEntry "milk" raw 100; mkEntry "yam" raw 100].

End Binary64.

(** ** Sample data *)

(** A saved profile whose placement is too long and has the wrong counts. *)
Definition profile_long : PlannerProfile :=
  mkProfile "f" 70 endo 1.2 1.0 5 2 2 1 Calc.DEFAULT_CARB_SHARES Calc.DEFAULT_FAT_SHARES
    [Low; High; Low; High; High; Medium; High].

(** The profile of scenarios A and B. *)
Definition profile_A : PlannerProfile :=
  mkProfile "f" 70 endo 1.2 1.0 5 2 2 1 Calc.DEFAULT_CARB_SHARES Calc.DEFAULT_FAT_SHARES
    [High; Medium; Low; Medium; High].

Definition chicken : FoodItem :=
  mkFood "chicken" "Chicken breast" "ji xiong rou" protein "c"
         [mkVariant raw (Some 120%Q) 20 0 0].
Definition rice : FoodItem :=
  mkFood "rice" "Rice" "mi fan" carb "r"
         [mkVariant raw None 7 77 0.6; mkVariant cooked None 2.6 28 0.3].
(** A catalog record without variants, which the data model rules out. *)
Definition ghost : FoodItem := mkFood "ghost" "Ghost" "gui" protein "g" [].

(** A plate with a negative quantity and a food the catalog lacks. *)
Definition plate : list DayFoodEntry :=
  [mkEntry "chicken" raw (-100); mkEntry "rice" cooked 0; mkEntry "tofu" raw 3].
Definition lunch_target : MacroTarget := mkTarget 40 100 10.

Definition no_target : MacroTarget := mkTarget 0 0 0.

(** An entry for the record without variants. *)
Definition ghost_plate : list DayFoodEntry := [mkEntry "ghost" raw 10].

(** A plate that no single move improves: the carbohydrate target is out
    of reach of chicken. *)
Definition stuck_plate : list DayFoodEntry := [mkEntry "chicken" raw 200].
Definition stuck_target : MacroTarget := mkTarget 40 50 0.


(** A second record for chicken, as a custom food would shadow a built-in
    one. *)
Definition my_chicken : FoodItem :=
  mkFood "chicken" "My chicken" "wo de ji" protein "c"
         [mkVariant cooked (Some 165%Q) 31 0 3.6].

Definition catalog : gmap string FoodItem :=
  <["chicken"%string := chicken]> (<["rice"%string := rice]> ∅).
Definition bad_catalog : gmap string FoodItem :=
  <["ghost"%string := ghost]> catalog.

(** * Properties *)

(** The literals [1e-9] and [1e-6] as plain fractions, for [lra]. *)
Ltac plain_literals :=
  change (1e-9)%Q with (1 # 1000000000)%Q in *;
  change (1e-6)%Q with (1 # 1000000)%Q in *.

(** ** Rounding *)

Section Rounding.
Import Calc.

Lemma Qltb_lt a b : Qltb a b = true ↔ (a < b)%Q.
Proof.
  unfold Qltb. rewrite negb_true_iff, <- not_true_iff_false, Qle_bool_iff.
  split; [apply Qnot_le_lt | apply Qlt_not_le].
Qed.

Lemma Qltb_ge a b : Qltb a b = false ↔ (b <= a)%Q.
Proof. unfold Qltb. rewrite negb_false_iff. apply Qle_bool_iff. Qed.

Lemma Qleb_le a b : Qleb a b = true ↔ (a <= b)%Q.
Proof. apply Qle_bool_iff. Qed.

Lemma Qleb_gt a b : Qleb a b = false ↔ (b < a)%Q.
Proof.
  unfold Qleb. rewrite <- not_true_iff_false, Qle_bool_iff.
  split; [apply Qnot_le_lt | apply Qlt_not_le].
Qed.

Lemma Math_round_bounds x :
  (x - (1 # 2) < inject_Z (Math_round x) <= x + (1 # 2))%Q.
Proof.
  unfold Math_round. split.
  - pose proof (Qlt_floor (x + (1 # 2))) as H.
    rewrite inject_Z_plus in H. change (inject_Z 1) with 1%Q in H. lra.
  - apply Qfloor_le.
Qed.

Lemma round2_bounds x : (x - (1 # 200) < round2 x <= x + (1 # 200))%Q.
Proof.
  unfold round2. pose proof (Math_round_bounds (x * 100)) as [H1 H2].
  split.
  - apply Qlt_shift_div_l; lra.
  - apply Qle_shift_div_r; lra.
Qed.

Lemma round2_comp x y : (x == y)%Q → round2 x = round2 y.
Proof.
  intros H. unfold round2, Math_round.
  rewrite (Qfloor_comp (x * 100 + (1 # 2)) (y * 100 + (1 # 2))); [done|].
  rewrite H. reflexivity.
Qed.

Lemma round2_nonneg x : (0 <= x)%Q → (0 <= round2 x)%Q.
Proof.
  intros H. unfold round2. apply Qle_shift_div_l; [lra|].
  rewrite Qmult_0_l. change 0%Q with (inject_Z 0). rewrite <- Zle_Qle.
  unfold Math_round. rewrite <- (Qfloor_Z 0). apply Qfloor_resp_le.
  change (inject_Z 0) with 0%Q. lra.
Qed.

End Rounding.

(** ** The allocator in the exact view *)

Section Allocation.
Import Calc.

Lemma perTypeC_get p d :
  getD (perTypeC p) d
  = per_type (cTotal_raw p) (getD (carbShares p) d) (getD (required p) d).
Proof. by destruct d. Qed.

Lemma perTypeF_get p d :
  getD (perTypeF p) d
  = per_type (fTotal_raw p) (getD (fatShares p) d) (getD (required p) d).
Proof. by destruct d. Qed.

End Allocation.

(** ** The reports of the validator *)

Section Validation.

Lemma report_length failed msg : length (report failed msg) = Nat.b2n failed.
Proof. by destruct failed. Qed.

End Validation.

(** ** PlacementNormalizer: [normalizePlacement] *)

Section Placement.
Import Calc.

Implicit Types (l out : list DayType) (ex la : DayRec Z) (d : DayType).

Lemma getD_setD {A} (r : DayRec A) d d' (x : A) :
  getD (setD r d x) d' = if decide (d = d') then x else getD r d'.
Proof. by destruct d, d'. Qed.

Lemma cnt_nil d : cnt d [] = 0%Z.
Proof. by destruct d. Qed.

Lemma cnt_cons d x l :
  cnt d (x :: l) = ((if decide (x = d) then 1 else 0) + cnt d l)%Z.
Proof.
  destruct d, x; unfold cnt, count; cbn [getD atHigh atMedium atLow];
    rewrite filter_cons; case_decide; try done; cbn [length]; lia.
Qed.

Lemma cnt_app d l1 l2 : cnt d (l1 ++ l2) = (cnt d l1 + cnt d l2)%Z.
Proof.
  induction l1 as [|x l1 IH]; cbn [app].
  - rewrite cnt_nil. lia.
  - rewrite !cnt_cons, IH. lia.
Qed.

Lemma cnt_nonneg d l : (0 <= cnt d l)%Z.
Proof. destruct d; unfold cnt, count; cbn; lia. Qed.

Lemma cnt_total l : (cnt High l + cnt Medium l + cnt Low l)%Z = Z.of_nat (length l).
Proof.
  induction l as [|x l IH]; [done|].
  rewrite !cnt_cons. cbn [length]. destruct x; repeat case_decide; try done; lia.
Qed.

Lemma count_cnt l r : count l = r ↔ ∀ d, cnt d l = getD r d.
Proof.
  split; [by intros <-|]. intros H. destruct r as [h m lo].
  pose proof (H High) as Hh. pose proof (H Medium) as Hm. pose proof (H Low) as Hl.
  unfold cnt in *. destruct (count l); cbn in *. congruence.
Qed.

Lemma find_target_Some la t : find_target la = Some t → (0 < getD la t)%Z.
Proof. intros H. apply find_some in H as [_ H]. by apply Z.ltb_lt. Qed.

Lemma find_target_None la : find_target la = None → ∀ t, (getD la t <= 0)%Z.
Proof.
  intros H t. apply Z.ltb_ge.
  apply (find_none _ _ H t). destruct t; cbn; tauto.
Qed.

(** What one iteration does: nothing, or one reassignment. *)
Lemma repair_one_cases d ex la d' ex' la' :
  repair_one d ex la = (d', ex', la') →
  (d' = d ∧ ex' = ex ∧ la' = la
   ∧ ((getD ex d <= 0)%Z ∨ ∀ t, (getD la t <= 0)%Z))
  ∨ ((0 < getD ex d)%Z ∧ (0 < getD la d')%Z
     ∧ ex' = setD ex d (getD ex d - 1)%Z
     ∧ la' = setD la d' (getD la d' - 1)%Z).
Proof.
  unfold repair_one. destruct (getD ex d <=? 0)%Z eqn:He.
  - intros [= <- <- <-]. left. apply Z.leb_le in He. auto.
  - apply Z.leb_gt in He. destruct (find_target la) as [t|] eqn:Ht.
    + intros [= <- <- <-]. right. eauto using find_target_Some.
    + intros [= <- <- <-]. left. eauto 6 using find_target_None.
Qed.

Ltac repair_step l ex la IH :=
  cbn [repair_tail];
  let l1 := fresh "l1" in let ex1 := fresh "ex1" in let la1 := fresh "la1" in
  let E := fresh "E" in let d1 := fresh "d1" in let ex2 := fresh "ex2" in
  let la2 := fresh "la2" in let E1 := fresh "E1" in
  destruct (repair_tail l ex la) as [[l1 ex1] la1] eqn:E;
  specialize (IH ex la l1 ex1 la1 E);
  match goal with
  | |- context [repair_one ?d ex1 la1] =>
      destruct (repair_one d ex1 la1) as [[d1 ex2] la2] eqn:E1;
      apply repair_one_cases in E1
  end.

Lemma repair_tail_length l : ∀ ex la l' ex' la',
  repair_tail l ex la = (l', ex', la') → length l' = length l.
Proof.
  induction l as [|d l IH]; intros ex la l' ex' la'.
  - by intros [= <- <- <-].
  - repair_step l ex la IH. intros [= <- <- <-]. cbn. by rewrite IH.
Qed.

(** Excess and deficit counters only go down. *)
Lemma repair_tail_mono l : ∀ ex la l' ex' la',
  repair_tail l ex la = (l', ex', la') →
  ∀ d, (getD ex' d <= getD ex d)%Z ∧ (getD la' d <= getD la d)%Z.
Proof.
  induction l as [|d l IH]; intros ex la l' ex' la'.
  - intros [= <- <- <-] ?. lia.
  - repair_step l ex la IH. intros [= <- <- <-] d0.
    destruct (IH d0) as [? ?].
    destruct E1 as [(-> & -> & -> & _)|(He & Hl & -> & ->)]; [done|].
    rewrite !getD_setD. pose proof (IH d) as [? ?]. pose proof (IH d1) as [? ?].
    repeat case_decide; subst; lia.
Qed.

Lemma repair_tail_nonneg l : ∀ ex la l' ex' la',
  repair_tail l ex la = (l', ex', la') →
  (∀ d, (0 <= getD ex d)%Z ∧ (0 <= getD la d)%Z) →
  ∀ d, (0 <= getD ex' d)%Z ∧ (0 <= getD la' d)%Z.
Proof.
  induction l as [|d l IH]; intros ex la l' ex' la'.
  - by intros [= <- <- <-] ?.
  - repair_step l ex la IH. intros [= <- <- <-] H0 d0.
    specialize (IH H0). destruct (IH d0) as [? ?].
    destruct E1 as [(-> & -> & -> & _)|(He & Hl & -> & ->)]; [done|].
    rewrite !getD_setD. repeat case_decide; subst; lia.
Qed.

(** Every reassignment moves one day from an excess to a deficit. *)
Lemma repair_tail_balance l : ∀ ex la l' ex' la',
  repair_tail l ex la = (l', ex', la') →
  ∀ d, (cnt d l' - getD ex' d + getD la' d = cnt d l - getD ex d + getD la d)%Z.
Proof.
  induction l as [|d l IH]; intros ex la l' ex' la'.
  - by intros [= <- <- <-] ?.
  - repair_step l ex la IH. intros [= <- <- <-] d0.
    rewrite !cnt_cons. specialize (IH d0).
    destruct E1 as [(-> & -> & -> & _)|(He & Hl & -> & ->)]; [lia|].
    rewrite !getD_setD. repeat case_decide; subst; lia.
Qed.

(** A category keeps excess only if all its days were used up or no
    deficit is left. *)
Lemma repair_tail_progress l : ∀ ex la l' ex' la',
  repair_tail l ex la = (l', ex', la') →
  ∀ d, (getD ex' d <= 0)%Z ∨ (getD ex' d <= getD ex d - cnt d l)%Z
       ∨ ∀ t, (getD la' t <= 0)%Z.
Proof.
  induction l as [|d l IH]; intros ex la l' ex' la'.
  - intros [= <- <- <-] d. rewrite cnt_nil. right. left. lia.
  - repair_step l ex la IH. intros [= <- <- <-] d0.
    rewrite cnt_cons.
    destruct E1 as [(-> & -> & -> & Hs)|(He & Hl & -> & ->)].
    + destruct Hs as [Hs|Hs]; [|by right; right].
      destruct (IH d0) as [?|[?|?]]; [by left| |by right; right].
      case_decide; subst; [by left|right; left; lia].
    + destruct (IH d0) as [?|[?|Hn]].
      * left. rewrite getD_setD. case_decide; subst; lia.
      * right. left. rewrite getD_setD. repeat case_decide; subst; lia.
      * specialize (Hn d1). lia.
Qed.

Lemma repair_tail_disjoint l ex la l' ex' la' :
  repair_tail l ex la = (l', ex', la') → disjoint ex la → disjoint ex' la'.
Proof.
  intros H Hd d. destruct (repair_tail_mono _ _ _ _ _ _ H d). destruct (Hd d); lia.
Qed.

Lemma repair_one_mono d ex la d' ex' la' :
  repair_one d ex la = (d', ex', la') →
  ∀ d0, (getD ex' d0 <= getD ex d0)%Z ∧ (getD la' d0 <= getD la d0)%Z.
Proof. intros H. apply (repair_tail_mono [d] ex la [d'] ex' la'). cbn. by rewrite H. Qed.

(** After the scan, a category that still occurs in the result has no
    excess left, unless no deficit is left at all. *)
Lemma repair_tail_settled l : ∀ ex la l' ex' la',
  repair_tail l ex la = (l', ex', la') → disjoint ex la →
  ∀ j d, l' !! j = Some d → (getD ex' d <= 0)%Z ∨ ∀ t, (getD la' t <= 0)%Z.
Proof.
  induction l as [|d l IH]; intros ex la l' ex' la'.
  - by intros [= <- <- <-] _ j d.
  - repair_step l ex la IH. intros [= <- <- <-] Hd j d0 Hj.
    pose proof (repair_tail_disjoint _ _ _ _ _ _ E Hd) as Hd1.
    destruct j as [|j]; cbn in Hj.
    + injection Hj as ->.
      destruct E1 as [(-> & -> & -> & Hs)|(He & Hl & -> & ->)]; [done|].
      left. rewrite getD_setD. destruct (Hd1 d0); case_decide; subst; lia.
    + destruct (IH Hd j d0 Hj) as [H|H].
      * left. destruct E1 as [(-> & -> & -> & _)|(He & Hl & -> & ->)]; [done|].
        rewrite getD_setD. case_decide; subst; lia.
      * right. intros t. specialize (H t).
        destruct E1 as [(-> & -> & -> & _)|(He & Hl & -> & ->)]; [done|].
        rewrite getD_setD. case_decide; subst; lia.
Qed.

(** A day that the scan left in its category: when the scan ended, that
    category had no excess left or no deficit was left. *)
Lemma repair_tail_kept l : ∀ ex la l' ex' la',
  repair_tail l ex la = (l', ex', la') → disjoint ex la →
  ∀ j d, l !! j = Some d → l' !! j = Some d →
         (getD ex' d <= 0)%Z ∨ ∀ t, (getD la' t <= 0)%Z.
Proof.
  intros ex la l' ex' la' H Hd j d _ Hj. eauto using repair_tail_settled.
Qed.

(** A day that the scan reassigned was of a category with excess. *)
Lemma repair_tail_changed l : ∀ ex la l' ex' la',
  repair_tail l ex la = (l', ex', la') →
  ∀ j d, l !! j = Some d → l' !! j ≠ Some d → (0 < getD ex d)%Z.
Proof.
  induction l as [|d l IH]; intros ex la l' ex' la'.
  - by intros [= <- <- <-] j d.
  - repair_step l ex la IH. intros [= <- <- <-] j d0 Hj Hj'.
    destruct j as [|j]; cbn in Hj, Hj'; [|by eapply IH].
    injection Hj as ->.
    destruct E1 as [(-> & -> & -> & _)|(He & Hl & -> & ->)]; [done|].
    destruct (repair_tail_mono _ _ _ _ _ _ E d0). lia.
Qed.

(** Reassignments come from the tail first: if a day was reassigned, so was
    every later day of the same category. *)
Lemma repair_tail_tail_first l : ∀ ex la l' ex' la',
  repair_tail l ex la = (l', ex', la') → disjoint ex la →
  ∀ i j d, (i < j)%nat → l !! i = Some d → l !! j = Some d →
           l' !! i ≠ Some d → l' !! j ≠ Some d.
Proof.
  induction l as [|d l IH]; intros ex la l' ex' la'.
  - by intros [= <- <- <-] _ i j d.
  - repair_step l ex la IH. intros [= <- <- <-] Hd i j d0 Hij Hi Hj Hi'.
    destruct j as [|j]; [lia|]. cbn in Hj |- *.
    destruct i as [|i]; cbn in Hi, Hi'.
    + injection Hi as ->. intros Hk.
      destruct E1 as [(-> & -> & -> & _)|(He & Hl & -> & ->)]; [done|].
      destruct (repair_tail_kept _ _ _ _ _ _ E Hd j d0 Hj Hk) as [H|H];
        [lia|specialize (H d1); lia].
    + eapply (IH Hd i j); [lia|done..].
Qed.

(** With nothing to reassign, the scan changes nothing. *)
Lemma repair_tail_noop l : ∀ ex la,
  (∀ d, d ∈ l → (getD ex d <= 0)%Z ∨ ∀ t, (getD la t <= 0)%Z) →
  repair_tail l ex la = (l, ex, la).
Proof.
  induction l as [|d l IH]; intros ex la H; [done|].
  cbn [repair_tail]. rewrite IH by (intros; apply H; by right).
  unfold repair_one. destruct (H d) as [Hx|Hx]; [by left| |].
  - by apply Z.leb_le in Hx as ->.
  - destruct (getD ex d <=? 0)%Z; [done|].
    destruct (find_target la) as [t|] eqn:Ht; [|done].
    apply find_target_Some in Ht. specialize (Hx t). lia.
Qed.

Lemma repair_tail_snoc l : ∀ d ex la,
  repair_tail (l ++ [d]) ex la
  = let '(d', ex1, la1) := repair_one d ex la in
    let '(l', ex2, la2) := repair_tail l ex1 la1 in
    (l' ++ [d'], ex2, la2).
Proof.
  induction l as [|x l IH]; intros d ex la; cbn [app repair_tail].
  - by destruct (repair_one d ex la) as [[d' ex1] la1].
  - rewrite IH. destruct (repair_one d ex la) as [[d' ex1] la1].
    destruct (repair_tail l ex1 la1) as [[l' ex2] la2].
    by destruct (repair_one x ex2 la2) as [[x' ex3] la3].
Qed.

(** The loop over the indices [n-1], ..., [0] is the traversal from the
    tail. *)
Lemma repair_down_tail l : ∀ s ex la,
  repair_down (length l) (mkRepair (l ++ s) ex la)
  = let '(l', ex', la') := repair_tail l ex la in mkRepair (l' ++ s) ex' la'.
Proof.
  induction l as [|x l IH] using rev_ind; intros s ex la; [done|].
  rewrite length_app, Nat.add_1_r. cbn [repair_down length].
  rewrite repair_tail_snoc.
  assert (Hx : ((l ++ [x]) ++ s) !! length l = Some x)
    by (rewrite <- app_assoc; apply list_lookup_middle; done).
  assert (Hi : ∀ t, <[length l := t]> ((l ++ [x]) ++ s) = l ++ [t] ++ s).
  { intros t. rewrite <- app_assoc. rewrite insert_app_r_alt by lia.
    by rewrite Nat.sub_diag. }
  unfold repair_at, repair_one. cbn [r_out r_extras r_lacks]. rewrite Hx.
  destruct (getD ex x <=? 0)%Z.
  - rewrite <- app_assoc, IH.
    destruct (repair_tail l ex la) as [[l' ex'] la']. by rewrite <- app_assoc.
  - destruct (find_target la) as [t|].
    + rewrite Hi, IH.
      destruct (repair_tail l _ _) as [[l' ex'] la']. by rewrite <- app_assoc.
    + rewrite <- app_assoc, IH.
      destruct (repair_tail l ex la) as [[l' ex'] la']. by rewrite <- app_assoc.
Qed.

Lemma normalizePlacement_tail p :
  normalizePlacement p = (repair_tail (fit_length p) (excess p) (deficit p)).1.1.
Proof.
  unfold normalizePlacement. cbn zeta.
  pose proof (repair_down_tail (fit_length p) [] (excess p) (deficit p)) as H.
  rewrite app_nil_r in H. unfold excess, deficit in *. rewrite H.
  destruct (repair_tail _ _ _) as [[l' ex'] la']. cbn. by rewrite app_nil_r.
Qed.

Lemma slice0_length {A} (l : list A) (e : Z) :
  (0 <= e)%Z → length (slice0 l e) = (Z.to_nat e `min` length l)%nat.
Proof.
  intros He. unfold slice0. apply Z.ltb_ge in He as ->. apply length_take.
Qed.

Lemma fit_length_length p :
  (0 <= cycleDays p)%Z → length (fit_length p) = Z.to_nat (cycleDays p).
Proof.
  intros H. unfold fit_length. cbn zeta.
  rewrite length_app, length_replicate, slice0_length by done. lia.
Qed.

Lemma fit_length_id p :
  (0 <= cycleDays p)%Z → length (dayPlacement p) = Z.to_nat (cycleDays p) →
  fit_length p = dayPlacement p.
Proof.
  intros H Hl. unfold fit_length. cbn zeta.
  assert (Hs : slice0 (dayPlacement p) (cycleDays p) = dayPlacement p).
  { unfold slice0. apply Z.ltb_ge in H as ->. apply take_ge. lia. }
  rewrite Hs. replace (Z.to_nat _) with 0%nat by lia. apply app_nil_r.
Qed.

Lemma extras_of_get c r d : getD (extras_of c r) d = Z.max 0 (getD c d - getD r d).
Proof. by destruct d. Qed.

Lemma lacks_of_get c r d : getD (lacks_of c r) d = Z.max 0 (getD r d - getD c d).
Proof. by destruct d. Qed.

Lemma excess_get p d :
  getD (excess p) d = Z.max 0 (cnt d (fit_length p) - getD (required p) d).
Proof. apply extras_of_get. Qed.

Lemma deficit_get p d :
  getD (deficit p) d = Z.max 0 (getD (required p) d - cnt d (fit_length p)).
Proof. apply lacks_of_get. Qed.

Lemma start_disjoint p : disjoint (excess p) (deficit p).
Proof. intros d. rewrite excess_get, deficit_get. lia. Qed.

Lemma start_nonneg p d : (0 <= getD (excess p) d)%Z ∧ (0 <= getD (deficit p) d)%Z.
Proof. rewrite excess_get, deficit_get. lia. Qed.

Lemma total_get (r : DayRec Z) : total r = (getD r High + getD r Medium + getD r Low)%Z.
Proof. done. Qed.

(** Every reassignment changes one day and uses up one unit of excess. *)
Lemma repair_tail_differing l : ∀ ex la l' ex' la',
  repair_tail l ex la = (l', ex', la') → disjoint ex la →
  Z.of_nat (differing l l') = (total ex - total ex')%Z.
Proof.
  induction l as [|d l IH]; intros ex la l' ex' la'.
  - intros [= <- <- <-] _. cbn. lia.
  - repair_step l ex la IH. intros [= <- <- <-] Hd.
    pose proof (repair_tail_disjoint _ _ _ _ _ _ E Hd) as Hd1.
    specialize (IH Hd). cbn [differing]. rewrite !total_get in *.
    destruct E1 as [(-> & -> & -> & _)|(He & Hl & -> & ->)].
    + rewrite decide_True by done. lia.
    + assert (d ≠ d1) by (intros ->; destruct (Hd1 d1); lia).
      rewrite decide_False by done. rewrite !getD_setD.
      destruct d; repeat case_decide; try done; lia.
Qed.

(** Any placement with other counts differs on at least the excess. *)
Lemma differing_lower l : ∀ l', length l = length l' →
  (Z.max 0 (cnt High l - cnt High l') + Z.max 0 (cnt Medium l - cnt Medium l')
   + Z.max 0 (cnt Low l - cnt Low l') <= Z.of_nat (differing l l'))%Z.
Proof.
  induction l as [|a l IH]; intros [|b l'] Hlen; try done.
  injection Hlen as Hlen. specialize (IH l' Hlen).
  cbn [differing]. rewrite !cnt_cons.
  destruct a, b; repeat case_decide; try done; lia.
Qed.

Lemma start_balance p d :
  (cnt d (fit_length p) - getD (excess p) d + getD (deficit p) d)%Z
  = getD (required p) d.
Proof. rewrite excess_get, deficit_get. lia. Qed.

(** With non-negative required counts that sum to the cycle length, the
    scan uses up every excess and fills every deficit. *)
Lemma repair_tail_done p l' ex' la' :
  (0 <= nHigh p)%Z → (0 <= nMed p)%Z → (0 <= nLow p)%Z →
  (nHigh p + nMed p + nLow p)%Z = cycleDays p →
  repair_tail (fit_length p) (excess p) (deficit p) = (l', ex', la') →
  (∀ d, getD ex' d = 0%Z ∧ getD la' d = 0%Z)
  ∧ (∀ d, cnt d l' = getD (required p) d).
Proof.
  intros Hh Hm Hl Hsum E.
  pose proof (repair_tail_length _ _ _ _ _ _ E) as Hlen.
  pose proof (fit_length_length p ltac:(lia)) as Hlen0.
  assert (Hreq : ∀ d, (0 <= getD (required p) d)%Z) by (by intros []).
  assert (Hex : ∀ d, (0 <= getD ex' d)%Z ∧ (0 <= getD la' d)%Z)
    by (apply (repair_tail_nonneg _ _ _ _ _ _ E), start_nonneg).
  assert (Hbal : ∀ d, (cnt d l' - getD ex' d + getD la' d)%Z = getD (required p) d).
  { intros d. rewrite (repair_tail_balance _ _ _ _ _ _ E). apply start_balance. }
  assert (Hpr : ∀ d, (getD ex' d <= 0)%Z ∨ ∀ t, (getD la' t <= 0)%Z).
  { intros d. destruct (repair_tail_progress _ _ _ _ _ _ E d) as [?|[H|?]]; auto.
    left. rewrite excess_get in H. specialize (Hreq d).
    pose proof (cnt_nonneg d (fit_length p)). lia. }
  pose proof (cnt_total l') as Ht.
  assert (Hsum' : (getD (required p) High + getD (required p) Medium
                   + getD (required p) Low)%Z = Z.of_nat (length l')) by (cbn; lia).
  assert (Hz : ∀ d, getD ex' d = 0%Z ∧ getD la' d = 0%Z).
  { pose proof (Hex High). pose proof (Hex Medium). pose proof (Hex Low).
    pose proof (Hbal High). pose proof (Hbal Medium). pose proof (Hbal Low).
    assert (Hcase : (∀ d, (getD ex' d <= 0)%Z) ∨ (∀ t, (getD la' t <= 0)%Z)).
    { destruct (Hpr High); auto. destruct (Hpr Medium); auto.
      destruct (Hpr Low); auto. left. by intros []. }
    destruct Hcase as [Hc|Hc];
      pose proof (Hc High); pose proof (Hc Medium); pose proof (Hc Low);
      intros []; lia. }
  split; [done|]. intros d. specialize (Hbal d). destruct (Hz d). lia.
Qed.

(** C2. For non-negative required counts that sum to [cycleDays], and
    whatever the stored placement is, [normalizePlacement] returns
    [cycleDays] days of which exactly [nHigh] are High, [nMed] Medium and
    [nLow] Low. *)
Theorem normalizePlacement_counts (p : PlannerProfile) :
  (0 <= nHigh p)%Z → (0 <= nMed p)%Z → (0 <= nLow p)%Z →
  (nHigh p + nMed p + nLow p)%Z = cycleDays p →
  Z.of_nat (length (normalizePlacement p)) = cycleDays p
  ∧ count (normalizePlacement p) = mkDayRec (nHigh p) (nMed p) (nLow p).
Proof.
  intros Hh Hm Hl Hsum. rewrite normalizePlacement_tail.
  destruct (repair_tail (fit_length p) (excess p) (deficit p))
    as [[l' ex'] la'] eqn:E. cbn [fst].
  pose proof (repair_tail_length _ _ _ _ _ _ E) as Hlen.
  pose proof (fit_length_length p ltac:(lia)) as Hlen0.
  split; [lia|].
  apply count_cnt. intros d.
  by destruct (repair_tail_done p l' ex' la' Hh Hm Hl Hsum E) as [_ ->].
Qed.

Lemma normalizePlacement_counts_witness :
  Z.of_nat (length (normalizePlacement profile_long)) = 5%Z
  ∧ count (normalizePlacement profile_long) = mkDayRec 2%Z 2%Z 1%Z.
Proof. apply (normalizePlacement_counts profile_long); cbn; lia. Defined.

(** C8. The repair starts from the placement cut or padded with Low to
    [cycleDays] days; it changes a day only if that day's category occurs
    more often than required, and if it changes a day it has changed every
    later day of the same category (the tail goes first).  For required
    counts that are non-negative and sum to [cycleDays] it changes as many
    days as there is excess, and no placement with the required counts
    differs from the start on fewer days.  For five days with counts 3/1/1
    against required 2/2/1, the result is the input with its last High day
    turned into Medium and nothing else touched. *)
Theorem normalizePlacement_minimal (p : PlannerProfile) :
  let out0 := fit_length p in
  let out := normalizePlacement p in
  ((0 <= cycleDays p)%Z →
     out0 = take (Z.to_nat (cycleDays p)) (dayPlacement p)
            ++ replicate (Z.to_nat (cycleDays p) - length (dayPlacement p)) Low)
  ∧ length out = length out0
  ∧ (∀ i d, out0 !! i = Some d → out !! i ≠ Some d →
            (getD (required p) d < cnt d out0)%Z)
  ∧ (∀ i j d, (i < j)%nat → out0 !! i = Some d → out0 !! j = Some d →
              out !! i ≠ Some d → out !! j ≠ Some d)
  ∧ ((0 <= nHigh p)%Z → (0 <= nMed p)%Z → (0 <= nLow p)%Z →
     (nHigh p + nMed p + nLow p)%Z = cycleDays p →
     Z.of_nat (differing out0 out) = total (excess p)
     ∧ ∀ l, length l = length out0 → count l = required p →
            (differing out0 out <= differing out0 l)%nat)
  ∧ (cycleDays p = 5%Z → nHigh p = 2%Z → nMed p = 2%Z → nLow p = 1%Z →
     length (dayPlacement p) = 5%nat →
     count (dayPlacement p) = mkDayRec 3%Z 1%Z 1%Z →
     ∃ i, dayPlacement p !! i = Some High
          ∧ (∀ j, (i < j)%nat → dayPlacement p !! j ≠ Some High)
          ∧ out = <[i := Medium]> (dayPlacement p)).
Proof.
  cbn zeta. split_and!.
  - intros H. unfold fit_length, slice0. cbn zeta.
    apply Z.ltb_ge in H as Hb. rewrite Hb, length_take. do 2 f_equal. lia.
  - rewrite normalizePlacement_tail.
    destruct (repair_tail _ _ _) as [[l' ex'] la'] eqn:E.
    apply (repair_tail_length _ _ _ _ _ _ E).
  - intros i d H0 H1. rewrite normalizePlacement_tail in H1.
    destruct (repair_tail _ _ _) as [[l' ex'] la'] eqn:E.
    pose proof (repair_tail_changed _ _ _ _ _ _ E i d H0 H1) as Hx.
    rewrite excess_get in Hx. lia.
  - intros i j d Hij Hi Hj. rewrite normalizePlacement_tail.
    destruct (repair_tail _ _ _) as [[l' ex'] la'] eqn:E.
    apply (repair_tail_tail_first _ _ _ _ _ _ E (start_disjoint p) i j d Hij Hi Hj).
  - intros Hh Hm Hl Hsum. rewrite normalizePlacement_tail.
    destruct (repair_tail _ _ _) as [[l' ex'] la'] eqn:E. cbn [fst].
    destruct (repair_tail_done p l' ex' la' Hh Hm Hl Hsum E) as [Hz _].
    pose proof (repair_tail_differing _ _ _ _ _ _ E (start_disjoint p)) as Hdiff.
    rewrite (total_get ex') in Hdiff.
    destruct (Hz High) as [Hz1 _], (Hz Medium) as [Hz2 _], (Hz Low) as [Hz3 _].
    split; [lia|]. intros l Hlen Hcount.
    pose proof (differing_lower (fit_length p) l (eq_sym Hlen)) as Hlow.
    assert (Hc : ∀ d, cnt d l = getD (required p) d) by (by apply count_cnt).
    rewrite !Hc, <- !excess_get, <- total_get in Hlow. lia.
  - destruct p as [sx w bt pk ef cd nh nm nl cs fs l]. cbn.
    intros -> -> -> -> Hlen Hcount.
    destruct l as [|a [|b [|c [|d [|e [|? ?]]]]]]; try discriminate Hlen.
    destruct a, b, c, d, e; vm_compute in Hcount; try discriminate Hcount;
      first
        [ exists 4%nat; split; [reflexivity|split; [|reflexivity]]
        | exists 3%nat; split; [reflexivity|split; [|reflexivity]]
        | exists 2%nat; split; [reflexivity|split; [|reflexivity]] ];
      intros j Hj; do 5 (destruct j as [|j]; [try lia; by cbn|]); by cbn.
Qed.

(** C9. Normalising the placement that [normalizePlacement] returned, for
    the same profile, returns it unchanged (the cycle length being a
    length, that is not negative). *)
Theorem normalizePlacement_idempotent (p : PlannerProfile) :
  (0 <= cycleDays p)%Z →
  normalizePlacement (with_placement p (normalizePlacement p)) = normalizePlacement p.
Proof.
  intros Hc. set (p' := with_placement p (normalizePlacement p)).
  rewrite (normalizePlacement_tail p').
  assert (Hfit : fit_length p' = normalizePlacement p).
  { apply fit_length_id; [done|]. cbn [p' with_placement dayPlacement cycleDays].
    rewrite normalizePlacement_tail.
    destruct (repair_tail _ _ _) as [[l' ex'] la'] eqn:E. cbn [fst].
    rewrite (repair_tail_length _ _ _ _ _ _ E). by apply fit_length_length. }
  rewrite Hfit. rewrite repair_tail_noop; [done|].
  intros d Hd. rewrite !excess_get. setoid_rewrite deficit_get. rewrite Hfit.
  change (required p') with (required p).
  revert Hd. rewrite normalizePlacement_tail.
  destruct (repair_tail (fit_length p) _ _) as [[l' ex'] la'] eqn:E. cbn [fst].
  intros [j Hj]%list_elem_of_lookup.
  assert (Hex : ∀ d, (0 <= getD ex' d)%Z ∧ (0 <= getD la' d)%Z)
    by (apply (repair_tail_nonneg _ _ _ _ _ _ E), start_nonneg).
  assert (Hbal : ∀ d, (cnt d l' - getD ex' d + getD la' d)%Z = getD (required p) d).
  { intros d0. rewrite (repair_tail_balance _ _ _ _ _ _ E). apply start_balance. }
  destruct (repair_tail_settled _ _ _ _ _ _ E (start_disjoint p) j d Hj) as [H|H].
  - left. specialize (Hbal d). destruct (Hex d). lia.
  - right. intros t. specialize (Hbal t). specialize (H t). destruct (Hex t). lia.
Qed.

Lemma normalizePlacement_idempotent_witness :
  normalizePlacement (with_placement profile_long (normalizePlacement profile_long))
  = normalizePlacement profile_long.
Proof. apply (normalizePlacement_idempotent profile_long). cbn. lia. Defined.

End Placement.

(** ** TotalsAggregator: [computeTotals] *)

Section Aggregation.
Import Calc Solver.

Implicit Types (m : FoodsMap) (e : DayFoodEntry) (es : list DayFoodEntry).
Implicit Types (acc t : DayTotals) (food : FoodItem) (v : FoodVariant).

Lemma find_head_filter {A} (P : A → Prop) `{∀ x, Decision (P x)} (l : list A) :
  List.find (λ x, bool_decide (P x)) l = head (filter P l).
Proof.
  induction l as [|x l IH]; [done|]. cbn [List.find]. rewrite filter_cons, IH.
  case_bool_decide; by case_decide.
Qed.

(** The variant the code picks is the one the specification names. *)
Lemma getVariant_spec food b : getVariant food b = spec_variant food b.
Proof.
  unfold getVariant, spec_variant. rewrite find_head_filter.
  destruct (filter _ _); [|done]. by destruct (variants food).
Qed.

Lemma spec_variant_elem food b v : spec_variant food b = Some v → v ∈ variants food.
Proof.
  unfold spec_variant. destruct (filter _ _) as [|v' l] eqn:E.
  - apply list_elem_of_lookup_2.
  - intros [= <-]. assert (Hin : v' ∈ filter (λ v, v_basis v = b) (variants food))
      by (rewrite E; left).
    by apply list_elem_of_filter in Hin as [_ ?].
Qed.

Lemma getVariant_total food b : variants food ≠ [] → is_Some (getVariant food b).
Proof.
  intros H. rewrite getVariant_spec. unfold spec_variant.
  destruct (filter _ _); [|by eexists]. by destruct (variants food); [|eexists].
Qed.

Lemma resolvable_cons m e es :
  resolvable m (e :: es) →
  (∀ food, m !! foodId e = Some food → variants food ≠ []) ∧ resolvable m es.
Proof.
  intros H. split.
  - intros food. apply H. left.
  - intros e' food He'. apply H. by right.
Qed.

Lemma resolvable_keys m es es' : keys es = keys es' → resolvable m es → resolvable m es'.
Proof.
  intros Hk H e' food [i Hi]%list_elem_of_lookup Hm.
  assert (Hki : keys es !! i = Some (key e'))
    by (rewrite Hk; unfold keys; by rewrite list_lookup_fmap, Hi).
  unfold keys in Hki. rewrite list_lookup_fmap in Hki.
  destruct (es !! i) as [e|] eqn:Hei; [|done]. injection Hki as Hf Hb.
  apply (H e food); [by eapply list_elem_of_lookup_2|]. by rewrite Hf.
Qed.

Lemma catalog_wf_resolvable m es : catalog_wf m → resolvable m es.
Proof. intros H e food _ Hm. by eapply H. Qed.

Lemma spec_sum_cons dens m e es :
  spec_sum dens m (e :: es) = (spec_contribution dens m e + spec_sum dens m es)%Q.
Proof. done. Qed.

Lemma spec_contribution_resolved dens m e food v :
  m !! foodId e = Some food → spec_variant food (basis e) = Some v →
  spec_contribution dens m e = (dens v * (Qmax 0 (grams e) / 100))%Q.
Proof. intros Hm Hv. unfold spec_contribution. by rewrite Hm, Hv. Qed.

Lemma spec_contribution_unresolved dens m e :
  m !! foodId e = None → spec_contribution dens m e = 0%Q.
Proof. intros Hm. unfold spec_contribution. by rewrite Hm. Qed.

(** The accumulators after the loop: what they held before plus the
    contributions the specification names. *)
Lemma sum_entries_spec m es : resolvable m es → ∀ acc,
  ∃ r, sum_entries m es acc = Some r
       ∧ (t_kcal r == t_kcal acc + spec_sum kcal_density m es)%Q
       ∧ (t_p r == t_p acc + spec_sum v_p m es)%Q
       ∧ (t_c r == t_c acc + spec_sum v_c m es)%Q
       ∧ (t_f r == t_f acc + spec_sum v_f m es)%Q.
Proof.
  induction es as [|e es IH]; intros Hr acc.
  - exists acc. unfold spec_sum. cbn. split_and!; [done|ring..].
  - apply resolvable_cons in Hr as [He Hr]. specialize (IH Hr).
    cbn [sum_entries]. rewrite !spec_sum_cons. unfold add_entry.
    destruct (m !! foodId e) as [food|] eqn:Hm.
    + destruct (getVariant_total food (basis e) (He food eq_refl)) as [v Hv].
      rewrite Hv. rewrite getVariant_spec in Hv.
      rewrite !(spec_contribution_resolved _ m e food v Hm Hv). cbn.
      destruct (IH (mkTotals (t_kcal acc + default 0%Q (v_kcal v) * (Qmax 0 (grams e) / 100))
                             (t_p acc + v_p v * (Qmax 0 (grams e) / 100))
                             (t_c acc + v_c v * (Qmax 0 (grams e) / 100))
                             (t_f acc + v_f v * (Qmax 0 (grams e) / 100))))
        as (r & -> & Hk & Hp & Hc & Hf). cbn in Hk, Hp, Hc, Hf.
      exists r. unfold kcal_density at 1.
      split_and!; [done|rewrite Hk; ring|rewrite Hp; ring|rewrite Hc; ring|rewrite Hf; ring].
    + rewrite !(spec_contribution_unresolved _ m e Hm). cbn.
      destruct (IH acc) as (r & -> & Hk & Hp & Hc & Hf). exists r.
      split_and!; [done|rewrite Hk; ring|rewrite Hp; ring|rewrite Hc; ring|rewrite Hf; ring].
Qed.

Lemma computeTotals_total m es : resolvable m es → is_Some (computeTotals es m).
Proof.
  intros H. unfold computeTotals.
  destruct (sum_entries_spec m es H (mkTotals 0 0 0 0)) as (r & -> & _). by eexists.
Qed.

Lemma sum_entries_app m es1 es2 acc :
  sum_entries m (es1 ++ es2) acc = sum_entries m es1 acc ≫= sum_entries m es2.
Proof.
  revert acc. induction es1 as [|e es1 IH]; intros acc; [done|].
  cbn [app sum_entries]. destruct (add_entry m acc e) as [acc'|]; [|done]. apply IH.
Qed.

Lemma add_entry_equiv m acc1 acc2 e1 e2 :
  totals_equiv acc1 acc2 → entry_equiv e1 e2 →
  option_Forall2 totals_equiv (add_entry m acc1 e1) (add_entry m acc2 e2).
Proof.
  intros (Hk & Hp & Hc & Hf) (Hi & Hb & Hg). unfold add_entry. rewrite <- Hi, <- Hb.
  destruct (m !! foodId e1) as [food|]; [|by constructor].
  destruct (getVariant food (basis e1)) as [v|]; constructor.
  split_and!; cbn; by rewrite Hg, ?Hk, ?Hp, ?Hc, ?Hf.
Qed.

Lemma sum_entries_equiv m es1 es2 :
  Forall2 entry_equiv es1 es2 → ∀ acc1 acc2, totals_equiv acc1 acc2 →
  option_Forall2 totals_equiv (sum_entries m es1 acc1) (sum_entries m es2 acc2).
Proof.
  induction 1 as [|e1 e2 es1 es2 He _ IH]; intros acc1 acc2 Ha; [by constructor|].
  cbn [sum_entries].
  destruct (add_entry_equiv m acc1 acc2 e1 e2 Ha He) as [a1 a2 Ha'|]; [|constructor].
  by apply IH.
Qed.

Lemma round_totals_equiv t1 t2 : totals_equiv t1 t2 → round_totals t1 = round_totals t2.
Proof.
  intros (Hk & Hp & Hc & Hf). unfold round_totals.
  by rewrite (round2_comp _ _ Hk), (round2_comp _ _ Hp), (round2_comp _ _ Hc),
    (round2_comp _ _ Hf).
Qed.

(** The totals do not depend on how a quantity is written as a fraction. *)
Lemma computeTotals_equiv m es1 es2 :
  Forall2 entry_equiv es1 es2 → computeTotals es1 m = computeTotals es2 m.
Proof.
  intros H. unfold computeTotals.
  destruct (sum_entries_equiv m es1 es2 H (mkTotals 0 0 0 0) (mkTotals 0 0 0 0))
    as [a1 a2 Ha|]; [done| |done].
  cbn. by rewrite (round_totals_equiv _ _ Ha).
Qed.



End Aggregation.

(** ** QuantitySolver: [greedyGenerate] *)

Section Seeding.
Import Calc Solver.

Implicit Types (m : FoodsMap) (e : DayFoodEntry) (es : list DayFoodEntry).
Implicit Types (target : MacroTarget) (group : list nat).

Lemma keys_length es es' : keys es = keys es' → length es = length es'.
Proof. intros H. apply (f_equal length) in H. unfold keys in H. by rewrite !length_fmap in H. Qed.

Lemma keys_lookup es es' i e :
  keys es = keys es' → es !! i = Some e →
  ∃ e', es' !! i = Some e' ∧ foodId e' = foodId e ∧ basis e' = basis e.
Proof.
  intros Hk Hi. assert (H : keys es' !! i = Some (key e))
    by (rewrite <- Hk; unfold keys; by rewrite list_lookup_fmap, Hi).
  unfold keys in H. rewrite list_lookup_fmap in H.
  destruct (es' !! i) as [e'|]; [|done]. injection H as Hf Hb. by exists e'.
Qed.

Lemma keys_clamped selected : keys (clamped selected) = keys selected.
Proof. unfold keys, clamped. rewrite <- list_fmap_compose. by apply list_fmap_ext. Qed.

Lemma keys_rounded es : keys (rounded es) = keys es.
Proof. unfold keys, rounded. rewrite <- list_fmap_compose. by apply list_fmap_ext. Qed.

Lemma keys_alter (h : DayFoodEntry → Q) i es :
  keys (alter (λ e, with_grams e (h e)) i es) = keys es.
Proof.
  unfold keys. rewrite (list_fmap_alter key _ (λ k, k)); [by rewrite list_alter_id|].
  by apply Forall_forall.
Qed.

Lemma keys_insert i e g es :
  es !! i = Some e → keys (<[i := with_grams e g]> es) = keys es.
Proof.
  intros H. unfold keys. rewrite list_fmap_insert. apply list_insert_id.
  by rewrite list_lookup_fmap, H.
Qed.

Lemma nonneg_clamped selected : nonneg (clamped selected).
Proof.
  apply Forall_fmap, Forall_forall. intros e _. cbn. apply Q.le_max_l.
Qed.

Lemma nonneg_rounded es : nonneg es → nonneg (rounded es).
Proof.
  intros H. apply Forall_fmap. eapply Forall_impl; [done|].
  intros e He. cbn. by apply round2_nonneg.
Qed.

Lemma nonneg_lookup es i e : nonneg es → es !! i = Some e → (0 <= grams e)%Q.
Proof. intros H Hi. by apply (Forall_lookup_1 _ _ _ _ H Hi). Qed.

(** The fill loop only adds non-negative amounts to existing entries. *)
Lemma fill_keys sorted : ∀ remaining es, keys (fill sorted remaining es) = keys es.
Proof.
  induction sorted as [|item rest IH]; intros remaining es; [done|].
  cbn [fill]. destruct (Qleb remaining 0); [done|]. by rewrite IH, keys_alter.
Qed.

Lemma fill_nonneg sorted : ∀ remaining es, nonneg es → nonneg (fill sorted remaining es).
Proof.
  induction sorted as [|item rest IH]; intros remaining es H; [done|].
  cbn [fill]. destruct (Qleb remaining 0); [done|]. apply IH.
  apply Forall_alter; [done|]. intros e _ He. cbn.
  pose proof (Q.le_max_l 0 (remaining / item.2 * 100)). lra.
Qed.

Lemma assign_keys m group macro needed es es' :
  assign m group macro needed es = Some es' → keys es' = keys es.
Proof.
  unfold assign. destruct (_ || _); [by intros [= <-]|].
  destruct (mapM _ _); [|done]. cbn. intros [= <-]. apply fill_keys.
Qed.

Lemma assign_nonneg m group macro needed es es' :
  assign m group macro needed es = Some es' → nonneg es → nonneg es'.
Proof.
  unfold assign. destruct (_ || _); [by intros [= <-]|].
  destruct (mapM _ _); [|done]. cbn. intros [= <-]. apply fill_nonneg.
Qed.

Lemma group_of_ok m cat es : group_ok m es (group_of m cat es).
Proof.
  intros i Hi. unfold group_of in Hi.
  apply list_elem_of_In, filter_In in Hi as [_ Hi].
  destruct (es !! i) as [e|]; [|done]. cbn in Hi.
  unfold has_category in Hi. apply bool_decide_eq_true in Hi.
  destruct (m !! foodId e) as [food|] eqn:Hm; [|done]. by exists e, food.
Qed.

Lemma group_ok_keys m es es' group :
  keys es = keys es' → group_ok m es group → group_ok m es' group.
Proof.
  intros Hk H i Hi. destruct (H i Hi) as (e & food & He & Hm).
  destruct (keys_lookup es es' i e Hk He) as (e' & He' & Hf & _).
  exists e', food. by rewrite Hf.
Qed.

(** With at least one variant per food, [assign] does not throw. *)
Lemma assign_total m group macro needed es :
  resolvable m es → group_ok m es group → is_Some (assign m group macro needed es).
Proof.
  intros Hr Hg. unfold assign. destruct (_ || _); [by eexists|].
  assert (Hm : is_Some (mapM (with_density m macro es) group)).
  { apply mapM_is_Some, Forall_forall. intros i Hi.
    destruct (Hg i Hi) as (e & food & He & Hf). cbn. unfold with_density.
    rewrite He. cbn. rewrite Hf. cbn.
    destruct (getVariant_total food (basis e)) as [v ->]; [|by eexists].
    eapply Hr; [by eapply list_elem_of_lookup_2|done]. }
  destruct Hm as [ranked ->]. by eexists.
Qed.

Lemma seed_keys m target es es' : seed m target es = Some es' → keys es' = keys es.
Proof.
  unfold seed. cbn zeta.
  destruct (assign m _ macro_p _ es) as [es1|] eqn:E1; [|done]. cbn.
  destruct (assign m _ macro_c _ es1) as [es2|] eqn:E2; [|done]. cbn.
  intros E3. apply assign_keys in E1, E2, E3. congruence.
Qed.

Lemma seed_nonneg m target es es' : seed m target es = Some es' → nonneg es → nonneg es'.
Proof.
  unfold seed. cbn zeta.
  destruct (assign m _ macro_p _ es) as [es1|] eqn:E1; [|done]. cbn.
  destruct (assign m _ macro_c _ es1) as [es2|] eqn:E2; [|done]. cbn.
  eauto using assign_nonneg.
Qed.

Lemma seed_total m target es : resolvable m es → is_Some (seed m target es).
Proof.
  intros Hr. unfold seed. cbn zeta.
  destruct (assign_total m (group_of m protein es) macro_p (g_p target * 0.7) es Hr
              (group_of_ok _ _ _)) as [es1 E1]. rewrite E1. cbn.
  pose proof (assign_keys _ _ _ _ _ _ E1) as K1.
  destruct (assign_total m (group_of m carb es) macro_c (g_c target * 0.7) es1) as [es2 E2].
  { by eapply resolvable_keys. }
  { eapply group_ok_keys; [done|apply group_of_ok]. }
  rewrite E2. cbn. pose proof (assign_keys _ _ _ _ _ _ E2) as K2.
  apply assign_total.
  - eapply resolvable_keys; [|done]. congruence.
  - eapply group_ok_keys; [|apply group_of_ok]. congruence.
Qed.


End Seeding.

Section LocalSearch.
Import Calc Solver.

Implicit Types (m : FoodsMap) (e : DayFoodEntry) (es out : list DayFoodEntry).
Implicit Types (target : MacroTarget) (b : Best).

Lemma score_nonneg target t : (0 <= score target t)%Q.
Proof.
  unfold score. pose proof (Qabs_nonneg (g_p target - t_p t)).
  pose proof (Qabs_nonneg (g_c target - t_c t)).
  pose proof (Qabs_nonneg (g_f target - t_f t)). lra.
Qed.

Lemma best_ok_bound m target es base b :
  best_ok m target es base b → (bestScore b <= base)%Q.
Proof.
  intros [[_ ->]|(idx & e & t & _ & _ & _ & _ & _ & _ & H)]; plain_literals; lra.
Qed.

(** A trial keeps what is known about the best move. *)
Lemma try_delta_ok m target es base idx b delta b' :
  try_delta m target es idx b delta = Some b' →
  delta = step ∨ delta = (- step)%Q →
  best_ok m target es base b → best_ok m target es base b'.
Proof.
  unfold try_delta. intros H Hd Hb.
  destruct (es !! idx) as [e|] eqn:He; [|by injection H as <-].
  destruct (Qltb (grams e + delta) 0) eqn:Hneg; [by injection H as <-|].
  destruct (computeTotals _ m) as [t|] eqn:Ht; [|done]. cbn [mbind option_bind] in H.
  destruct (Qltb (score target t) (bestScore b - 1e-9)) eqn:Hs;
    injection H as <-; [|done].
  right. exists idx, e, t. cbn [bestIdx bestScore bestDelta].
  apply Qltb_ge in Hneg. apply Qltb_lt in Hs.
  pose proof (best_ok_bound _ _ _ _ _ Hb). split_and!; try done.
  plain_literals. lra.
Qed.

Lemma try_index_ok m target es base idx b b' :
  try_index m target es idx b = Some b' →
  best_ok m target es base b → best_ok m target es base b'.
Proof.
  unfold try_index. destruct (try_delta m target es idx b step) as [b1|] eqn:E1; [|done].
  cbn. intros E2 Hb.
  eapply try_delta_ok; [exact E2|by right|]. eapply try_delta_ok; [exact E1|by left|done].
Qed.

Lemma scan_moves_ok m target es base idxs : ∀ b b',
  scan_moves m target es idxs b = Some b' →
  best_ok m target es base b → best_ok m target es base b'.
Proof.
  induction idxs as [|idx rest IH]; intros b b'; [by intros [= <-]|].
  cbn [scan_moves]. destruct (try_index m target es idx b) as [b1|] eqn:E1; [|done].
  cbn. intros E2 Hb. eapply IH; [done|]. by eapply try_index_ok.
Qed.

Lemma entry_equiv_refl e : entry_equiv e e.
Proof. by split_and!. Qed.

Lemma insert_equiv es i e1 e2 :
  entry_equiv e1 e2 → Forall2 entry_equiv (<[i := e1]> es) (<[i := e2]> es).
Proof.
  intros H. apply Forall2_insert; [|done].
  apply Forall_Forall2_diag, Forall_forall. intros e _. apply entry_equiv_refl.
Qed.

(** An applied move: what was checked in the trial holds for the entries the
    loop goes on with. *)
Lemma iterate_moved m target es es' :
  iterate m target es = Some (Moved es') →
  ∃ idx e delta t t',
    es !! idx = Some e
    ∧ (delta = step ∨ delta = (- step)%Q)
    ∧ (0 <= grams e + delta)%Q
    ∧ (Qmax 0 (grams e + delta) == grams e + delta)%Q
    ∧ es' = <[idx := with_grams e (Qmax 0 (grams e + delta))]> es
    ∧ computeTotals es m = Some t
    ∧ computeTotals es' m = Some t'
    ∧ (score target t' < score target t - 1e-9)%Q.
Proof.
  unfold iterate. destruct (computeTotals es m) as [t|] eqn:Ht; [|done]. cbn.
  destruct (Qltb (score target t) 1); [done|].
  destruct (scan_moves _ _ _ _ _) as [b|] eqn:Hscan; [|done]. cbn.
  destruct (bestIdx b <? 0)%Z eqn:Hidx; [done|]. apply Z.ltb_ge in Hidx.
  apply (scan_moves_ok m target es (score target t)) in Hscan; [|by left].
  destruct Hscan as [[Hi _]|(idx & e & t' & Hi & He & Hd & Hpos & Ht' & Hs & Hlt)];
    [lia|].
  rewrite Hi, Nat2Z.id, He. intros [= <-].
  assert (Hmax : (Qmax 0 (grams e + bestDelta b) == grams e + bestDelta b)%Q)
    by (by apply Q.max_r).
  exists idx, e, (bestDelta b), t, t'. split_and!; try done.
  - rewrite <- Ht'. apply computeTotals_equiv, insert_equiv. by split_and!.
  - by rewrite <- Hs.
Qed.

Lemma moves_keys m target es es' : moves m target es es' → keys es' = keys es.
Proof.
  intros (idx & e & delta & t & t' & He & _ & _ & _ & -> & _)%iterate_moved.
  by apply keys_insert.
Qed.

Lemma moves_nonneg m target es es' : moves m target es es' → nonneg es → nonneg es'.
Proof.
  intros (idx & e & delta & t & t' & He & _ & _ & _ & -> & _)%iterate_moved H.
  apply Forall_insert; [done|]. cbn. apply Q.le_max_l.
Qed.

(** The loop returns the entries that a chain of applied moves leads to. *)
Lemma search_moves m target n : ∀ es out,
  search m target n es = Some out →
  ∃ k, (k <= n)%nat ∧ nsteps (moves m target) k es out.
Proof.
  induction n as [|n IH]; intros es out.
  - intros [= <-]. exists 0%nat. split; [lia|constructor].
  - cbn [search]. destruct (iterate m target es) as [[|es']|] eqn:E; [| |done]; cbn.
    + intros [= <-]. exists 0%nat. split; [lia|constructor].
    + intros (k & Hk & Hs)%IH. exists (S k). split; [lia|].
      by apply (nsteps_l _ _ _ es').
Qed.

(** Each applied move lowers the deviation by more than 1e-9. *)
Lemma nsteps_score m target k : ∀ es out t,
  nsteps (moves m target) k es out → computeTotals es m = Some t →
  ∃ t', computeTotals out m = Some t'
        ∧ (score target t' <= score target t - inject_Z (Z.of_nat k) * 1e-9)%Q.
Proof.
  induction k as [|k IH]; intros es out t Hs Ht.
  - inversion Hs; subst. exists t. split; [done|]. change (inject_Z (Z.of_nat 0)) with 0%Q. lra.
  - inversion Hs as [|? ? es' ? Hm Hs']; subst.
    destruct (iterate_moved _ _ _ _ Hm)
      as (idx & e & delta & t0 & t1 & _ & _ & _ & _ & _ & Ht0 & Ht1 & Hlt).
    rewrite Ht in Ht0. injection Ht0 as <-.
    destruct (IH es' out t1 Hs' Ht1) as (t' & Ht' & Hle).
    exists t'. split; [done|].
    rewrite Nat2Z.inj_succ, <- Z.add_1_r, inject_Z_plus. change (inject_Z 1) with 1%Q.
    plain_literals. lra.
Qed.

Lemma try_delta_total m target es idx b delta :
  resolvable m es → is_Some (try_delta m target es idx b delta).
Proof.
  intros Hr. unfold try_delta. destruct (es !! idx) as [e|] eqn:He; [|by eexists].
  destruct (Qltb _ 0); [by eexists|].
  destruct (computeTotals_total m (<[idx := with_grams e (grams e + delta)]> es))
    as [t ->].
  { eapply resolvable_keys; [|done]. symmetry. by apply keys_insert. }
  cbn. destruct (Qltb _ _); by eexists.
Qed.

Lemma scan_moves_total m target es idxs :
  resolvable m es → ∀ b, is_Some (scan_moves m target es idxs b).
Proof.
  intros Hr. induction idxs as [|idx rest IH]; intros b; [by eexists|].
  cbn [scan_moves]. unfold try_index.
  destruct (try_delta_total m target es idx b step Hr) as [b1 ->]. cbn.
  destruct (try_delta_total m target es idx b1 (- step)%Q Hr) as [b2 ->]. cbn.
  apply IH.
Qed.

Lemma iterate_total m target es : resolvable m es → is_Some (iterate m target es).
Proof.
  intros Hr. unfold iterate. destruct (computeTotals_total m es Hr) as [t ->]. cbn.
  destruct (Qltb _ 1); [by eexists|].
  destruct (scan_moves_total m target es (seq 0 (length es)) Hr
              (mkBest (score target t) (-1) 0)) as [b ->]. cbn.
  destruct (_ <? _)%Z; [by eexists|]. destruct (es !! _); by eexists.
Qed.

Lemma search_total m target n : ∀ es, resolvable m es → is_Some (search m target n es).
Proof.
  induction n as [|n IH]; intros es Hr; [by eexists|].
  cbn [search]. destruct (iterate_total m target es Hr) as [[|es'] E]; rewrite E; cbn.
  - by eexists.
  - apply IH. eapply resolvable_keys; [|done]. symmetry. by eapply moves_keys.
Qed.

Lemma search_keys m target n es out : search m target n es = Some out → keys out = keys es.
Proof.
  intros (k & _ & Hs)%search_moves. induction Hs as [|k es es' out Hm _ IH]; [done|].
  rewrite IH. by eapply moves_keys.
Qed.

Lemma search_nonneg m target n es out :
  search m target n es = Some out → nonneg es → nonneg out.
Proof.
  intros (k & _ & Hs)%search_moves. induction Hs as [|k es es' out Hm _ IH]; [done|].
  intros H. apply IH. by eapply moves_nonneg.
Qed.



(** C10. An applied move adds [step] or [-step] to one entry whose
    quantity stays non-negative, so the clamp leaves it as it is, and the
    deviation of the new entries is lower by more than 1e-9; the loop
    returns what at most that many applied moves lead to; after [k] moves
    the deviation has dropped by at least [k] times 1e-9; and, for entries
    whose foods have a variant, the loop returns entries whose deviation is
    not above the one it started from. *)
Theorem local_search_descends (m : FoodsMap) (target : MacroTarget) :
  (∀ es es', moves m target es es' →
     ∃ idx e delta t t',
       es !! idx = Some e
       ∧ (delta = step ∨ delta = (- step)%Q)
       ∧ (0 <= grams e + delta)%Q
       ∧ (Qmax 0 (grams e + delta) == grams e + delta)%Q
       ∧ es' = <[idx := with_grams e (Qmax 0 (grams e + delta))]> es
       ∧ computeTotals es m = Some t
       ∧ computeTotals es' m = Some t'
       ∧ (score target t' < score target t - 1e-9)%Q)
  ∧ (∀ n es out, search m target n es = Some out →
       ∃ k, (k <= n)%nat ∧ nsteps (moves m target) k es out)
  ∧ (∀ k es out t, nsteps (moves m target) k es out → computeTotals es m = Some t →
       ∃ t', computeTotals out m = Some t'
             ∧ (score target t' <= score target t - inject_Z (Z.of_nat k) * 1e-9)%Q)
  ∧ (∀ n es, resolvable m es →
       ∃ out t t', search m target n es = Some out
                   ∧ computeTotals es m = Some t
                   ∧ computeTotals out m = Some t'
                   ∧ (score target t' <= score target t)%Q).
Proof.
  split_and!.
  - apply iterate_moved.
  - apply search_moves.
  - intros k. apply nsteps_score.
  - intros n es Hr. destruct (search_total m target n es Hr) as [out Hout].
    destruct (computeTotals_total m es Hr) as [t Ht].
    destruct (search_moves _ _ _ _ _ Hout) as (k & _ & Hs).
    destruct (nsteps_score _ _ _ _ _ _ Hs Ht) as (t' & Ht' & Hle).
    exists out, t, t'. split_and!; try done.
    assert (0 <= inject_Z (Z.of_nat k))%Q
      by (change 0%Q with (inject_Z 0); rewrite <- Zle_Qle; lia).
    plain_literals. nra.
Qed.

End LocalSearch.

Section Solving.
Import Calc Solver.

Implicit Types (m : FoodsMap) (e : DayFoodEntry) (es out : list DayFoodEntry).
Implicit Types (target : MacroTarget).

Lemma catalog_wf_sample : catalog_wf catalog.
Proof.
  intros k food Hk. unfold catalog in Hk.
  apply lookup_insert_Some in Hk as [[_ <-]|[_ Hk]]; [done|].
  apply lookup_insert_Some in Hk as [[_ <-]|[_ Hk]]; [done|].
  by rewrite lookup_empty in Hk.
Qed.

Lemma greedyGenerate_unfold selected m target :
  greedyGenerate selected m target
  = seed m target (clamped selected) ≫= λ es,
    search m target 1500 es ≫= λ es', Some (rounded es').
Proof. done. Qed.

(** C3. For entries whose foods have a variant, whatever the quantities
    and the target, [greedyGenerate] returns a list with the same foods and
    bases at the same positions, nothing added or removed, in which no
    quantity is negative. *)
Theorem greedyGenerate_entries (selected : list DayFoodEntry) (m : FoodsMap)
    (target : MacroTarget) :
  resolvable m selected →
  ∃ out, greedyGenerate selected m target = Some out
    ∧ length out = length selected
    ∧ keys out = keys selected
    ∧ (∀ i e, selected !! i = Some e →
         ∃ e', out !! i = Some e' ∧ foodId e' = foodId e ∧ basis e' = basis e)
    ∧ (∀ i e', out !! i = Some e' → (0 <= grams e')%Q).
Proof.
  intros Hr. rewrite greedyGenerate_unfold.
  assert (Hr0 : resolvable m (clamped selected))
    by (eapply resolvable_keys; [|done]; symmetry; apply keys_clamped).
  destruct (seed_total m target _ Hr0) as [es1 E1]. rewrite E1. cbn [mbind option_bind].
  pose proof (seed_keys _ _ _ _ E1) as K1.
  pose proof (seed_nonneg _ _ _ _ E1 (nonneg_clamped selected)) as N1.
  destruct (search_total m target 1500 es1) as [es2 E2].
  { eapply resolvable_keys; [|exact Hr0]. by symmetry. }
  rewrite E2. pose proof (search_keys _ _ _ _ _ E2) as K2.
  pose proof (search_nonneg _ _ _ _ _ E2 N1) as N2.
  assert (K : keys (rounded es2) = keys selected)
    by (rewrite keys_rounded, K2, K1; apply keys_clamped).
  exists (rounded es2). split_and!; try done.
  - by apply keys_length.
  - intros i e He. by apply (keys_lookup selected (rounded es2)).
  - intros i e' He'. by eapply nonneg_lookup; [apply nonneg_rounded|].
Qed.

Lemma greedyGenerate_entries_witness :
  ∃ out, greedyGenerate plate catalog lunch_target = Some out
    ∧ length out = 3%nat
    ∧ (∀ i e', out !! i = Some e' → (0 <= grams e')%Q).
Proof.
  destruct (greedyGenerate_entries plate catalog lunch_target
              (catalog_wf_resolvable _ _ catalog_wf_sample))
    as (out & Hout & Hlen & _ & _ & Hpos).
  exists out. split; [exact Hout|]. split; [exact Hlen|exact Hpos].
Defined.


(** Under an all-zero target the local search need not move either: 4 g of
    rice, which score 3.38, stay, a step down being negative and a step up
    being worse. *)
Example greedyGenerate_zero_target_stuck :
  ∃ s e, deviation catalog no_target [mkEntry "rice" raw 4] = Some s
         ∧ (s == 3.38)%Q
         ∧ greedyGenerate [mkEntry "rice" raw 4] catalog no_target = Some [e]
         ∧ (grams e == 4)%Q.
Proof.
  eexists. eexists. split; [vm_compute; reflexivity|]. split; [reflexivity|].
  split; [vm_compute; reflexivity|reflexivity].
Qed.



(** C5. For an entry whose food has no variants the aggregator and the
    solver raise, where the claim has them return a default.  The other
    readers of [variants] accept the same entry: the row of the workbook
    finds no variant and has zeros, and ticking the food takes [raw] as
    its basis. *)
Lemma empty_variants_abort :
  bad_catalog !! foodId (mkEntry "ghost" raw 10) = Some ghost
  ∧ variants ghost = []
  ∧ computeTotals ghost_plate bad_catalog = None
  ∧ greedyGenerate ghost_plate bad_catalog lunch_target = None
  ∧ ExportXlsx.row_variant bad_catalog (mkEntry "ghost" raw 10) = None
  ∧ (∀ t, (ExportXlsx.protein_g
             (ExportXlsx.plan_row bad_catalog t (mkEntry "ghost" raw 10)) == 0)%Q)
  ∧ App.first_basis bad_catalog "ghost" = raw.
Proof. split_and!; by vm_compute. Qed.

Lemma sum_entries_Some_resolvable m es : ∀ acc,
  is_Some (sum_entries m es acc) → resolvable m es.
Proof.
  induction es as [|e es IH]; intros acc H; [by intros e food ?%elem_of_nil|].
  cbn [sum_entries] in H. destruct (add_entry m acc e) as [acc'|] eqn:E; [|by destruct H].
  intros e' food [->|He']%elem_of_cons Hm; [|by eapply IH].
  unfold add_entry in E. rewrite Hm in E.
  destruct (getVariant food (basis e)) as [v|] eqn:Hv; [|done].
  rewrite getVariant_spec in Hv. apply spec_variant_elem in Hv.
  intros Hnil. rewrite Hnil in Hv. by apply elem_of_nil in Hv.
Qed.

(** The aggregator raises exactly when some entry's food has no variant. *)
Lemma computeTotals_Some_iff m es : is_Some (computeTotals es m) ↔ resolvable m es.
Proof.
  split; [|apply computeTotals_total]. unfold computeTotals. intros H.
  apply (sum_entries_Some_resolvable m es (mkTotals 0 0 0 0)).
  by destruct (sum_entries _ _ _); [eexists|destruct H].
Qed.

(** X25. When every food that an entry refers to has at least one
    variant, the aggregator and the solver return a result: unknown foods,
    negative quantities, zero densities, empty lists and zero targets
    raise nothing. *)
Theorem core_never_aborts (es : list DayFoodEntry) (m : FoodsMap)
    (target : MacroTarget) :
  resolvable m es →
  is_Some (computeTotals es m) ∧ is_Some (greedyGenerate es m target).
Proof.
  intros Hr. split; [by apply computeTotals_total|].
  assert (Hr0 : resolvable m (clamped es))
    by (eapply resolvable_keys; [|done]; symmetry; apply keys_clamped).
  rewrite greedyGenerate_unfold.
  destruct (seed_total m target _ Hr0) as [es1 E1]. rewrite E1. cbn [mbind option_bind].
  destruct (search_total m target 1500 es1) as [es2 ->]; [|by eexists].
  eapply resolvable_keys; [|exact Hr0]. symmetry. by eapply seed_keys.
Qed.

Lemma core_never_aborts_witness :
  is_Some (computeTotals plate catalog)
  ∧ is_Some (greedyGenerate plate catalog lunch_target).
Proof.
  apply (core_never_aborts plate catalog lunch_target).
  apply catalog_wf_resolvable, catalog_wf_sample.
Defined.

End Solving.

(** ** The scenarios of the specification, run on the embedding *)

Section Scenarios.
Import Calc Solver.

(** Scenario B: per-day carbohydrate 175, 122.5 and 105 out of 700. *)
Example scenario_B :
  carbTarget <$> dayTargets (calculateCycle profile_A)
  = [175.00; 122.50; 105.00; 122.50; 175.00]%Q.
Proof. by vm_compute. Qed.

(** Scenario C on one placement: the last High day becomes Medium. *)
Example scenario_C :
  normalizePlacement (with_placement profile_A [High; Low; High; Medium; High])
  = [High; Low; High; Medium; Medium].
Proof. by vm_compute. Qed.

(** Scenario D: one food with 20 g of protein per 100 g, target 40 g: the
    seeding gives 140 g and twelve moves of 5 g lead to 200 g. *)
Example scenario_D :
  (∃ e, seed catalog (mkTarget 40 0 0) (clamped [mkEntry "chicken" raw 0]) = Some [e]
        ∧ (grams e == 140)%Q)
  ∧ greedyGenerate [mkEntry "chicken" raw 0] catalog (mkTarget 40 0 0)
    = Some [mkEntry "chicken" raw 200.00].
Proof.
  split; [|by vm_compute]. eexists. split; [by vm_compute|reflexivity].
Qed.

(** The aggregator on a basis without variant, an unknown food and a
    negative quantity. *)
Example totals_sample :
  computeTotals [mkEntry "rice" fresh 100; mkEntry "rice" cooked 100;
                 mkEntry "tofu" raw 50; mkEntry "chicken" raw (-5)] catalog
  = Some (mkTotals 0.00 9.60 105.00 0.90).
Proof. by vm_compute. Qed.

End Scenarios.

(** * Properties in the binary64 view *)

(** ** Signs and comparisons of doubles *)

Section Binary64Numbers.
Import Binary64.

(** [Math_round] is [Math.round]: ties go up, also below zero, and no sum
    [x + 0.5] is rounded on the way. *)
Example Math_round_ties :
  Math_round 0.5 = 1%float ∧ Math_round 2.5 = 3%float
  ∧ Math_round (-2.5) = (-2)%float ∧ Math_round (-0.5) = (-0)%float
  ∧ Math_round 0.49999999999999994 = 0%float
  ∧ Math_round 13132.499999999998 = 13132%float
  ∧ Math_round 4503599627370497 = 4503599627370497%float.
Proof. split_and!; by vm_compute. Qed.

Lemma not_negative_spec x : not_negative x ↔ sf_notneg (Prim2SF x) = true.
Proof.
  unfold not_negative. rewrite FloatAxioms.ltb_spec.
  change (Prim2SF 0) with (S754_zero false).
  destruct (Prim2SF x) as [s|[]| |[] m e]; cbn; intuition congruence.
Qed.

(** Rounding a magnitude keeps the sign it is given. *)
Lemma binary_round_aux_sign m e l :
  sf_notneg (binary_round_aux prec emax false m e l) = true.
Proof.
  unfold binary_round_aux.
  destruct (shr_fexp prec emax m e l) as [mrs' e'].
  destruct (shr_fexp prec emax _ e' loc_Exact) as [mrs'' e''].
  destruct (shr_m mrs'') as [|q|q]; [done| |done].
  by destruct (e'' <=? emax - prec)%Z.
Qed.

Lemma binary_normalize_sign (z : Z) e :
  (0 <= z)%Z → sf_notneg (binary_normalize prec emax z e false) = true.
Proof.
  intros Hz. destruct z as [|q|q]; [done| |lia]. cbn [binary_normalize].
  unfold binary_round. destruct (shl_align _ _ _) as [mz ez]. apply binary_round_aux_sign.
Qed.

Lemma not_negative_mul x y : not_negative x → not_negative y → not_negative (x * y).
Proof.
  rewrite !not_negative_spec, FloatAxioms.mul_spec. unfold SF64mul.
  destruct (Prim2SF x) as [[]|[]| |[] mx ex], (Prim2SF y) as [[]|[]| |[] my ey];
    try done. intros _ _. apply binary_round_aux_sign.
Qed.

Lemma not_negative_div x y :
  not_negative x → (0 <? y)%float = true → not_negative (x / y).
Proof.
  rewrite !not_negative_spec, FloatAxioms.ltb_spec, FloatAxioms.div_spec. unfold SF64div.
  change (Prim2SF 0) with (S754_zero false).
  destruct (Prim2SF x) as [[]|[]| |[] mx ex], (Prim2SF y) as [[]|[]| |[] my ey];
    try done. intros _ _. cbn [SFdiv xorb].
  destruct (SFdiv_core_binary prec emax (Z.pos mx) ex (Z.pos my) ey) as [[mz ez] lz].
  apply binary_round_aux_sign.
Qed.

Lemma not_negative_add x y : not_negative x → not_negative y → not_negative (x + y).
Proof.
  rewrite !not_negative_spec, FloatAxioms.add_spec. unfold SF64add.
  destruct (Prim2SF x) as [[]|[]| |[] mx ex], (Prim2SF y) as [[]|[]| |[] my ey];
    try done. intros _ _. cbn [SFadd cond_Zopp]. apply binary_normalize_sign. lia.
Qed.

Lemma not_negative_of_uint63 n : not_negative (of_uint63 n).
Proof.
  rewrite not_negative_spec, FloatAxioms.of_uint63_spec. apply binary_normalize_sign.
  apply Uint63.to_Z_bounded.
Qed.

Lemma not_negative_Math_max0 x : not_negative (Math_max0 x).
Proof.
  unfold Math_max0. destruct (is_nan x); [done|].
  destruct (0 <? x)%float eqn:E; [|done].
  rewrite FloatAxioms.ltb_spec in E. apply not_negative_spec.
  change (Prim2SF 0) with (S754_zero false) in E.
  by destruct (Prim2SF x) as [[]|[]| |[] mx ex].
Qed.

Lemma not_negative_Math_round x : not_negative x → not_negative (Math_round x).
Proof.
  intros H. unfold Math_round.
  destruct (Prim2SF x) as [s|s| |s m e] eqn:E; try done.
  destruct (0 <=? e)%Z; [done|].
  apply not_negative_spec in H. rewrite E in H. destruct s; [done|].
  apply not_negative_of_uint63.
Qed.

Lemma not_negative_round2 x : not_negative x → not_negative (round2 x).
Proof.
  intros H. unfold round2. apply not_negative_div; [|done].
  apply not_negative_Math_round. by apply not_negative_mul.
Qed.

Lemma SFcompare_antisym x y : SFcompare y x = CompOpp <$> SFcompare x y.
Proof.
  destruct x as [[]|[]| |[] mx ex], y as [[]|[]| |[] my ey]; try done; cbn;
    rewrite (Z.compare_antisym ex ey); destruct (ex ?= ey)%Z; cbn; try done;
    rewrite (Pos.compare_cont_antisym mx my Eq); cbn; by rewrite ?CompOpp_involutive.
Qed.

(** On numbers, [x < y] fails exactly when [y <= x] holds. *)
Lemma ltb_false_leb x y :
  is_nan x = false → is_nan y = false → (x <? y)%float = false ↔ (y <=? x)%float = true.
Proof.
  unfold is_nan.
  rewrite !negb_false_iff, !FloatAxioms.eqb_spec, FloatAxioms.ltb_spec,
    FloatAxioms.leb_spec.
  unfold SFeqb, SFltb, SFleb. rewrite (SFcompare_antisym (Prim2SF x) (Prim2SF y)).
  intros Hx Hy.
  destruct (SFcompare (Prim2SF x) (Prim2SF y)) as [[]|] eqn:E; cbn; [split; done..|].
  exfalso. revert Hx Hy E.
  by destruct (Prim2SF x) as [[]|[]| |[] mx ex], (Prim2SF y) as [[]|[]| |[] my ey].
Qed.

(** A number that is not below zero is at least zero. *)
Lemma not_negative_leb x : not_negative x → is_nan x = false → (0 <=? x)%float = true.
Proof. intros H Hx. by apply ltb_false_leb. Qed.

Lemma is_nan_spec x : is_nan x = true ↔ Prim2SF x = S754_nan.
Proof.
  unfold is_nan. rewrite negb_true_iff, FloatAxioms.eqb_spec. unfold SFeqb.
  destruct (Prim2SF x) as [[]|[]| |[] mx ex]; cbn; try (split; done);
    rewrite Z.compare_refl, Pos.compare_cont_refl; split; done.
Qed.

Lemma iter_pos_invariant {A} (P : A → Prop) (f : A → A) :
  (∀ x, P x → P (f x)) → ∀ n x, P x → P (SpecFloat.iter_pos f n x).
Proof. intros Hf. induction n as [n IH|n IH|]; intros x Hx; cbn; auto. Qed.

Lemma shr_1_nonneg mrs : (0 <= shr_m mrs)%Z → (0 <= shr_m (shr_1 mrs))%Z.
Proof. destruct mrs as [[|[p|p|]|p] r s]; cbn; lia. Qed.

Lemma shr_fexp_nonneg m e l :
  (0 <= m)%Z → (0 <= shr_m (shr_fexp prec emax m e l).1)%Z.
Proof.
  intros Hm. unfold shr_fexp, shr.
  assert (H0 : (0 <= shr_m (shr_record_of_loc m l))%Z) by (by destruct l as [|[]]).
  destruct (fexp prec emax (Zdigits2 m + e) - e)%Z; cbn [fst]; [done| |done].
  by apply (iter_pos_invariant (λ r, (0 <= shr_m r)%Z)); [apply shr_1_nonneg|].
Qed.

Lemma round_nearest_even_nonneg m l : (0 <= m)%Z → (0 <= round_nearest_even m l)%Z.
Proof. intros Hm. destruct l as [|[]]; cbn; [done| |done|lia]. destruct (Z.even m); lia. Qed.

(** Rounding a magnitude gives a number. *)
Lemma binary_round_aux_number s m e l :
  (0 <= m)%Z → binary_round_aux prec emax s m e l ≠ S754_nan.
Proof.
  intros Hm. unfold binary_round_aux.
  pose proof (shr_fexp_nonneg m e l Hm) as H1.
  destruct (shr_fexp prec emax m e l) as [mrs' e']. cbn [fst] in H1.
  pose proof (shr_fexp_nonneg _ e' loc_Exact
                (round_nearest_even_nonneg _ (loc_of_shr_record mrs') H1)) as H2.
  destruct (shr_fexp prec emax _ e' loc_Exact) as [mrs'' e'']. cbn [fst] in H2.
  destruct (shr_m mrs'') as [|q|q]; [done| |lia].
  by destruct (e'' <=? emax - prec)%Z.
Qed.

Lemma binary_normalize_number z e b : binary_normalize prec emax z e b ≠ S754_nan.
Proof.
  destruct z as [|q|q]; [done|..]; cbn [binary_normalize]; unfold binary_round;
    destruct (shl_align _ _ _) as [mz ez]; by apply binary_round_aux_number.
Qed.

(** The distance of a number to 1 is a number. *)
Lemma is_nan_distance x : is_nan (abs (x - 1)) = is_nan x.
Proof.
  apply eq_true_iff_eq. rewrite !is_nan_spec, FloatAxioms.abs_spec, FloatAxioms.sub_spec.
  unfold SF64sub. change (Prim2SF 1) with (S754_finite false 4503599627370496 (-52)).
  destruct (Prim2SF x) as [[]|[]| |sx mx ex]; cbn [SFsub SFabs]; try done.
  split; [|done]. intros H. exfalso. revert H.
  match goal with |- context [binary_normalize ?p ?q ?z ?e ?b] =>
    pose proof (binary_normalize_number z e b) as Hn;
    destruct (binary_normalize p q z e b) end; done.
Qed.

End Binary64Numbers.

(** ** ProfileValidator: [validateProfile] *)

Section Binary64Validation.
Import Binary64.

(** C7. [validateProfile] is the concatenation of four independent
    reports, one per check, each empty exactly when its check holds: the
    list is empty iff the counts sum to [cycleDays], each of the two share
    sums is within 1e-6 of 1 and the placement has the required counts,
    and its length is the number of failing checks.  The share sums and
    their distance to 1 are the doubles the code computes; a sum is within
    the tolerance when the test [|sum - 1| > 1e-6] fails, which for a sum
    that is a number is [|sum - 1| <= 1e-6], and which a [NaN] sum passes
    as well.  (The function only reads the profile: it returns
    nothing but the list.) *)
Theorem validateProfile_checks (p : PlannerProfile) :
  ∃ f1 f2 f3 f4 : bool,
    (f1 = false ↔ counts_sum_ok p)
    ∧ (f2 = false ↔ shares_ok (carbShares p))
    ∧ (f3 = false ↔ shares_ok (fatShares p))
    ∧ (f4 = false ↔ placement_ok p)
    ∧ validateProfile p
      = report f1 "Day counts must sum to cycle days."
        ++ report f2 "Carb shares must sum to 1.0."
        ++ report f3 "Fat shares must sum to 1.0."
        ++ report f4 "Day placement must keep fixed counts for High/Medium/Low."
    ∧ length (validateProfile p)
      = (Nat.b2n f1 + Nat.b2n f2 + Nat.b2n f3 + Nat.b2n f4)%nat
    ∧ (validateProfile p = [] ↔
       counts_sum_ok p ∧ shares_ok (carbShares p) ∧ shares_ok (fatShares p)
       ∧ placement_ok p)
    ∧ (∀ s, is_nan (share_sum s) = false →
            (shares_ok s ↔ (abs (share_sum s - 1) <=? 1e-6)%float = true))
    ∧ (∀ s, is_nan (share_sum s) = true → shares_ok s).
Proof.
  set (f1 := bool_decide ((nHigh p + nMed p + nLow p)%Z ≠ cycleDays p)).
  set (f2 := (1e-6 <? abs (share_sum (carbShares p) - 1))%float).
  set (f3 := (1e-6 <? abs (share_sum (fatShares p) - 1))%float).
  set (f4 := bool_decide (atHigh (Calc.count (dayPlacement p)) ≠ nHigh p)
             || bool_decide (atMedium (Calc.count (dayPlacement p)) ≠ nMed p)
             || bool_decide (atLow (Calc.count (dayPlacement p)) ≠ nLow p)).
  assert (H1 : f1 = false ↔ counts_sum_ok p).
  { unfold f1, counts_sum_ok. rewrite bool_decide_eq_false. split; [|tauto].
    intros H. by destruct (decide ((nHigh p + nMed p + nLow p)%Z = cycleDays p)). }
  assert (H2 : f2 = false ↔ shares_ok (carbShares p)) by done.
  assert (H3 : f3 = false ↔ shares_ok (fatShares p)) by done.
  assert (H4 : f4 = false ↔ placement_ok p).
  { unfold f4, placement_ok, required.
    rewrite !orb_false_iff, !bool_decide_eq_false.
    destruct (Calc.count (dayPlacement p)) as [h m l]; cbn. split.
    - intros [[Hh Hm] Hl]. f_equal.
      + by destruct (decide (h = nHigh p)).
      + by destruct (decide (m = nMed p)).
      + by destruct (decide (l = nLow p)).
    - intros [= -> -> ->]. tauto. }
  assert (Hv : validateProfile p
      = report f1 "Day counts must sum to cycle days."
        ++ report f2 "Carb shares must sum to 1.0."
        ++ report f3 "Fat shares must sum to 1.0."
        ++ report f4 "Day placement must keep fixed counts for High/Medium/Low.").
  { unfold validateProfile. fold (share_sum (carbShares p)) (share_sum (fatShares p)).
    fold f1 f2 f3 f4. by destruct f1, f2, f3, f4. }
  exists f1, f2, f3, f4. split_and!; try done.
  - rewrite Hv, !length_app, !report_length. lia.
  - rewrite Hv, <- H1, <- H2, <- H3, <- H4.
    destruct f1, f2, f3, f4; cbn; intuition (discriminate || auto).
  - intros s Hs. unfold shares_ok. apply ltb_false_leb; [done|].
    by rewrite is_nan_distance.
  - intros s Hs%is_nan_spec. unfold shares_ok.
    rewrite FloatAxioms.ltb_spec, FloatAxioms.abs_spec, FloatAxioms.sub_spec, Hs.
    by destruct (Prim2SF 1e-6).
Qed.

(** At the edge of the tolerance the doubles decide: the fat shares 0.4,
    0.3 and 0.299999 are reported, although their sum is within 1e-6 of 1
    both as decimals and as the exact values of the three doubles. *)
Example validateProfile_edge :
  validateProfile profile_edge = ["Fat shares must sum to 1.0."%string]
  ∧ Qle_bool (Qabs ((4 # 10) + (3 # 10) + (299999 # 1000000) - 1)) (1 # 1000000) = true
  ∧ Qle_bool (Qabs (exact 0.4 + exact 0.3 + exact 0.299999 - 1)) (exact 1e-6) = true.
Proof. split_and!; vm_compute; reflexivity. Qed.

End Binary64Validation.

(** ** TargetAllocator: [calculateCycle] *)

Section Binary64Allocation.
Import Binary64.


(** The rounding is that of the doubles: for a valid profile of 51.5 kg
    with a High share of 0.51 over two days the High target is 131.32,
    where the formula gives 131.325 in exact arithmetic. *)
Example calculateCycle_tie :
  validateProfile profile_tie = []
  ∧ carbTarget <$> dayTargets (calculateCycle profile_tie) !! 0%nat = Some 131.32%float
  ∧ (exact 51.5 * 2 * 5 * (51 # 100) / 2 == 131325 # 1000)%Q.
Proof. split_and!; by vm_compute. Qed.

(** Scenario B in doubles: per-day carbohydrate 175, 122.5 and 105 out of
    700. *)
Example scenario_B_doubles :
  carbTarget <$> dayTargets (calculateCycle profile_A)
  = [175; 122.5; 105; 122.5; 175]%float.
Proof. by vm_compute. Qed.

End Binary64Allocation.

(** ** TotalsAggregator: [computeTotals] *)

Section Binary64Aggregation.
Import Binary64.

Implicit Types (m : FoodsMap) (es : list DayFoodEntry) (e : DayFoodEntry).

Lemma getVariant_spec_b64 food b : getVariant food b = spec_variant food b.
Proof.
  unfold getVariant, spec_variant. rewrite find_head_filter.
  destruct (filter _ _); [|done]. by destruct (variants food).
Qed.

Lemma getVariant_total_b64 food b : variants food ≠ [] → is_Some (getVariant food b).
Proof.
  intros H. unfold getVariant. destruct (List.find _ _); [by eexists|].
  destruct (variants food); [done|by eexists].
Qed.

Lemma resolvable_cons_b64 m e es :
  resolvable m (e :: es)
  ↔ (∀ food, m !! foodId e = Some food → variants food ≠ []) ∧ resolvable m es.
Proof.
  unfold resolvable. split.
  - intros H. split; [intros food; apply H; left|]. intros e' food He'. apply H. by right.
  - intros [H1 H2] e' food [->|He']%elem_of_cons; [apply H1|by apply H2].
Qed.

Lemma contribution_known dens m e food v :
  m !! foodId e = Some food → getVariant food (basis e) = Some v →
  contribution dens m e = Some (dens v * (Math_max0 (grams e) / 100))%float.
Proof.
  intros Hm Hv. unfold contribution. rewrite Hm. cbn [mbind option_bind].
  by rewrite <- getVariant_spec_b64, Hv.
Qed.

Lemma contribution_unknown dens m e :
  m !! foodId e = None → contribution dens m e = None.
Proof. intros Hm. unfold contribution. by rewrite Hm. Qed.

(** The loop adds the contributions of the specification, in order. *)
Lemma sum_entries_spec_b64 m es : resolvable m es → ∀ acc,
  sum_entries m es acc
  = Some (mkTotals
            (foldl (λ a x, a + x)%float (t_kcal acc) (omap (contribution kcal_density m) es))
            (foldl (λ a x, a + x)%float (t_p acc) (omap (contribution v_p m) es))
            (foldl (λ a x, a + x)%float (t_c acc) (omap (contribution v_c m) es))
            (foldl (λ a x, a + x)%float (t_f acc) (omap (contribution v_f m) es))).
Proof.
  induction es as [|e es IH]; intros Hr acc; [by destruct acc|].
  apply resolvable_cons_b64 in Hr as [He Hr]. cbn [sum_entries omap list_omap].
  unfold add_entry. destruct (m !! foodId e) as [food|] eqn:Hm.
  - destruct (getVariant_total_b64 food (basis e) (He food eq_refl)) as [v Hv].
    rewrite Hv, !(contribution_known _ m e food v Hm Hv).
    cbn [mbind option_bind foldl]. by rewrite IH.
  - rewrite !(contribution_unknown _ m e Hm). cbn [mbind option_bind]. by rewrite IH.
Qed.

Lemma sum_entries_app_b64 m es1 es2 acc :
  sum_entries m (es1 ++ es2) acc = sum_entries m es1 acc ≫= sum_entries m es2.
Proof.
  revert acc. induction es1 as [|e es1 IH]; intros acc; [done|].
  cbn [app sum_entries]. destruct (add_entry m acc e) as [acc'|]; [|done]. apply IH.
Qed.

(** An entry whose food is not in the catalog is skipped. *)
Lemma computeTotals_skip_b64 m es1 e es2 :
  m !! foodId e = None →
  computeTotals (es1 ++ e :: es2) m = computeTotals (es1 ++ es2) m.
Proof.
  intros H. unfold computeTotals. rewrite !sum_entries_app_b64.
  destruct (sum_entries m es1 _) as [acc|]; [|done]. cbn [mbind option_bind sum_entries].
  unfold add_entry at 1. by rewrite H.
Qed.

Lemma getVariant_no_match_b64 food b :
  (∀ v, v ∈ variants food → v_basis v ≠ b) → getVariant food b = head (variants food).
Proof.
  intros H. unfold getVariant. rewrite find_head_filter.
  destruct (filter _ _) as [|v l] eqn:E; [done|].
  assert (Hin : v ∈ filter (λ v, v_basis v = b) (variants food)) by (rewrite E; left).
  apply list_elem_of_filter in Hin as [Hb Hv]. by destruct (H v Hv).
Qed.

Lemma getVariant_first_b64 food v :
  variants food !! 0%nat = Some v → getVariant food (v_basis v) = Some v.
Proof.
  intros H. unfold getVariant. destruct (variants food) as [|v' l]; [done|].
  injection H as ->. cbn. by rewrite bool_decide_eq_true_2.
Qed.

(** An entry whose basis names no variant counts as its food's first one. *)
Lemma computeTotals_fallback_b64 m es1 e es2 food v0 :
  m !! foodId e = Some food → (∀ v, v ∈ variants food → v_basis v ≠ basis e) →
  variants food !! 0%nat = Some v0 →
  computeTotals (es1 ++ e :: es2) m
  = computeTotals (es1 ++ mkEntry (foodId e) (v_basis v0) (grams e) :: es2) m.
Proof.
  intros Hm Hno H0. unfold computeTotals. rewrite !sum_entries_app_b64.
  destruct (sum_entries m es1 _) as [acc|]; [|done]. cbn [mbind option_bind sum_entries].
  unfold add_entry. cbn [foodId basis grams]. rewrite Hm.
  by rewrite (getVariant_no_match_b64 _ _ Hno), head_lookup, H0,
    (getVariant_first_b64 _ _ H0).
Qed.

Lemma spec_variant_elem_b64 food b v : spec_variant food b = Some v → v ∈ variants food.
Proof.
  unfold spec_variant. destruct (filter _ _) as [|v' l] eqn:E.
  - apply list_elem_of_lookup_2.
  - intros [= <-]. assert (Hin : v' ∈ filter (λ v, v_basis v = b) (variants food))
      by (rewrite E; left).
    by apply list_elem_of_filter in Hin as [_ ?].
Qed.

Lemma foldl_not_negative (l : list float) : ∀ a,
  not_negative a → Forall not_negative l → not_negative (foldl (λ a x, a + x)%float a l).
Proof.
  induction l as [|x l IH]; intros a Ha Hl; [done|].
  apply Forall_cons in Hl as [Hx Hl]. cbn [foldl]. apply IH; [|done].
  by apply not_negative_add.
Qed.

Lemma contributions_not_negative (dens : FoodVariant → float) m es :
  (∀ k food v, m !! k = Some food → v ∈ variants food → not_negative (dens v)) →
  Forall not_negative (omap (contribution dens m) es).
Proof.
  intros Hd. apply Forall_forall. intros x (e & He & Hx)%list_elem_of_omap.
  unfold contribution in Hx.
  destruct (m !! foodId e) as [food|] eqn:Hm; [|done]. cbn [mbind option_bind] in Hx.
  destruct (spec_variant food (basis e)) as [v|] eqn:Hv; [|done]. injection Hx as <-.
  apply not_negative_mul.
  - eapply Hd; [done|]. by eapply spec_variant_elem_b64.
  - apply not_negative_div; [apply not_negative_Math_max0|done].
Qed.

(** C6. For entries whose foods (where the catalog has them) have a
    variant, [computeTotals] returns the four sums of the specification,
    each rounded once: an entry contributes
    [density * (max(0, grams) / 100)] of its variant (the one matching its
    basis, else the first), and nothing if its food is unknown; the
    contributions are doubles, added in the order of the entries.  So no
    total is below zero when no density is (each is at least zero, or
    [NaN]), an empty list gives zeros,
    dropping an entry with an unknown food or renaming an unmatched basis
    to the first variant's changes nothing, and rounding the sum is not
    rounding the summands. *)
Theorem computeTotals_spec (es : list DayFoodEntry) (m : FoodsMap) :
  resolvable m es →
  ∃ t, computeTotals es m = Some t
    ∧ t_kcal t = round2 (spec_sum kcal_density m es)
    ∧ t_p t = round2 (spec_sum v_p m es)
    ∧ t_c t = round2 (spec_sum v_c m es)
    ∧ t_f t = round2 (spec_sum v_f m es)
    ∧ (nonneg_densities m →
       ∀ x, x ∈ [t_kcal t; t_p t; t_c t; t_f t] →
            not_negative x ∧ (is_nan x = false → (0 <=? x)%float = true))
    ∧ (es = [] → t = mkTotals 0 0 0 0)
    ∧ (∀ es1 e es2, es = es1 ++ e :: es2 → m !! foodId e = None →
       computeTotals (es1 ++ es2) m = Some t)
    ∧ (∀ es1 e es2 food v0, es = es1 ++ e :: es2 →
       m !! foodId e = Some food →
       (∀ v, v ∈ variants food → v_basis v ≠ basis e) →
       variants food !! 0%nat = Some v0 →
       computeTotals (es1 ++ mkEntry (foodId e) (v_basis v0) (grams e) :: es2) m = Some t)
    ∧ (∃ t', computeTotals crumbs catalog = Some t'
             ∧ t_p t' = 0.01%float ∧ per_entry_rounded v_p catalog crumbs = 0%float).
Proof.
  intros Hr.
  assert (Ht : computeTotals es m
               = Some (mkTotals (round2 (spec_sum kcal_density m es))
                         (round2 (spec_sum v_p m es)) (round2 (spec_sum v_c m es))
                         (round2 (spec_sum v_f m es)))).
  { unfold computeTotals. by rewrite (sum_entries_spec_b64 m es Hr). }
  eexists. split; [exact Ht|]. cbn [t_kcal t_p t_c t_f]. split_and!; try done.
  - intros Hd x Hx.
    assert (Hn : not_negative x); [|split; [done|by apply not_negative_leb]].
    unfold spec_sum, sum_in_order in Hx.
    repeat (apply elem_of_cons in Hx as [->|Hx];
            [apply not_negative_round2, foldl_not_negative; [done|];
             apply contributions_not_negative; intros k food v Hm Hv;
             by destruct (Hd k food v Hm Hv) as (? & ? & ? & ?)|]).
    by apply elem_of_nil in Hx.
  - intros ->. by vm_compute.
  - intros es1 e es2 -> Hm. by rewrite <- (computeTotals_skip_b64 m es1 e es2 Hm).
  - intros es1 e es2 food v0 -> Hm Hno H0.
    by rewrite <- (computeTotals_fallback_b64 m es1 e es2 food v0 Hm Hno H0).
  - eexists. split; [vm_compute; reflexivity|]. split; vm_compute; reflexivity.
Qed.

Lemma catalog_wf_b64 k food : catalog !! k = Some food → variants food ≠ [].
Proof.
  unfold catalog. intros Hk.
  repeat (apply lookup_insert_Some in Hk as [[_ <-]|[_ Hk]]; [done|]).
  by rewrite lookup_empty in Hk.
Qed.

Lemma computeTotals_spec_witness :
  ∃ t, computeTotals plate catalog = Some t
    ∧ t_p t = round2 (spec_sum v_p catalog plate).
Proof.
  destruct (computeTotals_spec plate catalog (λ e food _ H, catalog_wf_b64 _ food H))
    as (t & Ht & _ & Hp & _).
  exists t. split; [exact Ht|exact Hp].
Defined.

(** The sum is that of the doubles: 29 g of a food with 0.5 g of protein
    per 100 g count as 0.14 g, where the product is 0.145 in exact
    arithmetic. *)
Example computeTotals_spoonful :
  t_p <$> computeTotals spoonful catalog = Some 0.14%float
  ∧ (exact 0.5 * exact 29 / 100 == 145 # 1000)%Q.
Proof. split; by vm_compute. Qed.

(** The aggregator on a basis without variant, an unknown food and a
    negative quantity. *)
Example totals_sample_doubles :
  computeTotals [mkEntry "rice" fresh 100; mkEntry "rice" cooked 100;
                 mkEntry "tofu" raw 50; mkEntry "chicken" raw (-5)] catalog
  = Some (mkTotals 0 9.6 105 0.9).
Proof. by vm_compute. Qed.

End Binary64Aggregation.

(** * Further properties of the code *)

(** ** Rounding and allocation *)

Section MoreAllocation.
Import Calc.

Lemma Qfloor_half z : Qfloor (inject_Z z + (1 # 2)) = z.
Proof.
  pose proof (Qfloor_le (inject_Z z + (1 # 2))) as H1.
  pose proof (Qlt_floor (inject_Z z + (1 # 2))) as H2.
  set (f := Qfloor _) in *.
  assert (f < z + 1)%Z.
  { rewrite Zlt_Qlt, inject_Z_plus. change (inject_Z 1) with 1%Q. lra. }
  assert (z < f + 1)%Z by (rewrite Zlt_Qlt; lra).
  lia.
Qed.




Lemma per_type_nonneg total share n :
  (0 <= total)%Q → (0 <= share)%Q → (0 <= per_type total share n)%Q.
Proof.
  intros Ht Hs. unfold per_type. destruct (0 <? n)%Z eqn:Hn; [|done].
  apply Z.ltb_lt in Hn. apply Qle_shift_div_l.
  - change 0%Q with (inject_Z 0). by rewrite <- Zlt_Qlt.
  - rewrite Qmult_0_l. by apply Qmult_le_0_compat.
Qed.

Lemma totals_raw_nonneg p :
  profile_nonneg p →
  (0 <= pDay_raw p)%Q ∧ (0 <= cTotal_raw p)%Q ∧ (0 <= fTotal_raw p)%Q.
Proof.
  intros (Hw & Hp & He & Hc & _).
  assert (0 <= inject_Z (cycleDays p))%Q
    by (change 0%Q with (inject_Z 0); by rewrite <- Zle_Qle).
  unfold pDay_raw, cTotal_raw, fTotal_raw, carbPerKg, fatPerKg. split_and!.
  - by apply Qmult_le_0_compat.
  - apply Qmult_le_0_compat; [|done]. apply Qmult_le_0_compat; [done|].
    by destruct (bodyType p).
  - apply Qmult_le_0_compat; [|done]. apply Qmult_le_0_compat; [done|].
    by destruct (bodyType p).
Qed.

(** X2. For a profile whose weight, rates, shares and cycle length are not
    negative, no target that [calculateCycle] returns is negative. *)
Theorem calculateCycle_nonneg (p : PlannerProfile) :
  profile_nonneg p →
  (0 <= pDay (calculateCycle p))%Q
  ∧ (0 <= cTotal (calculateCycle p))%Q
  ∧ (0 <= fTotal (calculateCycle p))%Q
  ∧ ∀ t, t ∈ dayTargets (calculateCycle p) →
         (0 <= proteinTarget t)%Q ∧ (0 <= carbTarget t)%Q ∧ (0 <= fatTarget t)%Q.
Proof.
  intros Hp. destruct (totals_raw_nonneg p Hp) as (Hpd & Hc & Hf).
  destruct Hp as (_ & _ & _ & _ & Hs).
  split_and!; try by apply round2_nonneg.
  intros t [i Hi]%list_elem_of_lookup. cbn in Hi. rewrite list_lookup_imap in Hi.
  destruct (dayPlacement p !! i) as [d|]; [|done]. injection Hi as <-. cbn.
  destruct (Hs d) as [Hsc Hsf]. split_and!; apply round2_nonneg; try done.
  - rewrite perTypeC_get. by apply per_type_nonneg.
  - rewrite perTypeF_get. by apply per_type_nonneg.
Qed.

Lemma profile_A_nonneg : profile_nonneg profile_A.
Proof. split_and!; try done. by intros []. Qed.

Lemma calculateCycle_nonneg_witness :
  (0 <= pDay (calculateCycle profile_A))%Q
  ∧ (0 <= cTotal (calculateCycle profile_A))%Q
  ∧ (0 <= fTotal (calculateCycle profile_A))%Q
  ∧ ∀ t, t ∈ dayTargets (calculateCycle profile_A) →
         (0 <= proteinTarget t)%Q ∧ (0 <= carbTarget t)%Q ∧ (0 <= fatTarget t)%Q.
Proof. apply (calculateCycle_nonneg profile_A), profile_A_nonneg. Defined.

Lemma carbTargets_fmap p :
  carbTarget <$> dayTargets (calculateCycle p)
  = (λ d, round2 (getD (perTypeC p) d)) <$> dayPlacement p.
Proof.
  apply list_eq. intros i. cbn.
  rewrite !list_lookup_fmap, list_lookup_imap. by destruct (dayPlacement p !! i).
Qed.

Lemma fatTargets_fmap p :
  fatTarget <$> dayTargets (calculateCycle p)
  = (λ d, round2 (getD (perTypeF p) d)) <$> dayPlacement p.
Proof.
  apply list_eq. intros i. cbn.
  rewrite !list_lookup_fmap, list_lookup_imap. by destruct (dayPlacement p !! i).
Qed.

Lemma sumQ_cons x l : sumQ (x :: l) = (x + sumQ l)%Q.
Proof. done. Qed.

Lemma sumQ_round_error (f : DayType → Q) (l : list DayType) :
  (Qabs (sumQ ((λ d, round2 (f d)) <$> l) - sumQ (f <$> l))
   <= inject_Z (Z.of_nat (length l)) * (1 # 200))%Q.
Proof.
  apply Qabs_Qle_condition. induction l as [|d l IH].
  - change (- (0 * (1 # 200)) <= 0 - 0 <= 0 * (1 # 200))%Q. lra.
  - rewrite !fmap_cons, !sumQ_cons. cbn [length].
    rewrite Nat2Z.inj_succ, <- Z.add_1_r, inject_Z_plus. change (inject_Z 1) with 1%Q.
    pose proof (round2_bounds (f d)). lra.
Qed.

Lemma sumQ_by_category (f : DayType → Q) (l : list DayType) :
  (sumQ (f <$> l)
   == inject_Z (cnt High l) * f High + inject_Z (cnt Medium l) * f Medium
      + inject_Z (cnt Low l) * f Low)%Q.
Proof.
  induction l as [|d l IH].
  - rewrite !cnt_nil. cbn. ring.
  - rewrite fmap_cons, sumQ_cons, IH, !cnt_cons.
    destruct d; repeat case_decide; try done; rewrite !inject_Z_plus;
      change (inject_Z 1) with 1%Q; change (inject_Z 0) with 0%Q; ring.
Qed.

Lemma per_type_times total share n :
  (0 <= n)%Z →
  (inject_Z n * per_type total share n
   == if (0 <? n)%Z then total * share else 0)%Q.
Proof.
  intros Hn. unfold per_type. destruct (0 <? n)%Z eqn:E.
  - apply Z.ltb_lt in E. field. intros H0.
    assert (0 < inject_Z n)%Q by (change 0%Q with (inject_Z 0); by rewrite <- Zlt_Qlt).
    lra.
  - ring.
Qed.

Lemma day_sum_by_share (total : Q) (shares : DayRec Q) (req : DayRec Z)
    (l : list DayType) :
  count l = req →
  (sumQ ((λ d, per_type total (getD shares d) (getD req d)) <$> l)
   == total * live_share shares req)%Q.
Proof.
  intros Hc. rewrite sumQ_by_category.
  assert (H : ∀ d, cnt d l = getD req d) by (by apply count_cnt).
  rewrite !H, !per_type_times by (rewrite <- H; apply cnt_nonneg).
  unfold live_share. cbn [getD].
  destruct (0 <? atHigh req)%Z, (0 <? atMedium req)%Z, (0 <? atLow req)%Z; ring.
Qed.

(** X3. When the placement has the required counts, the carbohydrate
    targets of the days add up to the cycle total times the shares of the
    categories that have a day, within half a hundredth per day, and so do
    the fat targets; with every category present and shares summing to 1
    that is the cycle total itself.  The share of a category without days
    is not distributed. *)
Theorem day_targets_add_up (p : PlannerProfile) :
  placement_ok p →
  let r := calculateCycle p in
  let tolerance := (inject_Z (Z.of_nat (length (dayPlacement p))) * (1 # 200))%Q in
  (Qabs (sumQ (carbTarget <$> dayTargets r)
         - cTotal_raw p * live_share (carbShares p) (required p)) <= tolerance)%Q
  ∧ (Qabs (sumQ (fatTarget <$> dayTargets r)
           - fTotal_raw p * live_share (fatShares p) (required p)) <= tolerance)%Q
  ∧ ((0 < nHigh p)%Z → (0 < nMed p)%Z → (0 < nLow p)%Z →
     (atHigh (carbShares p) + atMedium (carbShares p) + atLow (carbShares p) == 1)%Q →
     (Qabs (sumQ (carbTarget <$> dayTargets r) - cTotal_raw p) <= tolerance)%Q).
Proof.
  intros Hok. cbn zeta.
  pose proof (sumQ_round_error (getD (perTypeC p)) (dayPlacement p)) as Hc.
  pose proof (sumQ_round_error (getD (perTypeF p)) (dayPlacement p)) as Hf.
  rewrite <- carbTargets_fmap in Hc. rewrite <- fatTargets_fmap in Hf.
  assert (Ec : (sumQ (getD (perTypeC p) <$> dayPlacement p)
                == cTotal_raw p * live_share (carbShares p) (required p))%Q).
  { rewrite <- (day_sum_by_share _ _ _ _ Hok). f_equiv.
    apply list_fmap_ext. intros i d _. apply perTypeC_get. }
  assert (Ef : (sumQ (getD (perTypeF p) <$> dayPlacement p)
                == fTotal_raw p * live_share (fatShares p) (required p))%Q).
  { rewrite <- (day_sum_by_share _ _ _ _ Hok). f_equiv.
    apply list_fmap_ext. intros i d _. apply perTypeF_get. }
  split_and!.
  - by rewrite <- Ec.
  - by rewrite <- Ef.
  - intros Hh Hm Hl Hs. rewrite Ec in Hc.
    assert (El : (live_share (carbShares p) (required p) == 1)%Q).
    { unfold live_share, required. cbn.
      apply Z.ltb_lt in Hh as ->. apply Z.ltb_lt in Hm as ->.
      by apply Z.ltb_lt in Hl as ->. }
    rewrite El, Qmult_1_r in Hc. exact Hc.
Qed.

Lemma profile_A_placement_ok : placement_ok profile_A.
Proof. reflexivity. Qed.

Lemma day_targets_add_up_witness :
  (Qabs (sumQ (carbTarget <$> dayTargets (calculateCycle profile_A))
         - cTotal_raw profile_A
           * live_share (carbShares profile_A) (required profile_A))
   <= inject_Z (Z.of_nat (length (dayPlacement profile_A))) * (1 # 200))%Q.
Proof. exact (proj1 (day_targets_add_up profile_A profile_A_placement_ok)). Defined.

End MoreAllocation.

(** ** Validation and repair together *)

Section MorePlacement.
Import Calc.

Lemma validateProfile_reports p :
  validateProfile p
  = report (counts_bad p) "Day counts must sum to cycle days."
    ++ report (carb_shares_bad p) "Carb shares must sum to 1.0."
    ++ report (fat_shares_bad p) "Fat shares must sum to 1.0."
    ++ report (placement_bad p)
         "Day placement must keep fixed counts for High/Medium/Low.".
Proof.
  unfold validateProfile. cbn zeta.
  fold (counts_bad p) (carb_shares_bad p) (fat_shares_bad p) (placement_bad p).
  by destruct (counts_bad p), (carb_shares_bad p), (fat_shares_bad p), (placement_bad p).
Qed.

Lemma counts_bad_false p : counts_bad p = false ↔ counts_sum_ok p.
Proof.
  unfold counts_bad, counts_sum_ok. rewrite bool_decide_eq_false. split; [|tauto].
  intros H. by destruct (decide ((nHigh p + nMed p + nLow p)%Z = cycleDays p)).
Qed.

Lemma placement_bad_false p : placement_bad p = false ↔ placement_ok p.
Proof.
  unfold placement_bad, placement_ok, required.
  rewrite !orb_false_iff, !bool_decide_eq_false.
  destruct (count (dayPlacement p)) as [h m l]; cbn. split.
  - intros [[Hh Hm] Hl]. f_equal.
    + by destruct (decide (h = nHigh p)).
    + by destruct (decide (m = nMed p)).
    + by destruct (decide (l = nLow p)).
  - intros [= -> -> ->]. tauto.
Qed.

(** A profile whose counts and placement are in order has only the two
    messages about the shares left. *)
Lemma validateProfile_shares_only p :
  counts_sum_ok p → placement_ok p → validateProfile p = share_errors p.
Proof.
  intros Hc%counts_bad_false Hp%placement_bad_false.
  rewrite validateProfile_reports, Hc, Hp. unfold share_errors. cbn.
  by rewrite app_nil_r.
Qed.

Lemma placement_ok_length p :
  placement_ok p → Z.of_nat (length (dayPlacement p)) = (nHigh p + nMed p + nLow p)%Z.
Proof.
  intros H. rewrite <- cnt_total.
  assert (Hc : ∀ d, cnt d (dayPlacement p) = getD (required p) d) by (by apply count_cnt).
  by rewrite !Hc.
Qed.

(** A placement that already has the required counts is left alone. *)
Lemma normalizePlacement_valid p :
  counts_sum_ok p → placement_ok p → normalizePlacement p = dayPlacement p.
Proof.
  intros Hs Hok. pose proof (placement_ok_length p Hok) as Hlen.
  unfold counts_sum_ok in Hs.
  assert (Hfit : fit_length p = dayPlacement p) by (apply fit_length_id; lia).
  rewrite normalizePlacement_tail, repair_tail_noop; [by rewrite Hfit|].
  intros d _. left. rewrite excess_get, Hfit.
  assert (Hc : ∀ d, cnt d (dayPlacement p) = getD (required p) d) by (by apply count_cnt).
  rewrite Hc. lia.
Qed.

(** X4. For required counts that are not negative and sum to the cycle
    length, [normalizePlacement] returns the stored placement exactly when
    that placement already has the required counts: what the validator
    accepts, the repair does not touch, and what it rejects, the repair
    changes. *)
Theorem normalizePlacement_fixes_only_invalid (p : PlannerProfile) :
  (0 <= nHigh p)%Z → (0 <= nMed p)%Z → (0 <= nLow p)%Z → counts_sum_ok p →
  (normalizePlacement p = dayPlacement p ↔ placement_ok p).
Proof.
  intros Hh Hm Hl Hs. split; [|by apply normalizePlacement_valid].
  intros Heq. unfold placement_ok. rewrite <- Heq, normalizePlacement_tail.
  destruct (repair_tail _ _ _) as [[l' ex'] la'] eqn:E. cbn [fst].
  apply count_cnt. by destruct (repair_tail_done p l' ex' la' Hh Hm Hl Hs E).
Qed.

Lemma normalizePlacement_fixes_only_invalid_witness :
  normalizePlacement profile_A = dayPlacement profile_A ↔ placement_ok profile_A.
Proof. by apply (normalizePlacement_fixes_only_invalid profile_A). Defined.

(** X5. The profile that the application installs at start-up, the saved
    one with its placement replaced by [normalizePlacement]'s, passes the
    checks of the counts and of the placement whenever the saved counts are
    not negative and sum to the cycle length: the validator reports the
    share messages of the saved profile and nothing else, so every message
    it still gives was a message for the saved profile. *)
Theorem normalized_profile_validates (p : PlannerProfile) :
  (0 <= nHigh p)%Z → (0 <= nMed p)%Z → (0 <= nLow p)%Z → counts_sum_ok p →
  validateProfile (with_placement p (normalizePlacement p)) = share_errors p
  ∧ (∀ msg, msg ∈ validateProfile (with_placement p (normalizePlacement p)) →
            msg ∈ validateProfile p).
Proof.
  intros Hh Hm Hl Hs.
  assert (Hv : validateProfile (with_placement p (normalizePlacement p)) = share_errors p).
  { rewrite validateProfile_shares_only; [done|done|].
    unfold placement_ok. cbn [with_placement dayPlacement].
    rewrite normalizePlacement_tail.
    destruct (repair_tail _ _ _) as [[l' ex'] la'] eqn:E. cbn [fst].
    apply count_cnt. by destruct (repair_tail_done p l' ex' la' Hh Hm Hl Hs E). }
  split; [done|]. intros msg. rewrite Hv, validateProfile_reports. unfold share_errors.
  rewrite !elem_of_app. tauto.
Qed.

Lemma normalized_profile_validates_witness :
  validateProfile (with_placement profile_long (normalizePlacement profile_long))
  = share_errors profile_long.
Proof. by apply (normalized_profile_validates profile_long). Defined.

End MorePlacement.

(** ** More on the aggregator *)

Section MoreAggregation.
Import Calc Solver.

Implicit Types (m : FoodsMap) (e : DayFoodEntry) (es : list DayFoodEntry).

(** The value of the aggregator, when it returns. *)
Lemma computeTotals_value m es :
  resolvable m es →
  computeTotals es m
  = Some (mkTotals (round2 (spec_sum kcal_density m es)) (round2 (spec_sum v_p m es))
                   (round2 (spec_sum v_c m es)) (round2 (spec_sum v_f m es))).
Proof.
  intros Hr. unfold computeTotals.
  destruct (sum_entries_spec m es Hr (mkTotals 0 0 0 0)) as (r & -> & Hk & Hp & Hc & Hf).
  cbn in Hk, Hp, Hc, Hf. rewrite Qplus_0_l in Hk, Hp, Hc, Hf. cbn. unfold round_totals.
  by rewrite (round2_comp _ _ Hk), (round2_comp _ _ Hp), (round2_comp _ _ Hc),
    (round2_comp _ _ Hf).
Qed.

(** Two lists on which the aggregator raises alike and the sums of the
    contributions agree have the same totals. *)
Lemma computeTotals_ext m es1 es2 :
  (resolvable m es1 ↔ resolvable m es2) →
  (∀ dens, (spec_sum dens m es1 == spec_sum dens m es2)%Q) →
  computeTotals es1 m = computeTotals es2 m.
Proof.
  intros Hr Hs.
  destruct (computeTotals es1 m) as [t1|] eqn:E1.
  - assert (H1 : resolvable m es1) by (apply computeTotals_Some_iff; by rewrite E1).
    rewrite computeTotals_value in E1 by done.
    rewrite computeTotals_value by (by apply Hr). rewrite <- E1.
    by rewrite (round2_comp _ _ (Hs kcal_density)), (round2_comp _ _ (Hs v_p)),
      (round2_comp _ _ (Hs v_c)), (round2_comp _ _ (Hs v_f)).
  - destruct (computeTotals es2 m) as [t2|] eqn:E2; [|done].
    assert (H2 : resolvable m es2) by (apply computeTotals_Some_iff; by rewrite E2).
    apply Hr, computeTotals_Some_iff in H2. rewrite E1 in H2. by destruct H2.
Qed.

Lemma spec_sum_perm dens m es es' :
  es ≡ₚ es' → (spec_sum dens m es == spec_sum dens m es')%Q.
Proof.
  induction 1 as [|e es es' _ IH|e1 e2 es|es1 es2 es3 _ IH1 _ IH2].
  - reflexivity.
  - by rewrite !spec_sum_cons, IH.
  - rewrite !spec_sum_cons. ring.
  - by rewrite IH1.
Qed.


Lemma same_weight_contribution dens m e1 e2 :
  same_weight e1 e2 →
  (spec_contribution dens m e1 == spec_contribution dens m e2)%Q.
Proof.
  intros (Hi & Hb & Hg). unfold spec_contribution. rewrite <- Hi, <- Hb.
  destruct (m !! foodId e1) as [food|]; [|reflexivity].
  destruct (spec_variant food (basis e1)) as [v|]; [|reflexivity]. by rewrite Hg.
Qed.

Lemma same_weight_sum dens m es1 es2 :
  Forall2 same_weight es1 es2 → (spec_sum dens m es1 == spec_sum dens m es2)%Q.
Proof.
  induction 1 as [|e1 e2 es1 es2 He _ IH]; [reflexivity|].
  by rewrite !spec_sum_cons, IH, (same_weight_contribution dens m e1 e2 He).
Qed.

Lemma same_weight_keys es1 es2 : Forall2 same_weight es1 es2 → keys es1 = keys es2.
Proof.
  induction 1 as [|e1 e2 es1 es2 (Hi & Hb & _) _ IH]; [done|].
  unfold keys in *. cbn. unfold key at 1 3. by rewrite Hi, Hb, IH.
Qed.

Lemma or_zero_eq g : (or_zero g == g)%Q.
Proof.
  unfold or_zero. destruct (Qeq_bool g 0) eqn:E; [|reflexivity].
  apply Qeq_bool_iff in E. by rewrite E.
Qed.

Lemma clamp_same_weight e : same_weight (clamp_entry e) e.
Proof.
  split_and!; [done..|]. cbn. rewrite or_zero_eq.
  destruct (Q.max_spec 0 (grams e)) as [[? ->]|[? ->]].
  - apply Q.max_r. lra.
  - apply Q.max_id.
Qed.

(** X7. Only the positive part of a quantity counts: the totals of a plan
    are those of the plan with every quantity replaced by [max(0, grams)],
    the list the solver starts from, and in general two plans with the same
    foods, bases and positive parts have the same totals. *)
Theorem computeTotals_ignores_negative (es : list DayFoodEntry) (m : FoodsMap) :
  computeTotals (clamped es) m = computeTotals es m
  ∧ ∀ es', Forall2 same_weight es es' → computeTotals es m = computeTotals es' m.
Proof.
  assert (H : ∀ es1 es2, Forall2 same_weight es1 es2 →
                         computeTotals es1 m = computeTotals es2 m).
  { intros es1 es2 Hw. pose proof (same_weight_keys _ _ Hw) as Hk.
    apply computeTotals_ext.
    - split; apply resolvable_keys; done.
    - intros dens. by apply same_weight_sum. }
  split; [|apply H]. apply H. unfold clamped.
  apply Forall2_fmap_l, Forall_Forall2_diag, Forall_forall. intros e _.
  apply clamp_same_weight.
Qed.

(** X8. [getVariant] returns [undefined] only for a food without variants;
    what it returns is a variant of the food, with the requested basis if
    the food has one with that basis, and the first variant otherwise. *)
Theorem getVariant_cases (food : FoodItem) (b : Basis) :
  (getVariant food b = None ↔ variants food = [])
  ∧ (∀ v, getVariant food b = Some v →
          v ∈ variants food
          ∧ (v_basis v = b ∨ (variants food !! 0%nat = Some v
                              ∧ ∀ w, w ∈ variants food → v_basis w ≠ b)))
  ∧ (∀ w, w ∈ variants food → v_basis w = b →
          ∃ v, getVariant food b = Some v ∧ v_basis v = b).
Proof.
  split_and!.
  - split.
    + intros H. destruct (variants food) as [|v l] eqn:E; [done|].
      destruct (getVariant_total food b) as [v' Hv']; [by rewrite E|congruence].
    + intros H. unfold getVariant. by rewrite H.
  - intros v Hv. split; [rewrite getVariant_spec in Hv; by eapply spec_variant_elem|].
    rewrite getVariant_spec in Hv. unfold spec_variant in Hv.
    destruct (filter _ _) as [|v' l] eqn:E.
    + right. split; [done|]. intros w Hw Hb.
      assert (Hin : w ∈ filter (λ v, v_basis v = b) (variants food))
        by (by apply list_elem_of_filter).
      rewrite E in Hin. by apply elem_of_nil in Hin.
    + injection Hv as <-. left.
      assert (Hin : v' ∈ filter (λ v, v_basis v = b) (variants food))
        by (rewrite E; left).
      by apply list_elem_of_filter in Hin as [? _].
  - intros w Hw Hb. rewrite getVariant_spec. unfold spec_variant.
    destruct (filter _ _) as [|v' l] eqn:E.
    + assert (Hin : w ∈ filter (λ v, v_basis v = b) (variants food))
        by (by apply list_elem_of_filter).
      rewrite E in Hin. by apply elem_of_nil in Hin.
    + exists v'. split; [done|].
      assert (Hin : v' ∈ filter (λ v, v_basis v = b) (variants food))
        by (rewrite E; left).
      by apply list_elem_of_filter in Hin as [? _].
Qed.

End MoreAggregation.

(** ** More on the seeding phase *)

Section MoreSeeding.
Import Calc Solver.

Implicit Types (m : FoodsMap) (e : DayFoodEntry) (es : list DayFoodEntry).
Implicit Types (group : list nat) (sorted : list (nat * Q)).

Lemma fill_done sorted remaining es :
  (remaining <= 0)%Q → fill sorted remaining es = es.
Proof. intros H. destruct sorted; [done|]. cbn. by apply Qleb_le in H as ->. Qed.

Lemma needed_supplied (remaining d : Q) :
  (0 < remaining)%Q → (0 < d)%Q →
  (d * (Qmax 0 (remaining / d * 100) / 100) == remaining)%Q.
Proof.
  intros Hr Hd.
  assert (H0 : (0 <= remaining / d * 100)%Q).
  { assert (0 <= remaining / d)%Q by (apply Qle_shift_div_l; lra). lra. }
  rewrite (Q.max_r _ _ H0). field. lra.
Qed.

(** The first item takes all that is needed; the loop then breaks. *)
Lemma fill_first item rest remaining es :
  (0 < remaining)%Q → (0 < item.2)%Q →
  fill (item :: rest) remaining es
  = alter (λ e, with_grams e (grams e + Qmax 0 (remaining / item.2 * 100))%Q) item.1 es.
Proof.
  intros Hr Hd. cbn [fill]. apply Qleb_gt in Hr as Hb. rewrite Hb.
  apply fill_done. rewrite (needed_supplied _ _ Hr Hd). lra.
Qed.

Lemma elem_of_insert_desc (x y : nat * Q) (l : list (nat * Q)) :
  y ∈ insert_desc x l ↔ y = x ∨ y ∈ l.
Proof.
  induction l as [|z l IH]; cbn.
  - rewrite list_elem_of_singleton, elem_of_nil. tauto.
  - destruct (Qleb z.2 x.2); rewrite !elem_of_cons, ?IH; tauto.
Qed.

Lemma elem_of_sort_desc (y : nat * Q) (l : list (nat * Q)) : y ∈ sort_desc l ↔ y ∈ l.
Proof.
  induction l as [|x l IH]; [done|].
  unfold sort_desc in *. cbn [foldr]. rewrite elem_of_insert_desc, IH, elem_of_cons. tauto.
Qed.

(** The sorted list starts with an item of the highest density. *)
Lemma sort_desc_head (l : list (nat * Q)) (hd : nat * Q) :
  head (sort_desc l) = Some hd → ∀ y, y ∈ l → (y.2 <= hd.2)%Q.
Proof.
  revert hd. induction l as [|x l IH]; intros hd Hhd y Hy; [by apply elem_of_nil in Hy|].
  unfold sort_desc in *. cbn [foldr] in Hhd.
  destruct (foldr insert_desc [] l) as [|z l'] eqn:E.
  - injection Hhd as <-. apply elem_of_cons in Hy as [->|Hy]; [lra|].
    apply elem_of_sort_desc in Hy. unfold sort_desc in Hy. rewrite E in Hy.
    by apply elem_of_nil in Hy.
  - cbn [insert_desc] in Hhd. specialize (IH z eq_refl).
    destruct (Qleb z.2 x.2) eqn:Hle.
    + injection Hhd as <-. apply Qleb_le in Hle.
      apply elem_of_cons in Hy as [->|Hy]; [lra|]. specialize (IH y Hy). lra.
    + injection Hhd as <-. apply Qleb_gt in Hle.
      apply elem_of_cons in Hy as [->|Hy]; [lra|]. by apply IH.
Qed.

Lemma with_density_fst m macro es i x : with_density m macro es i = Some x → x.1 = i.
Proof.
  unfold with_density. destruct (es !! i) as [e|]; [|done]. cbn.
  destruct (m !! foodId e) as [food|]; [|done]. cbn.
  destruct (getVariant food (basis e)); [|done]. by intros [= <-].
Qed.

Lemma ranked_elem m macro es group ranked x :
  mapM (with_density m macro es) group = Some ranked → x ∈ ranked →
  x.1 ∈ group ∧ with_density m macro es x.1 = Some x.
Proof.
  intros Hm%mapM_Some [k Hk]%list_elem_of_lookup.
  destruct (Forall2_lookup_r _ _ _ _ _ Hm Hk) as (i & Hi & Hd).
  rewrite (with_density_fst _ _ _ _ _ Hd). split; [by eapply list_elem_of_lookup_2|done].
Qed.

Lemma ranked_of_group m macro es group ranked i x :
  mapM (with_density m macro es) group = Some ranked → i ∈ group →
  with_density m macro es i = Some x → x ∈ ranked.
Proof.
  intros Hm%mapM_Some [k Hk]%list_elem_of_lookup Hd.
  destruct (Forall2_lookup_l _ _ _ _ _ Hm Hk) as (y & Hy & Hd').
  rewrite Hd in Hd'. injection Hd' as <-. by eapply list_elem_of_lookup_2.
Qed.

(** X9. A call of [assign] changes nothing, or raises the quantity of a
    member of the group whose density for the macro is positive and the
    highest of the group: the entry that is served first. *)
Theorem assign_serves_densest (m : FoodsMap) (group : list nat) (macro : Macro)
    (needed : Q) (es es' : list DayFoodEntry) :
  assign m group macro needed es = Some es' →
  es' = es
  ∨ ∃ i d e e',
      i ∈ group ∧ with_density m macro es i = Some (i, d)
      ∧ (0 < d)%Q ∧ (0 < needed)%Q
      ∧ (∀ j dj, j ∈ group → with_density m macro es j = Some (j, dj) → (dj <= d)%Q)
      ∧ es !! i = Some e ∧ es' !! i = Some e'
      ∧ foodId e' = foodId e ∧ basis e' = basis e
      ∧ (grams e < grams e')%Q.
Proof.
  unfold assign. destruct (bool_decide _ || Qleb needed 0) eqn:Hc; [intros [= <-]; by left|].
  apply orb_false_iff in Hc as [_ Hn%Qleb_gt].
  destruct (mapM _ group) as [ranked|] eqn:Hm; [|done]. cbn [mbind option_bind].
  destruct (sort_desc (List.filter _ ranked)) as [|item rest] eqn:Hs;
    intros [= <-]; [by left|]. right.
  assert (Hhd : head (sort_desc (List.filter (λ x, Qltb 0 x.2) ranked)) = Some item)
    by (by rewrite Hs).
  assert (Hin : item ∈ List.filter (λ x, Qltb 0 x.2) ranked)
    by (apply elem_of_sort_desc; rewrite Hs; left).
  apply list_elem_of_In, filter_In in Hin as [Hin%list_elem_of_In Hpos%Qltb_lt].
  destruct (ranked_elem _ _ _ _ _ _ Hm Hin) as [Hg Hd].
  destruct item as [i d]. cbn [fst snd] in *.
  assert (He : ∃ e, es !! i = Some e).
  { unfold with_density in Hd. destruct (es !! i) as [e|]; [by exists e|done]. }
  destruct He as [e He].
  exists i, d, e, (with_grams e (grams e + Qmax 0 (needed / d * 100))%Q).
  split_and!; try done.
  - intros j dj Hj Hdj.
    pose proof (ranked_of_group _ _ _ _ _ _ _ Hm Hj Hdj) as Hr.
    destruct (Qlt_le_dec 0 dj) as [Hp|Hp]; [|lra].
    apply (sort_desc_head _ _ Hhd (j, dj)).
    apply list_elem_of_In, filter_In. split; [by apply list_elem_of_In|by apply Qltb_lt].
  - pose proof (fill_first (i, d) rest needed es Hn Hpos) as Hf. cbn [fst snd] in Hf.
    etrans; [exact (f_equal (λ l, l !! i) Hf)|]. cbn beta.
    by rewrite list_lookup_alter_eq, He.
  - cbn [with_grams grams].
    assert (0 < needed / d * 100)%Q.
    { apply Qmult_lt_0_compat; [|done]. by apply Qlt_shift_div_l; [|rewrite Qmult_0_l]. }
    pose proof (Q.le_max_r 0 (needed / d * 100)). lra.
Qed.

Lemma assign_serves_densest_witness :
  ∃ es', assign catalog [0%nat; 1%nat] macro_p 28 (clamped plate) = Some es'
         ∧ (es' = clamped plate
            ∨ ∃ i e e', clamped plate !! i = Some e ∧ es' !! i = Some e'
                        ∧ (grams e < grams e')%Q).
Proof.
  eexists. split; [by vm_compute|].
  destruct (assign_serves_densest catalog [0%nat; 1%nat] macro_p 28 (clamped plate) _
              ltac:(by vm_compute))
    as [H|(i & d & e & e' & _ & _ & _ & _ & _ & He & He' & _ & _ & Hlt)].
  - left. exact H.
  - right. exists i, e, e'. split; [exact He|]. split; [exact He'|exact Hlt].
Defined.

Lemma fill_frame sorted : ∀ remaining es j,
  j ∉ sorted.*1 → fill sorted remaining es !! j = es !! j.
Proof.
  induction sorted as [|item rest IH]; intros remaining es j Hj; [done|].
  cbn [fill]. destruct (Qleb remaining 0); [done|].
  rewrite fmap_cons, not_elem_of_cons in Hj. destruct Hj as [Hne Hj].
  rewrite IH by done. by apply list_lookup_alter_ne.
Qed.

Lemma fill_grows sorted : ∀ remaining es j e,
  es !! j = Some e →
  ∃ e', fill sorted remaining es !! j = Some e' ∧ key e' = key e
        ∧ (grams e <= grams e')%Q.
Proof.
  induction sorted as [|[i d] rest IH]; intros remaining es j e He.
  - exists e. split_and!; [done..|lra].
  - cbn [fill fst snd]. destruct (Qleb remaining 0); [exists e; split_and!; [done..|lra]|].
    pose proof (Q.le_max_l 0 (remaining / d * 100)) as Hg0.
    destruct (decide (i = j)) as [->|Hne].
    + edestruct (IH (remaining - d * (Qmax 0 (remaining / d * 100) / 100))%Q
                    (alter (λ e, with_grams e (grams e + Qmax 0 (remaining / d * 100))%Q)
                           j es) j) as (e' & He' & Hk & Hg).
      { rewrite list_lookup_alter_eq, He. done. }
      exists e'. split_and!; [done|by rewrite Hk|]. cbn in Hg. lra.
    + edestruct (IH (remaining - d * (Qmax 0 (remaining / d * 100) / 100))%Q
                    (alter (λ e, with_grams e (grams e + Qmax 0 (remaining / d * 100))%Q)
                           i es) j) as (e' & He' & Hk & Hg).
      { rewrite list_lookup_alter_ne by done. exact He. }
      by exists e'.
Qed.

Lemma assign_frame m group macro needed es es' j :
  assign m group macro needed es = Some es' → j ∉ group → es' !! j = es !! j.
Proof.
  unfold assign. destruct (_ || _); [by intros [= <-]|].
  destruct (mapM _ group) as [ranked|] eqn:Hm; [|done]. cbn [mbind option_bind].
  intros [= <-] Hj. apply fill_frame. intros Hin. apply Hj.
  apply list_elem_of_fmap in Hin as (x & -> & Hx).
  apply elem_of_sort_desc, list_elem_of_In, filter_In in Hx as [Hx%list_elem_of_In _].
  by destruct (ranked_elem _ _ _ _ _ _ Hm Hx).
Qed.

Lemma assign_grows m group macro needed es es' j e :
  assign m group macro needed es = Some es' → es !! j = Some e →
  ∃ e', es' !! j = Some e' ∧ key e' = key e ∧ (grams e <= grams e')%Q.
Proof.
  unfold assign. destruct (_ || _).
  - intros [= <-] He. exists e. split_and!; [done..|lra].
  - destruct (mapM _ group) as [ranked|]; [|done]. cbn [mbind option_bind].
    intros [= <-] He. by apply fill_grows.
Qed.

Lemma elem_of_group_of m cat es j :
  j ∈ group_of m cat es ↔
  ∃ e, es !! j = Some e ∧ category <$> m !! foodId e = Some cat.
Proof.
  unfold group_of. rewrite list_elem_of_In, filter_In, <- list_elem_of_In, elem_of_seq.
  split.
  - intros [_ H]. destruct (es !! j) as [e|]; [|done]. cbn in H.
    exists e. split; [done|]. by apply bool_decide_eq_true in H.
  - intros (e & He & Hc). rewrite He. cbn. split.
    + apply lookup_lt_Some in He. lia.
    + by apply bool_decide_eq_true.
Qed.

(** X10. The seeding never lowers a quantity and keeps every entry's food
    and basis; it leaves alone every entry whose food is missing from the
    catalog or is neither a protein, a carbohydrate nor a fat food. *)
Theorem seed_only_adds (m : FoodsMap) (target : MacroTarget)
    (es es' : list DayFoodEntry) :
  seed m target es = Some es' →
  ∀ j e, es !! j = Some e →
    ∃ e', es' !! j = Some e'
          ∧ foodId e' = foodId e ∧ basis e' = basis e
          ∧ (grams e <= grams e')%Q
          ∧ (category <$> m !! foodId e ≠ Some protein →
             category <$> m !! foodId e ≠ Some carb →
             category <$> m !! foodId e ≠ Some fat → e' = e).
Proof.
  unfold seed. cbn zeta.
  destruct (assign m _ macro_p _ es) as [es1|] eqn:E1; [|done]. cbn [mbind option_bind].
  destruct (assign m _ macro_c _ es1) as [es2|] eqn:E2; [|done]. cbn [mbind option_bind].
  intros E3 j e He.
  destruct (assign_grows _ _ _ _ _ _ _ _ E1 He) as (e1 & He1 & K1 & G1).
  destruct (assign_grows _ _ _ _ _ _ _ _ E2 He1) as (e2 & He2 & K2 & G2).
  destruct (assign_grows _ _ _ _ _ _ _ _ E3 He2) as (e3 & He3 & K3 & G3).
  exists e3. unfold key in *. split_and!; [done|congruence|congruence|lra|].
  intros Hp Hc Hf.
  assert (Hout : ∀ cat, category <$> m !! foodId e ≠ Some cat → j ∉ group_of m cat es).
  { intros cat Hcat (e0 & He0 & Hc0)%elem_of_group_of. congruence. }
  rewrite (assign_frame _ _ _ _ _ _ _ E3 (Hout fat Hf)) in He3.
  rewrite (assign_frame _ _ _ _ _ _ _ E2 (Hout carb Hc)) in He3.
  rewrite (assign_frame _ _ _ _ _ _ _ E1 (Hout protein Hp)) in He3. congruence.
Qed.

Lemma seed_only_adds_witness :
  ∃ es', seed catalog lunch_target (clamped plate) = Some es'
         ∧ ∀ j e, clamped plate !! j = Some e →
             ∃ e', es' !! j = Some e' ∧ (grams e <= grams e')%Q.
Proof.
  eexists. split; [by vm_compute|]. intros j e He.
  destruct (seed_only_adds catalog lunch_target (clamped plate) _ ltac:(by vm_compute)
              j e He) as (e' & He' & _ & _ & Hg & _).
  exists e'. split; [exact He'|exact Hg].
Defined.

End MoreSeeding.

(** ** More on the local search *)

Section MoreSearch.
Import Calc Solver.

Implicit Types (m : FoodsMap) (e : DayFoodEntry) (es out : list DayFoodEntry).
Implicit Types (target : MacroTarget) (b : Best).

(** A trial that leaves [bestIdx] negative was no improvement. *)
Lemma try_delta_rejected m target es idx b delta b' :
  try_delta m target es idx b delta = Some b' → (bestIdx b' < 0)%Z →
  b' = b
  ∧ ∀ e t, es !! idx = Some e → (0 <= grams e + delta)%Q →
           computeTotals (<[idx := with_grams e (grams e + delta)%Q]> es) m = Some t →
           (bestScore b - 1e-9 <= score target t)%Q.
Proof.
  unfold try_delta. intros H Hneg.
  destruct (es !! idx) as [e|] eqn:He; [|by injection H as <-].
  destruct (Qltb (grams e + delta) 0) eqn:Hlt.
  - injection H as <-. split; [done|]. intros e0 t [= <-] Hpos.
    apply Qltb_lt in Hlt. lra.
  - destruct (computeTotals _ m) as [t|] eqn:Ht; [|done]. cbn [mbind option_bind] in H.
    destruct (Qltb (score target t) (bestScore b - 1e-9)) eqn:Hs; injection H as <-.
    + cbn in Hneg. lia.
    + split; [done|]. intros e0 t0 [= <-] _ Ht0. rewrite Ht in Ht0.
      injection Ht0 as <-. by apply Qltb_ge in Hs.
Qed.

Lemma scan_moves_rejected m target es idxs : ∀ b b',
  scan_moves m target es idxs b = Some b' → (bestIdx b' < 0)%Z →
  b' = b ∧ no_better_at m target es (bestScore b) idxs.
Proof.
  induction idxs as [|idx rest IH]; intros b b'.
  - intros [= <-] _. split; [done|]. by intros idx e delta t ?%elem_of_nil.
  - cbn [scan_moves]. unfold try_index.
    destruct (try_delta m target es idx b step) as [b0|] eqn:E0; [|done].
    cbn [mbind option_bind].
    destruct (try_delta m target es idx b0 (- step)) as [b1|] eqn:E1; [|done].
    cbn [mbind option_bind]. intros E2 Hneg.
    destruct (IH _ _ E2 Hneg) as [-> Hrest].
    destruct (try_delta_rejected _ _ _ _ _ _ _ E1 Hneg) as [-> H1].
    destruct (try_delta_rejected _ _ _ _ _ _ _ E0 Hneg) as [-> H0].
    split; [done|]. intros i e delta t [->|Hi]%elem_of_cons He Hd Hpos Ht.
    + destruct Hd as [->| ->]; eauto.
    + by eapply Hrest.
Qed.

(** X11. When an iteration of the local search breaks, the deviation is
    below 1, or the plan is a local optimum: no change of one entry by
    [+5] or [-5] grams that keeps it non-negative lowers the deviation by
    more than 1e-9. *)
Theorem iterate_break_local_optimum (m : FoodsMap) (target : MacroTarget)
    (es : list DayFoodEntry) :
  iterate m target es = Some Break →
  ∃ t, computeTotals es m = Some t
       ∧ ((score target t < 1)%Q ∨ no_better_move m target es (score target t)).
Proof.
  unfold iterate. destruct (computeTotals es m) as [t|] eqn:Ht; [|done].
  cbn [mbind option_bind]. intros H. exists t. split; [done|].
  destruct (Qltb (score target t) 1) eqn:H1; [left; by apply Qltb_lt|]. right.
  destruct (scan_moves _ _ _ _ _) as [b|] eqn:Hscan; [|done].
  cbn [mbind option_bind] in H.
  destruct (bestIdx b <? 0)%Z eqn:Hneg.
  - apply Z.ltb_lt in Hneg.
    destruct (scan_moves_rejected _ _ _ _ _ _ Hscan Hneg) as [_ Hno].
    intros idx e delta t' He Hd Hpos Ht'. eapply (Hno idx); try done.
    apply elem_of_seq. apply lookup_lt_Some in He. lia.
  - apply Z.ltb_ge in Hneg.
    apply (scan_moves_ok m target es (score target t)) in Hscan; [|by left].
    destruct Hscan as [[Hi _]|(idx & e & t' & Hi & He & _)]; [lia|].
    rewrite Hi, Nat2Z.id, He in H. done.
Qed.

Lemma iterate_break_local_optimum_witness :
  ∃ t, computeTotals stuck_plate catalog = Some t
       ∧ ((score stuck_target t < 1)%Q
          ∨ no_better_move catalog stuck_target stuck_plate (score stuck_target t)).
Proof.
  apply (iterate_break_local_optimum catalog stuck_target stuck_plate). by vm_compute.
Defined.

Lemma search_end m target n : ∀ es out,
  search m target n es = Some out →
  iterate m target out = Some Break ∨ nsteps (moves m target) n es out.
Proof.
  induction n as [|n IH]; intros es out.
  - intros [= <-]. right. constructor.
  - cbn [search]. destruct (iterate m target es) as [[|es']|] eqn:E; [| |done];
      cbn [mbind option_bind].
    + intros [= <-]. by left.
    + intros [H|H]%IH; [by left|]. right. by apply (nsteps_l _ _ _ es').
Qed.

Lemma search_stable m target n out :
  iterate m target out = Some Break → search m target n out = Some out.
Proof. intros H. destruct n as [|n]; [done|]. cbn [search]. by rewrite H. Qed.

(** X12. The loop stops where it would stop again: unless it has used all
    its iterations, each for a move, the entries it returns make the next
    iteration break, so that searching from them, with any number of
    iterations, returns them unchanged. *)
Theorem search_result_stable (m : FoodsMap) (target : MacroTarget) (n : nat)
    (es out : list DayFoodEntry) :
  search m target n es = Some out →
  (iterate m target out = Some Break ∧ ∀ n', search m target n' out = Some out)
  ∨ nsteps (moves m target) n es out.
Proof.
  intros [H|H]%search_end; [left|by right].
  split; [done|]. intros n'. by apply search_stable.
Qed.

Lemma search_result_stable_witness :
  ∃ out, search catalog (mkTarget 40 0 0) 1500 [mkEntry "chicken" raw 140] = Some out
         ∧ ((iterate catalog (mkTarget 40 0 0) out = Some Break
             ∧ ∀ n', search catalog (mkTarget 40 0 0) n' out = Some out)
            ∨ nsteps (moves catalog (mkTarget 40 0 0)) 1500
                     [mkEntry "chicken" raw 140] out).
Proof.
  eexists. split; [by vm_compute|].
  apply (search_result_stable catalog (mkTarget 40 0 0) 1500). by vm_compute.
Defined.









End MoreSearch.

(** ** The profile updates of the application *)

Section ProfileUpdates.
Import Calc App.

Lemma cnt_replicate d d' n :
  cnt d (replicate n d') = if decide (d' = d) then Z.of_nat n else 0%Z.
Proof.
  induction n as [|n IH]; cbn [replicate].
  - rewrite cnt_nil. by case_decide.
  - rewrite cnt_cons, IH. case_decide; lia.
Qed.

(** The placement that the loops build has the counts it was built from. *)
Lemma count_build_placement h m l :
  (0 <= h)%Z → (0 <= m)%Z → (0 <= l)%Z →
  count (build_placement h m l) = mkDayRec h m l.
Proof.
  intros Hh Hm Hl. apply count_cnt. intros d. unfold build_placement.
  rewrite !cnt_app, !cnt_replicate. destruct d; repeat case_decide; try done; cbn; lia.
Qed.

Lemma setCycleDays_fields (nextDays : Z) (p : PlannerProfile) :
  (0 <= nHigh p)%Z → (0 <= nMed p)%Z →
  let q := setCycleDays nextDays p in
  cycleDays q = clamp nextDays 1 30
  ∧ nHigh q = Z.min (nHigh p) (cycleDays q)
  ∧ nMed q = Z.min (nMed p) (cycleDays q - nHigh q)
  ∧ nLow q = (cycleDays q - nHigh q - nMed q)%Z
  ∧ dayPlacement q = build_placement (nHigh q) (nMed q) (nLow q)
  ∧ carbShares q = carbShares p ∧ fatShares q = fatShares p.
Proof.
  intros Hh Hm. unfold setCycleDays. cbn zeta.
  destruct (Z.ltb_spec (clamp nextDays 1 30 - Z.min (nHigh p) (clamp nextDays 1 30)
                        - Z.min (nMed p) (clamp nextDays 1 30
                                          - Z.min (nHigh p) (clamp nextDays 1 30))) 0)
    as [Hneg|_]; [|done].
  unfold clamp in Hneg. lia.
Qed.

(** X14. [setCycleDays], on a profile whose High and Medium counts are not
    negative: the new cycle length is the request clamped to 1..30; the
    High and then the Medium count are cut to what fits and Low takes the
    rest, so the counts sum to the cycle length; the rebuilt placement has
    these counts, so that the validator is left with the share messages
    and [normalizePlacement] has nothing to repair. *)
Theorem setCycleDays_valid (nextDays : Z) (p : PlannerProfile) :
  (0 <= nHigh p)%Z → (0 <= nMed p)%Z →
  let q := setCycleDays nextDays p in
  (1 <= cycleDays q <= 30)%Z
  ∧ ((1 <= nextDays <= 30)%Z → cycleDays q = nextDays)
  ∧ (0 <= nHigh q <= nHigh p)%Z ∧ (0 <= nMed q <= nMed p)%Z ∧ (0 <= nLow q)%Z
  ∧ ((nHigh p + nMed p <= cycleDays q)%Z → nHigh q = nHigh p ∧ nMed q = nMed p)
  ∧ counts_sum_ok q
  ∧ placement_ok q
  ∧ validateProfile q = share_errors p
  ∧ normalizePlacement q = dayPlacement q.
Proof.
  intros Hh Hm. cbn zeta.
  destruct (setCycleDays_fields nextDays p Hh Hm) as (Ec & EH & EM & EL & EP & ECs & EFs).
  cbn zeta in *. set (q := setCycleDays nextDays p) in *.
  assert (Hc : (1 <= cycleDays q <= 30)%Z) by (rewrite Ec; unfold clamp; lia).
  assert (Hok : placement_ok q).
  { unfold placement_ok, required. rewrite EP. apply count_build_placement; lia. }
  assert (Hs : counts_sum_ok q) by (unfold counts_sum_ok; lia).
  split_and!; try lia; try done.
  - rewrite Ec. unfold clamp. lia.
  - rewrite (validateProfile_shares_only q Hs Hok).
    unfold share_errors, carb_shares_bad, fat_shares_bad. by rewrite ECs, EFs.
  - by apply normalizePlacement_valid.
Qed.

Lemma setCycleDays_valid_witness :
  placement_ok (setCycleDays 3 profile_long)
  ∧ validateProfile (setCycleDays 3 profile_long) = share_errors profile_long.
Proof.
  destruct (setCycleDays_valid 3 profile_long ltac:(by vm_compute) ltac:(by vm_compute))
    as (_ & _ & _ & _ & _ & _ & _ & Hok & Hv & _).
  split; [exact Hok|exact Hv].
Defined.

(** X15. [setCounts] with counts that are not negative: if they sum to the
    cycle length the placement is rebuilt with exactly these counts and the
    validator is left with the share messages; if they do not, the
    placement is kept as it is and the validator's first message is the
    one about the sum. *)
Theorem setCounts_valid (h m l : Z) (p : PlannerProfile) :
  (0 <= h)%Z → (0 <= m)%Z → (0 <= l)%Z →
  let q := setCounts h m l p in
  required q = mkDayRec h m l ∧ cycleDays q = cycleDays p
  ∧ ((h + m + l)%Z = cycleDays p →
     dayPlacement q = build_placement h m l ∧ placement_ok q
     ∧ validateProfile q = share_errors p)
  ∧ ((h + m + l)%Z ≠ cycleDays p →
     dayPlacement q = dayPlacement p
     ∧ head (validateProfile q) = Some "Day counts must sum to cycle days."%string).
Proof.
  intros Hh Hm Hl. cbn zeta. unfold setCounts.
  destruct (bool_decide _) eqn:E.
  - apply bool_decide_eq_true in E. split_and!; try done.
    intros _. split; [done|].
    rewrite validateProfile_reports. unfold counts_bad. cbn.
    by rewrite bool_decide_eq_true_2.
  - apply bool_decide_eq_false in E.
    assert (Hs : (h + m + l)%Z = cycleDays p)
      by (by destruct (decide ((h + m + l)%Z = cycleDays p))).
    split_and!; try done. intros _.
    assert (Hok : placement_ok
                    (mkProfile (sex p) (weightKg p) (bodyType p) (proteinPerKg p)
                       (ectoFatPerKg p) (cycleDays p) h m l (carbShares p)
                       (fatShares p) (build_placement h m l)))
      by (by apply count_build_placement).
    split_and!; [done|done|]. by rewrite validateProfile_shares_only.
Qed.

Lemma setCounts_valid_witness :
  placement_ok (setCounts 1 1 3 profile_long)
  ∧ validateProfile (setCounts 1 1 3 profile_long) = share_errors profile_long.
Proof.
  destruct (setCounts_valid 1 1 3 profile_long ltac:(done) ltac:(done) ltac:(done))
    as (_ & _ & H & _).
  destruct (H eq_refl) as (_ & Hok & Hv). split; [exact Hok|exact Hv].
Defined.

Lemma cnt_insert d (l : list DayType) i a b :
  l !! i = Some a →
  cnt d (<[i := b]> l)
  = (cnt d l - (if decide (a = d) then 1 else 0) + (if decide (b = d) then 1 else 0))%Z.
Proof.
  revert i. induction l as [|x l IH]; intros [|i] Hi; try done.
  - injection Hi as ->. cbn [list_insert insert]. rewrite !cnt_cons. lia.
  - cbn in Hi. change (<[S i := b]> (x :: l)) with (x :: <[i := b]> l).
    rewrite !cnt_cons, (IH i Hi). lia.
Qed.

(** X16. On a profile whose placement has the required counts, changing
    the category of one day to another one breaks the counts: the
    validator's last message is the one about the placement.  Giving the
    old category to a day that had the new one repairs them again. *)
Theorem setPlacement_breaks_counts (i : nat) (d d' : DayType) (p : PlannerProfile) :
  placement_ok p → dayPlacement p !! i = Some d → d' ≠ d →
  ∃ q, setPlacement i d' p = Some q
       ∧ length (dayPlacement q) = length (dayPlacement p)
       ∧ cnt d' (dayPlacement q) = (cnt d' (dayPlacement p) + 1)%Z
       ∧ cnt d (dayPlacement q) = (cnt d (dayPlacement p) - 1)%Z
       ∧ ¬ placement_ok q
       ∧ last (validateProfile q)
         = Some "Day placement must keep fixed counts for High/Medium/Low."%string
       ∧ ∀ j, dayPlacement p !! j = Some d' →
              ∃ q', setPlacement j d q = Some q' ∧ placement_ok q'.
Proof.
  intros Hok Hi Hne. pose proof (lookup_lt_Some _ _ _ Hi) as Hlt.
  exists (with_placement p (<[i := d']> (dayPlacement p))).
  assert (Hc : ∀ d0, cnt d0 (dayPlacement p) = getD (required p) d0) by (by apply count_cnt).
  assert (Hbad : ¬ placement_ok (with_placement p (<[i := d']> (dayPlacement p)))).
  { intros Hq. assert (Hc' := proj1 (count_cnt _ _) Hq d). cbn in Hc'.
    rewrite (cnt_insert _ _ _ _ _ Hi) in Hc'.
    change (getD (required (with_placement p _)) d) with (getD (required p) d) in Hc'.
    rewrite <- Hc in Hc'. rewrite decide_True, decide_False in Hc' by done. lia. }
  split_and!.
  - unfold setPlacement. by rewrite decide_True.
  - cbn. by rewrite length_insert.
  - cbn. rewrite (cnt_insert _ _ _ _ _ Hi), decide_False, decide_True by done. lia.
  - cbn. rewrite (cnt_insert _ _ _ _ _ Hi), decide_True, decide_False by done. lia.
  - done.
  - rewrite validateProfile_reports.
    assert (Hb : placement_bad (with_placement p (<[i := d']> (dayPlacement p))) = true).
    { destruct (placement_bad _) eqn:E; [done|]. by apply placement_bad_false in E. }
    rewrite Hb, !app_assoc. apply last_snoc.
  - intros j Hj.
    assert (Hij : i ≠ j) by (intros ->; congruence).
    assert (Hj' : <[i := d']> (dayPlacement p) !! j = Some d')
      by (by rewrite list_lookup_insert_ne).
    eexists. split.
    + unfold setPlacement. cbn [with_placement dayPlacement].
      rewrite decide_True; [done|]. rewrite length_insert. by eapply lookup_lt_Some.
    + unfold placement_ok. cbn [with_placement dayPlacement]. apply count_cnt. intros d0.
      rewrite (cnt_insert _ _ _ _ _ Hj'), (cnt_insert _ _ _ _ _ Hi).
      change (required (with_placement (with_placement p _) _)) with (required p).
      rewrite <- Hc. repeat case_decide; subst; try done; lia.
Qed.

Lemma setPlacement_breaks_counts_witness :
  ∃ q, setPlacement 0 Low profile_A = Some q ∧ ¬ placement_ok q.
Proof.
  destruct (setPlacement_breaks_counts 0 High Low profile_A profile_A_placement_ok
              eq_refl ltac:(done)) as (q & Hq & _ & _ & _ & Hbad & _).
  exists q. split; [exact Hq|exact Hbad].
Defined.

Lemma foodsMap_of_snoc (l : list FoodItem) (f : FoodItem) :
  foodsMap_of (l ++ [f]) = <[id f := f]> (foodsMap_of l).
Proof. unfold foodsMap_of. by rewrite foldl_snoc. Qed.

Lemma foodsMap_of_elem (l : list FoodItem) k f :
  foodsMap_of l !! k = Some f → f ∈ l ∧ id f = k.
Proof.
  induction l as [|g l IH] using rev_ind; [done|].
  rewrite foodsMap_of_snoc, lookup_insert. case_decide as Hk.
  - intros [= <-]. split; [|done]. apply elem_of_app. right. left.
  - intros [H1 H2]%IH. split; [|done]. apply elem_of_app. by left.
Qed.

Lemma foodsMap_of_last (l2 : list FoodItem) : ∀ l1 f,
  (∀ g, g ∈ l2 → id g ≠ id f) → foodsMap_of (l1 ++ f :: l2) !! id f = Some f.
Proof.
  induction l2 as [|g l2 IH] using rev_ind; intros l1 f H.
  - by rewrite foodsMap_of_snoc, lookup_insert_eq.
  - change (l1 ++ f :: l2 ++ [g]) with (l1 ++ (f :: l2) ++ [g]).
    rewrite app_assoc, foodsMap_of_snoc, lookup_insert_ne.
    + apply IH. intros g' Hg'. apply H, elem_of_app. by left.
    + apply H, elem_of_app. right. left.
Qed.

(** X17. The catalog map built from the list of all foods: a key resolves
    to a food of the list with that id, and every food of the list has its
    id resolved; among foods with the same id the last one wins, so a
    custom food, listed after the built-in ones, replaces a built-in food
    with its id; and if every listed food has a variant, so has every food
    of the map. *)
Theorem foodsMap_of_lookup (allFoods : list FoodItem) :
  (∀ k f, foodsMap_of allFoods !! k = Some f → f ∈ allFoods ∧ id f = k)
  ∧ (∀ f, f ∈ allFoods → is_Some (foodsMap_of allFoods !! id f))
  ∧ (∀ l1 f l2, allFoods = l1 ++ f :: l2 → (∀ g, g ∈ l2 → id g ≠ id f) →
                foodsMap_of allFoods !! id f = Some f)
  ∧ ((∀ f, f ∈ allFoods → variants f ≠ []) → catalog_wf (foodsMap_of allFoods))
  ∧ foodsMap_of ([chicken; rice] ++ [my_chicken]) !! "chicken"%string = Some my_chicken.
Proof.
  split_and!.
  - apply foodsMap_of_elem.
  - induction allFoods as [|g l IH] using rev_ind; [by intros f ?%elem_of_nil|].
    intros f Hf. rewrite foodsMap_of_snoc, lookup_insert. case_decide; [by eexists|].
    apply IH. apply elem_of_app in Hf as [Hf|Hf]; [done|].
    apply list_elem_of_singleton in Hf. congruence.
  - intros l1 f l2 -> H. by apply foodsMap_of_last.
  - intros H k f [Hf _]%foodsMap_of_elem. by apply H.
  - by vm_compute.
Qed.

End ProfileUpdates.

(** ** The updates of the day plans *)

Section DayPlanUpdates.
Import Calc Solver App.

Implicit Types (m : FoodsMap) (plans : DayPlans) (es : list DayFoodEntry).

Lemma entries_of_insert plans d es : entries_of (<[d := es]> plans) d = es.
Proof. unfold entries_of. by rewrite lookup_insert_eq. Qed.

Lemma findIndex_None fid es : findIndex fid es = None ↔ fid ∉ foodId <$> es.
Proof.
  unfold findIndex. rewrite fmap_None, list_find_None, Forall_forall. split.
  - intros H (e & -> & He)%list_elem_of_fmap. by apply (H e He).
  - intros H e He <-. apply H, list_elem_of_fmap. by exists e.
Qed.

Lemma findIndex_Some fid es i :
  findIndex fid es = Some i ↔
  ∃ e, es !! i = Some e ∧ foodId e = fid
       ∧ ∀ j y, es !! j = Some y → (j < i)%nat → foodId y ≠ fid.
Proof.
  unfold findIndex. rewrite fmap_Some. split.
  - intros ([j e] & H & ->). apply list_find_Some in H. by exists e.
  - intros (e & H). exists (i, e). split; [|done]. by apply list_find_Some.
Qed.

Lemma findIndex_snoc fid es e :
  fid ∉ foodId <$> es → foodId e = fid → findIndex fid (es ++ [e]) = Some (length es).
Proof.
  intros Hn He. apply findIndex_Some. exists e. split_and!.
  - by rewrite lookup_app_r, Nat.sub_diag.
  - done.
  - intros j y Hj Hlt. rewrite lookup_app_l in Hj by done. intros <-.
    apply Hn, list_elem_of_fmap. exists y. split; [done|]. by eapply list_elem_of_lookup_2.
Qed.

Lemma ids_without l1 e l2 :
  NoDup (foodId <$> (l1 ++ e :: l2)) →
  NoDup (foodId <$> (l1 ++ l2))
  ∧ (foodId e ∉ foodId <$> (l1 ++ l2))
  ∧ ∀ k, k ≠ foodId e →
         (k ∈ foodId <$> (l1 ++ l2) ↔ k ∈ foodId <$> (l1 ++ e :: l2)).
Proof.
  rewrite !fmap_app, fmap_cons. intros (H1 & H2 & [H3 H4]%NoDup_cons)%NoDup_app.
  split_and!.
  - apply NoDup_app. split_and!; [done| |done]. intros x Hx Hx'. apply (H2 x Hx). by right.
  - intros [H|H]%elem_of_app; [|done]. apply (H2 _ H). left.
  - intros k Hk. rewrite !elem_of_app, elem_of_cons. tauto.
Qed.

(** X18. [toggleFood] on a day whose entries name each food at most once:
    this stays so; the food is on the day afterwards exactly if it was not
    before, and for every other food nothing changes; the other days are
    untouched; and ticking a food that was not on the day twice gives the
    entries of the day back. *)
Theorem toggleFood_flips (m : FoodsMap) (day : Z) (fid : string) (plans : DayPlans) :
  NoDup (foodId <$> entries_of plans day) →
  let plans' := toggleFood m day fid plans in
  NoDup (foodId <$> entries_of plans' day)
  ∧ (fid ∈ foodId <$> entries_of plans' day ↔ fid ∉ foodId <$> entries_of plans day)
  ∧ (∀ k, k ≠ fid →
       (k ∈ foodId <$> entries_of plans' day ↔ k ∈ foodId <$> entries_of plans day))
  ∧ (∀ d, d ≠ day → plans' !! d = plans !! d)
  ∧ (fid ∉ foodId <$> entries_of plans day →
     toggleFood m day fid plans' = <[day := entries_of plans day]> plans).
Proof.
  intros Hnd. cbn zeta. unfold toggleFood at 1 2 3 4.
  rewrite !entries_of_insert. set (es := entries_of plans day) in *.
  assert (Hother : ∀ es' d, d ≠ day → <[day := es']> plans !! d = plans !! d)
    by (intros es' d Hd; by rewrite lookup_insert_ne).
  destruct (findIndex fid es) as [i|] eqn:E.
  - apply findIndex_Some in E as (e & Hi & He & _).
    rewrite delete_take_drop. rewrite <- (take_drop_middle es i e Hi) in Hnd.
    destruct (ids_without _ _ _ Hnd) as (H1 & H2 & H3). rewrite He in H2, H3.
    split_and!; [done| |  |by auto|].
    + split; [done|]. intros Hn. destruct Hn.
      apply list_elem_of_fmap. exists e. split; [done|]. by eapply list_elem_of_lookup_2.
    + intros k Hk. rewrite (H3 k Hk). by rewrite (take_drop_middle es i e Hi).
    + intros Hn. exfalso. apply Hn, list_elem_of_fmap. exists e. split; [done|].
      by eapply list_elem_of_lookup_2.
  - apply findIndex_None in E.
    split_and!; [| | |by auto|].
    + rewrite fmap_app. apply NoDup_app. split_and!; [done| |apply NoDup_singleton].
      intros x Hx Hx'%list_elem_of_singleton. cbn in Hx'. by subst x.
    + split; [done|]. intros _. rewrite fmap_app, elem_of_app. right. left.
    + intros k Hk. rewrite fmap_app, elem_of_app. cbn. rewrite list_elem_of_singleton.
      tauto.
    + intros _. unfold toggleFood. rewrite entries_of_insert. fold es.
      rewrite (proj2 (findIndex_None fid es) E).
      rewrite (findIndex_snoc fid es (mkEntry fid (first_basis m fid) 0) E eq_refl).
      replace (delete (length es) (es ++ [_])) with es; [apply insert_insert_eq|].
      symmetry. rewrite delete_take_drop.
      rewrite take_app_length, drop_ge, app_nil_r; [done|]. rewrite length_app. cbn. lia.
Qed.

Lemma toggleFood_flips_witness :
  "rice"%string ∈ foodId <$> entries_of (toggleFood catalog 1 "rice" ∅) 1
  ↔ "rice"%string ∉ foodId <$> entries_of (∅ : DayPlans) 1.
Proof.
  exact (proj1 (proj2 (toggleFood_flips catalog 1 "rice" ∅ (NoDup_nil_2 (A := string))))).
Defined.

Lemma spec_sum_snoc dens m es e :
  (spec_sum dens m (es ++ [e]) == spec_contribution dens m e + spec_sum dens m es)%Q.
Proof.
  rewrite <- spec_sum_cons. apply spec_sum_perm.
  symmetry. apply Permutation_cons_append.
Qed.

Lemma spec_contribution_zero dens m e : (grams e == 0)%Q → (spec_contribution dens m e == 0)%Q.
Proof.
  intros Hg. unfold spec_contribution.
  destruct (m !! foodId e) as [food|]; [|done].
  destruct (spec_variant food (basis e)) as [v|]; [|done].
  assert (Qmax 0 (grams e) == 0)%Q as -> by (rewrite Hg; apply Q.max_id). field.
Qed.

(** X19. Ticking a food that is not on the day adds it with zero grams:
    if the food is unknown to the catalog or has a variant, the totals of
    the day are what they were; if the catalog has the food without any
    variant, the totals of the day cannot be computed any more. *)
Theorem toggleFood_add_totals (m : FoodsMap) (day : Z) (fid : string) (plans : DayPlans) :
  fid ∉ foodId <$> entries_of plans day →
  let plans' := toggleFood m day fid plans in
  entries_of plans' day
  = entries_of plans day ++ [mkEntry fid (first_basis m fid) 0]
  ∧ ((∀ food, m !! fid = Some food → variants food ≠ []) →
     computeTotals (entries_of plans' day) m = computeTotals (entries_of plans day) m)
  ∧ ((∃ food, m !! fid = Some food ∧ variants food = []) →
     computeTotals (entries_of plans' day) m = None).
Proof.
  intros Hn%findIndex_None. cbn zeta. unfold toggleFood. rewrite entries_of_insert, Hn.
  set (es := entries_of plans day). set (e := mkEntry fid (first_basis m fid) 0).
  split_and!; [done| |].
  - intros Hv. apply computeTotals_ext.
    + unfold resolvable. split.
      * intros H e' food He'. apply H, elem_of_app. by left.
      * intros H e' food [He'|He']%elem_of_app; [by apply H|].
        apply list_elem_of_singleton in He' as ->. apply Hv.
    + intros dens. rewrite spec_sum_snoc, (spec_contribution_zero dens m e) by done.
      apply Qplus_0_l.
  - intros (food & Hf & Hv).
    destruct (computeTotals (es ++ [e]) m) as [t|] eqn:Et; [|done].
    assert (Hr : resolvable m (es ++ [e])) by (apply computeTotals_Some_iff; by rewrite Et).
    destruct (Hr e food); [|done|done]. apply elem_of_app. right. left.
Qed.

Lemma toggleFood_add_totals_witness :
  computeTotals (entries_of (toggleFood catalog 1 "rice" ∅) 1) catalog
  = computeTotals (entries_of (∅ : DayPlans) 1) catalog.
Proof.
  refine (proj1 (proj2 (toggleFood_add_totals catalog 1 "rice" ∅ _)) _).
  - by intros ?%elem_of_nil.
  - apply catalog_wf_sample.
Defined.

(** X20. [patchEntry]: without an entry for the food on the day the plans
    are returned as they are; otherwise only the first entry with that
    food is replaced, by itself overlaid with the patch, so the number of
    entries stays, and a patch without a food id keeps the foods of the
    day; the other days are untouched. *)
Theorem patchEntry_first_match (day : Z) (fid : string) (patch : EntryPatch)
    (plans : DayPlans) :
  let es := entries_of plans day in
  let plans' := patchEntry day fid patch plans in
  (fid ∉ foodId <$> es → plans' = plans)
  ∧ (∀ d, d ≠ day → plans' !! d = plans !! d)
  ∧ length (entries_of plans' day) = length es
  ∧ (∀ i e, es !! i = Some e → foodId e = fid →
            (∀ j y, es !! j = Some y → (j < i)%nat → foodId y ≠ fid) →
            entries_of plans' day = <[i := apply_patch e patch]> es)
  ∧ (patch_foodId patch = None → foodId <$> entries_of plans' day = foodId <$> es)
  ∧ (patch_foodId patch = None → patch_basis patch = None →
     keys (entries_of plans' day) = keys es).
Proof.
  cbn zeta. unfold patchEntry. set (es := entries_of plans day).
  destruct (findIndex fid es) as [i|] eqn:E.
  - pose proof E as E'. apply findIndex_Some in E' as (e & Hi & He & Hfirst).
    rewrite Hi, entries_of_insert.
    assert (Hids : patch_foodId patch = None →
                   foodId <$> <[i := apply_patch e patch]> es = foodId <$> es).
    { intros Hp. rewrite list_fmap_insert. apply list_insert_id.
      rewrite list_lookup_fmap, Hi. cbn. by rewrite Hp. }
    split_and!.
    + intros Hn%findIndex_None. congruence.
    + intros d Hd. by rewrite lookup_insert_ne.
    + apply length_insert.
    + intros i' e' Hi' He' Hfirst'.
      assert (i' = i) as ->.
      { destruct (Nat.lt_trichotomy i' i) as [Hlt|[->|Hlt]]; [|done|].
        - by destruct (Hfirst i' e' Hi' Hlt).
        - by destruct (Hfirst' i e Hi Hlt). }
      congruence.
    + done.
    + intros Hp Hb. unfold keys. rewrite list_fmap_insert. apply list_insert_id.
      rewrite list_lookup_fmap, Hi. cbn. unfold key. cbn. by rewrite Hp, Hb.
  - split_and!; try done. intros i e Hi He Hfirst.
    assert (findIndex fid es = Some i) by (apply findIndex_Some; by exists e). congruence.
Qed.

Lemma currentDayTarget_Some profile selectedDay t :
  currentDayTarget profile selectedDay = Some t →
  (1 <= selectedDay <= Z.of_nat (length (dayPlacement profile)))%Z ∧ day t = selectedDay.
Proof.
  unfold currentDayTarget. destruct (Z.ltb_spec (selectedDay - 1) 0) as [|Hd]; [done|].
  cbn. rewrite list_lookup_imap.
  destruct (dayPlacement profile !! Z.to_nat (selectedDay - 1)) as [d|] eqn:E; [|done].
  intros [= <-]. cbn. apply lookup_lt_Some in E. lia.
Qed.

Lemma currentDayTarget_is_Some profile selectedDay :
  (1 <= selectedDay <= Z.of_nat (length (dayPlacement profile)))%Z →
  is_Some (currentDayTarget profile selectedDay).
Proof.
  intros Hd. unfold currentDayTarget. destruct (Z.ltb_spec (selectedDay - 1) 0) as [|_]; [lia|].
  cbn. rewrite list_lookup_imap.
  destruct (lookup_lt_is_Some_2 (dayPlacement profile) (Z.to_nat (selectedDay - 1))) as [d ->];
    [lia|]. by eexists.
Qed.

Lemma greedyGenerate_shape m selected target :
  resolvable m selected →
  ∃ out, greedyGenerate selected m target = Some out
         ∧ keys out = keys selected ∧ nonneg out.
Proof.
  intros Hr. rewrite greedyGenerate_unfold.
  assert (Hr0 : resolvable m (clamped selected))
    by (eapply resolvable_keys; [|done]; symmetry; apply keys_clamped).
  destruct (seed_total m target _ Hr0) as [es1 E1]. rewrite E1. cbn [mbind option_bind].
  pose proof (seed_keys _ _ _ _ E1) as K1.
  pose proof (seed_nonneg _ _ _ _ E1 (nonneg_clamped selected)) as N1.
  destruct (search_total m target 1500 es1) as [es2 E2].
  { eapply resolvable_keys; [|exact Hr0]. by symmetry. }
  rewrite E2. pose proof (search_keys _ _ _ _ _ E2) as K2.
  pose proof (search_nonneg _ _ _ _ _ E2 N1) as N2.
  exists (rounded es2). split_and!; [done| |by apply nonneg_rounded].
  rewrite keys_rounded, K2, K1. apply keys_clamped.
Qed.

(** X21. [handleAutoGenerate] on a day whose foods all have a variant
    returns; the other days are untouched.  The selected day has a target
    exactly if it lies within the placement, and the target found is the
    one of that day; without a target the plans stay as they are; with
    one, the day keeps its foods and bases in order and gets quantities
    that are not negative. *)
Theorem handleAutoGenerate_plan (m : FoodsMap) (profile : PlannerProfile) (selectedDay : Z)
    (plans : DayPlans) :
  resolvable m (entries_of plans selectedDay) →
  ∃ plans', handleAutoGenerate m profile selectedDay plans = Some plans'
    ∧ (∀ d, d ≠ selectedDay → plans' !! d = plans !! d)
    ∧ (is_Some (currentDayTarget profile selectedDay)
       ↔ (1 <= selectedDay <= Z.of_nat (length (dayPlacement profile)))%Z)
    ∧ (∀ t, currentDayTarget profile selectedDay = Some t → day t = selectedDay)
    ∧ (currentDayTarget profile selectedDay = None → plans' = plans)
    ∧ (is_Some (currentDayTarget profile selectedDay) →
       keys (entries_of plans' selectedDay) = keys (entries_of plans selectedDay)
       ∧ nonneg (entries_of plans' selectedDay)).
Proof.
  intros Hr. unfold handleAutoGenerate.
  assert (Hiff : is_Some (currentDayTarget profile selectedDay)
                 ↔ (1 <= selectedDay <= Z.of_nat (length (dayPlacement profile)))%Z).
  { split; [|apply currentDayTarget_is_Some].
    intros [t Ht]. by apply currentDayTarget_Some in Ht as [? _]. }
  assert (Hday : ∀ t, currentDayTarget profile selectedDay = Some t → day t = selectedDay)
    by (intros t Ht; by apply currentDayTarget_Some in Ht as [_ ?]).
  destruct (currentDayTarget profile selectedDay) as [t|] eqn:Et.
  - destruct (greedyGenerate_shape m (entries_of plans selectedDay)
                (mkTarget (proteinTarget t) (carbTarget t) (fatTarget t)) Hr)
      as (out & Hout & Hk & Hn).
    rewrite Hout. cbn [mbind option_bind]. eexists. split; [reflexivity|].
    split_and!; [|exact Hiff|exact Hday|done|].
    + intros d Hd. by rewrite lookup_insert_ne.
    + intros _. rewrite entries_of_insert. split; [exact Hk|exact Hn].
  - exists plans. split_and!; [done|done|exact Hiff|exact Hday|done|].
    by intros [? ?].
Qed.

Lemma handleAutoGenerate_plan_witness :
  ∃ plans', handleAutoGenerate catalog profile_A 1 (<[1%Z := plate]> ∅) = Some plans'
            ∧ nonneg (entries_of plans' 1).
Proof.
  assert (Hd : (1 <= 1 <= Z.of_nat (length (dayPlacement profile_A)))%Z) by (cbn; lia).
  destruct (handleAutoGenerate_plan catalog profile_A 1 (<[1%Z := plate]> ∅)
              (catalog_wf_resolvable _ _ catalog_wf_sample))
    as (plans' & H & _ & Hiff & _ & _ & Hk).
  exists plans'. split; [exact H|]. exact (proj2 (Hk (proj2 Hiff Hd))).
Defined.

End DayPlanUpdates.

(** ** The deviations on screen and in the workbook *)

Section Deviations.
Import Calc Solver App ExportXlsx.

Implicit Types (m : FoodsMap) (plans : DayPlans) (es : list DayFoodEntry).

Lemma toFixed2_comp x y : (x == y)%Q → (toFixed2 x == toFixed2 y)%Q.
Proof.
  intros H. unfold toFixed2.
  assert (Qle_bool 1e21 (Qabs x) = Qle_bool 1e21 (Qabs y)) as ->.
  { apply eq_true_iff_eq. rewrite !Qle_bool_iff. by rewrite H. }
  destruct (Qle_bool 1e21 (Qabs y)); [done|].
  assert (Qltb x 0 = Qltb y 0) as ->.
  { apply eq_true_iff_eq. rewrite !Qltb_lt. by rewrite H. }
  destruct (Qltb y 0).
  - rewrite (Qfloor_comp (- x * 100 + (1 # 2)) (- y * 100 + (1 # 2))); [reflexivity|].
    by rewrite H.
  - rewrite (Qfloor_comp (x * 100 + (1 # 2)) (y * 100 + (1 # 2))); [reflexivity|].
    by rewrite H.
Qed.

(** A number of hundredths is printed and read back as it is. *)
Lemma toFixed2_hundredth z : (toFixed2 (inject_Z z / 100) == inject_Z z / 100)%Q.
Proof.
  unfold toFixed2. destruct (Qle_bool _ _); [reflexivity|]. destruct (Qltb _ _).
  - rewrite (Qfloor_comp _ (inject_Z (- z) + (1 # 2))).
    + rewrite Qfloor_half, inject_Z_opp. field.
    + rewrite inject_Z_opp. field.
  - rewrite (Qfloor_comp _ (inject_Z z + (1 # 2))); [by rewrite Qfloor_half|]. field.
Qed.

Lemma toFixed2_zero x : (x == 0)%Q → (toFixed2 x == 0)%Q.
Proof.
  intros H. rewrite (toFixed2_comp x (inject_Z 0 / 100)), toFixed2_hundredth; [reflexivity|].
  rewrite H. reflexivity.
Qed.

Lemma toFixed2_diff x y : (toFixed2 (round2 x - round2 y) == round2 x - round2 y)%Q.
Proof.
  unfold round2 at 1 2.
  rewrite (toFixed2_comp _ (inject_Z (Math_round (x * 100) - Math_round (y * 100)) / 100)).
  - rewrite toFixed2_hundredth. unfold round2, Z.sub.
    rewrite inject_Z_plus, inject_Z_opp. field.
  - unfold Z.sub. rewrite inject_Z_plus, inject_Z_opp. field.
Qed.

Lemma computeTotals_rounded m es t :
  computeTotals es m = Some t → ∃ acc, t = round_totals acc.
Proof.
  unfold computeTotals. destruct (sum_entries m es _) as [acc|]; [|done].
  intros [= <-]. by exists acc.
Qed.

Lemma dayTargets_lookup profile i t :
  dayTargets (calculateCycle profile) !! i = Some t →
  ∃ d, dayPlacement profile !! i = Some d
       ∧ t = mkDayTarget (Z.of_nat i + 1) d (round2 (pDay_raw profile))
               (round2 (getD (perTypeC profile) d)) (round2 (getD (perTypeF profile) d)).
Proof.
  cbn. rewrite list_lookup_imap. destruct (dayPlacement profile !! i) as [d|]; [|done].
  intros [= <-]. by exists d.
Qed.

(** X22. Where the entries of every day of the cycle refer to foods with a
    variant, [deviationsByDay] has one element per day of the placement,
    in order, for day [i + 1] at index [i], with the totals of that day's
    entries; the three differences are exactly actual minus target, the
    rounding to two places changing nothing on a difference of two rounded
    numbers. *)
Theorem deviationsByDay_exact (m : FoodsMap) (profile : PlannerProfile)
    (plans : DayPlans) :
  (∀ t, t ∈ dayTargets (calculateCycle profile) →
        resolvable m (entries_of plans (day t))) →
  ∃ ds, deviationsByDay m profile plans = Some ds
    ∧ length ds = length (dayPlacement profile)
    ∧ ∀ i d, ds !! i = Some d →
        dev_day d = (Z.of_nat i + 1)%Z
        ∧ dayPlacement profile !! i = Some (dev_dayType d)
        ∧ dayTargets (calculateCycle profile) !! i = Some (dev_target d)
        ∧ computeTotals (entries_of plans (Z.of_nat i + 1)) m = Some (dev_totals d)
        ∧ (dp d == t_p (dev_totals d) - proteinTarget (dev_target d))%Q
        ∧ (dc d == t_c (dev_totals d) - carbTarget (dev_target d))%Q
        ∧ (df d == t_f (dev_totals d) - fatTarget (dev_target d))%Q.
Proof.
  intros Hr. unfold deviationsByDay.
  destruct (mapM_is_Some_2 (deviation_of m plans) (dayTargets (calculateCycle profile)))
    as [ds Hds].
  { apply Forall_forall. intros t Ht. unfold compose, deviation_of.
    destruct (computeTotals_total m _ (Hr t Ht)) as [tot ->]. by eexists. }
  exists ds. split; [done|]. pose proof (mapM_Some_1 _ _ _ Hds) as HF.
  split.
  - rewrite <- (Forall2_length _ _ _ HF). cbn. apply length_imap.
  - intros i d Hd.
    destruct (Forall2_lookup_r _ _ _ _ _ HF Hd) as (t & Ht & Hdev).
    destruct (dayTargets_lookup _ _ _ Ht) as (dt & Hdt & Et).
    unfold deviation_of in Hdev.
    destruct (computeTotals (entries_of plans (day t)) m) as [tot|] eqn:Etot; [|done].
    injection Hdev as <-. cbn [dev_day dev_dayType dev_target dev_totals dp dc df].
    destruct (computeTotals_rounded _ _ _ Etot) as [acc ->].
    rewrite Et in *. cbn [day dayType proteinTarget carbTarget fatTarget] in *.
    split_and!; try done; cbn [round_totals t_p t_c t_f]; apply toFixed2_diff.
Qed.

Lemma deviationsByDay_exact_witness :
  ∃ ds, deviationsByDay catalog profile_A (<[1%Z := plate]> ∅) = Some ds
        ∧ length ds = length (dayPlacement profile_A).
Proof.
  destruct (deviationsByDay_exact catalog profile_A (<[1%Z := plate]> ∅)
              (λ t _, catalog_wf_resolvable _ _ catalog_wf_sample))
    as (ds & H & Hlen & _).
  exists ds. split; [exact H|exact Hlen].
Defined.

Lemma day_rows_deviation m plans t :
  day_rows m plans t
  = (λ d, (plan_row m t <$> entries_of plans (day t),
           dev_row (dev_target d) (dev_totals d))) <$> deviation_of m plans t.
Proof.
  unfold day_rows, deviation_of.
  by destruct (computeTotals (entries_of plans (day t)) m).
Qed.

(** X23. The workbook of [exportAllXlsx] and the deviations on screen:
    the export fails exactly when [deviationsByDay] fails; otherwise the
    first sheet holds the day targets; the Deviations sheet has one row
    per element of [deviationsByDay], in order, with the same day, the
    same actual values and the same three differences; and the DailyPlan
    sheet has, for the days of the cycle in order, one row per entry of
    the day, so entries of days outside the cycle are not exported. *)
Theorem exportAllXlsx_matches_screen (m : FoodsMap) (profile : PlannerProfile)
    (plans : DayPlans) :
  (exportAllXlsx profile plans m = None ↔ deviationsByDay m profile plans = None)
  ∧ ∀ ts prs drs, exportAllXlsx profile plans m = Some (ts, prs, drs) →
      ts = dayTargets (calculateCycle profile)
      ∧ prs = concat ((λ t, plan_row m t <$> entries_of plans (day t)) <$> ts)
      ∧ ∃ ds, deviationsByDay m profile plans = Some ds
          ∧ Forall2 (λ r d,
                dev_row_day r = dev_day d ∧ day_type r = dev_dayType d
                ∧ protein_actual_g r = t_p (dev_totals d)
                ∧ carb_actual_g r = t_c (dev_totals d)
                ∧ fat_actual_g r = t_f (dev_totals d)
                ∧ kcal_actual r = t_kcal (dev_totals d)
                ∧ protein_diff_g r = dp d ∧ carb_diff_g r = dc d
                ∧ fat_diff_g r = df d) drs ds.
Proof.
  unfold exportAllXlsx, export_rows, deviationsByDay.
  generalize (dayTargets (calculateCycle profile)). intros ts.
  assert (Hrows : ∀ l rows, mapM (day_rows m plans) l = Some rows →
            fst <$> rows = (λ t, plan_row m t <$> entries_of plans (day t)) <$> l
            ∧ ∃ ds, mapM (deviation_of m plans) l = Some ds
                ∧ Forall2 (λ r d,
                    dev_row_day r = dev_day d ∧ day_type r = dev_dayType d
                    ∧ protein_actual_g r = t_p (dev_totals d)
                    ∧ carb_actual_g r = t_c (dev_totals d)
                    ∧ fat_actual_g r = t_f (dev_totals d)
                    ∧ kcal_actual r = t_kcal (dev_totals d)
                    ∧ protein_diff_g r = dp d ∧ carb_diff_g r = dc d
                    ∧ fat_diff_g r = df d) (snd <$> rows) ds).
  { induction l as [|t l IH]; intros rows.
    - intros [= <-]. split; [done|]. exists []. split; [done|]. constructor.
    - cbn [mapM]. rewrite day_rows_deviation.
      unfold deviation_of at 1 3.
      destruct (computeTotals (entries_of plans (day t)) m) as [tot|]; [|done].
      cbn [mbind option_bind fmap option_fmap option_map].
      destruct (mapM (day_rows m plans) l) as [rows'|]; [|done].
      destruct (IH rows' eq_refl) as (IH1 & ds & -> & IH2).
      cbn [mbind option_bind fmap option_fmap option_map mret option_ret].
      intros [= <-]. cbn [fmap list_fmap fst snd]. split.
      + f_equal. exact IH1.
      + eexists. split; [reflexivity|]. constructor; [|exact IH2]. by split_and!. }
  split.
  - split.
    + intros H. destruct (mapM (day_rows m plans) ts) as [rows|] eqn:E; [done|].
      apply mapM_None in E. apply mapM_None.
      eapply Exists_impl; [exact E|]. intros t Ht. cbn beta in *.
      rewrite day_rows_deviation in Ht. by destruct (deviation_of m plans t).
    + intros H. apply mapM_None in H.
      assert (mapM (day_rows m plans) ts = None) as ->; [|done].
      apply mapM_None. eapply Exists_impl; [exact H|]. intros t Ht. cbn beta in *.
      by rewrite day_rows_deviation, Ht.
  - intros ts' prs drs H.
    destruct (mapM (day_rows m plans) ts) as [rows|] eqn:E; [|done].
    cbn in H. injection H as <- <- <-.
    destruct (Hrows ts rows E) as (H1 & ds & H2 & H3).
    split_and!; [done|by rewrite H1|]. by exists ds.
Qed.

Lemma toFixed2_nonneg x : (0 <= x)%Q → (0 <= toFixed2 x)%Q.
Proof.
  intros H. unfold toFixed2. destruct (Qle_bool _ _); [done|].
  destruct (Qltb x 0) eqn:E; [apply Qltb_lt in E; lra|].
  apply Qle_shift_div_l; [lra|]. rewrite Qmult_0_l.
  change 0%Q with (inject_Z 0). rewrite <- Zle_Qle, <- (Qfloor_Z 0).
  apply Qfloor_resp_le. change (inject_Z 0) with 0%Q. lra.
Qed.

Lemma toFixed2_nonpos x : (x <= 0)%Q → (toFixed2 x <= 0)%Q.
Proof.
  intros H. destruct (Qlt_le_dec x 0) as [Hlt|Hge].
  - unfold toFixed2. destruct (Qle_bool _ _); [done|].
    apply Qltb_lt in Hlt as E. rewrite E.
    assert (0 <= inject_Z (Qfloor (- x * 100 + (1 # 2))) / 100)%Q; [|lra].
    apply Qle_shift_div_l; [lra|]. rewrite Qmult_0_l.
    change 0%Q with (inject_Z 0). rewrite <- Zle_Qle, <- (Qfloor_Z 0).
    apply Qfloor_resp_le. change (inject_Z 0) with 0%Q. lra.
  - assert (H0 : (x == 0)%Q) by lra. pose proof (toFixed2_zero x H0). lra.
Qed.

(** X24. A row of the DailyPlan sheet carries the day of the target and the
    food id, basis and grams of the entry.  For a food that the catalog
    does not have, the name is the food id and the four values are zero;
    for a food of the catalog the name is its English name.  Each value
    comes from the variant that the aggregator uses and from the grams as
    they are: with a density that is not negative it is not negative for
    grams that are not, and not positive for grams below zero, whereas
    such an entry counts as nothing in the totals. *)
Theorem plan_row_values (m : FoodsMap) (t : DayTarget) (e : DayFoodEntry) :
  let r := plan_row m t e in
  row_day r = day t ∧ food_id r = foodId e ∧ row_basis r = basis e
  ∧ row_grams r = grams e
  ∧ (m !! foodId e = None →
     food_name r = foodId e
     ∧ (protein_g r == 0)%Q ∧ (carb_g r == 0)%Q ∧ (fat_g r == 0)%Q ∧ (row_kcal r == 0)%Q)
  ∧ (∀ food, m !! foodId e = Some food → food_name r = name_en food)
  ∧ (∀ food v dens value,
       m !! foodId e = Some food → getVariant food (basis e) = Some v →
       (dens, value) ∈ [(v_p, protein_g); (v_c, carb_g); (v_f, fat_g);
                        (kcal_density, row_kcal)] →
       (0 <= dens v)%Q →
       ((0 <= grams e)%Q → (0 <= value r)%Q) ∧ ((grams e <= 0)%Q → (value r <= 0)%Q))
  ∧ ((grams e < 0)%Q → ∀ dens, (spec_contribution dens m e == 0)%Q).
Proof.
  cbn zeta. unfold plan_row, row_variant. cbn [row_day food_id row_grams food_name
    row_basis protein_g carb_g fat_g row_kcal]. split_and!; try done.
  - intros ->. cbn [mbind option_bind from_option default].
    split_and!; try done; apply toFixed2_zero; ring.
  - by intros food ->.
  - intros food v dens value -> Hv Hin Hd. cbn [mbind option_bind from_option]. rewrite Hv.
    cbn [from_option default mbind option_bind].
    assert (Hsign : ∀ d, (0 <= d)%Q →
              ((0 <= grams e)%Q → (0 <= toFixed2 (d * (grams e / 100)))%Q)
              ∧ ((grams e <= 0)%Q → (toFixed2 (d * (grams e / 100)) <= 0)%Q)).
    { intros d Hd0. split; intros Hg.
      - apply toFixed2_nonneg. apply Qmult_le_0_compat; [done|].
        apply Qle_shift_div_l; [lra|]. by rewrite Qmult_0_l.
      - apply toFixed2_nonpos.
        assert (0 <= d * (- grams e / 100))%Q.
        { apply Qmult_le_0_compat; [done|]. apply Qle_shift_div_l; [lra|].
          rewrite Qmult_0_l. lra. }
        assert (d * (grams e / 100) == - (d * (- grams e / 100)))%Q by field. lra. }
    repeat (apply elem_of_cons in Hin as [[= -> ->]|Hin]; [by apply Hsign|]).
    by apply elem_of_nil in Hin.
  - intros Hg dens. unfold spec_contribution.
    destruct (m !! foodId e) as [food|]; [|done].
    destruct (spec_variant food (basis e)) as [v|]; [|done].
    assert (Qmax 0 (grams e) == 0)%Q as -> by (apply Q.max_l; lra). field.
Qed.

End Deviations.

(** ** More in the binary64 view *)

Section MoreBinary64.
Import Binary64.

(** X6. The totals depend on the order of the entries: the sum of doubles
    is taken from left to right, and it is rounded differently when three
    entries, with 0.005, 0.2 and 0.7 g of protein, are added in the
    opposite order. *)
Theorem computeTotals_order_matters :
  ∃ (es es' : list DayFoodEntry) (m : FoodsMap) t t',
    es ≡ₚ es' ∧ computeTotals es m = Some t ∧ computeTotals es' m = Some t'
    ∧ t_p t = 0.91%float ∧ t_p t' = 0.9%float ∧ (t_p t' <? t_p t)%float = true.
Proof.
  exists trio, (reverse trio), catalog. eexists. eexists.
  split_and!; [symmetry; apply reverse_Permutation|by vm_compute..].
Qed.

End MoreBinary64.
